(** * apitypings: the TypeScript generator of scripts/apitypings/main.go

    A shallow embedding of the generator (type mapper, struct renderer,
    declaration classifier, enum aggregator, union builder and output
    assembler) together with the properties of its specification.

    The go/types symbol table is data here: type descriptors are finite
    trees, read in a table of declarations where a named type reaches
    itself; a package scope is a finite map from names to objects, struct
    tags are held in the parsed form that the struct-tag parser hands to
    the generator, and a constant carries the text of its value. *)

From Stdlib Require Import ZArith Ascii String List Sorted Permutation Lia.
From stdpp Require Import base decidable option list sorting gmap strings fin_maps.

Local Open Scope string_scope.
Local Open Scope list_scope.

(** ** Strings of the Go runtime *)

Module GoStrings.

Definition nl : string := String "010"%char EmptyString.
Definition dq : string := String "034"%char EmptyString.
Definition bslash : string := String "092"%char EmptyString.

(** strings.Join *)
Fixpoint join (elems : list string) (sep : string) : string :=
  match elems with
  | [] => EmptyString
  | [x] => x
  | x :: rest => x +:+ sep +:+ join rest sep
  end.

(** strconv.Quote on the bytes it leaves printable; the named escapes are
    written out, any other byte is copied. *)
Definition quoteByte (c : ascii) : string :=
  match N_of_ascii c with
  | 34%N => bslash +:+ dq
  | 92%N => bslash +:+ bslash
  | 7%N => bslash +:+ "a"
  | 8%N => bslash +:+ "b"
  | 12%N => bslash +:+ "f"
  | 10%N => bslash +:+ "n"
  | 13%N => bslash +:+ "r"
  | 9%N => bslash +:+ "t"
  | 11%N => bslash +:+ "v"
  | _ => String c EmptyString
  end.

Fixpoint quoteBody (s : string) : string :=
  match s with
  | EmptyString => EmptyString
  | String c rest => quoteByte c +:+ quoteBody rest
  end.

(** The verb %q of fmt on a string. *)
Definition quote (s : string) : string := dq +:+ quoteBody s +:+ dq.

Definition isNewline (c : ascii) : bool := (N_of_ascii c =? 10)%N.

(** strings.TrimRight(s, cutset) for a one-byte cutset given as a test. *)
Fixpoint trimRight (cut : ascii -> bool) (s : string) : string :=
  match s with
  | EmptyString => EmptyString
  | String c rest =>
      match trimRight cut rest with
      | EmptyString => if cut c then EmptyString else String c EmptyString
      | kept => String c kept
      end
  end.

(** strings.TrimPrefix *)
Definition trimPrefix (s prefix : string) : string :=
  if String.prefix prefix s
  then String.substring (String.length prefix)
                        (String.length s - String.length prefix) s
  else s.

(** The white space of strings.TrimSpace below U+0080. *)
Definition isSpace (c : ascii) : bool :=
  match N_of_ascii c with
  | 9%N | 10%N | 11%N | 12%N | 13%N | 32%N => true
  | _ => false
  end.

Fixpoint trimLeft (cut : ascii -> bool) (s : string) : string :=
  match s with
  | EmptyString => EmptyString
  | String c rest => if cut c then trimLeft cut rest else s
  end.

(** strings.TrimSpace, on strings whose white space is below U+0080:
    the white space of Unicode above it (U+0085, U+00A0, U+2000 and the
    like) is not trimmed here. *)
Definition trimSpace (s : string) : string :=
  trimRight isSpace (trimLeft isSpace s).

(** strings.Split(s, sep) for a one-byte separator: the pieces between
    the separators, one more than there are separators. *)
Fixpoint split (sep : ascii) (s : string) : list string :=
  match s with
  | EmptyString => [EmptyString]
  | String c rest =>
      if Ascii.eqb c sep then EmptyString :: split sep rest
      else match split sep rest with
           | [] => [String c EmptyString]
           | piece :: pieces => String c piece :: pieces
           end
  end.

(** strings.Contains *)
Fixpoint contains (s sub : string) : bool :=
  String.prefix sub s ||
  match s with
  | EmptyString => false
  | String _ rest => contains rest sub
  end.

(** The last byte of a string. *)
Fixpoint lastByte (s : string) : option ascii :=
  match s with
  | EmptyString => None
  | String c EmptyString => Some c
  | String _ rest => lastByte rest
  end.

(** filepath.Base on a slash-separated path. *)
Definition isSlash (c : ascii) : bool := (N_of_ascii c =? 47)%N.

Fixpoint afterLastSlash (s : string) : string :=
  match s with
  | EmptyString => EmptyString
  | String c rest =>
      if contains rest "/" then afterLastSlash rest
      else if isSlash c then rest else s
  end.

Definition filepathBase (path : string) : string :=
  match path with
  | EmptyString => "."
  | _ =>
      match trimRight isSlash path with
      | EmptyString => "/"
      | p => afterLastSlash p
      end
  end.

(** filepath.Join dir elem, for a clean relative [dir] without dots and
    an [elem] that filepath.Base returned: the only elements that
    Clean rewrites are the dot, the double dot and the lone slash. *)
Definition filepathJoin (dir elem : string) : string :=
  if String.eqb elem "." then dir
  else if String.eqb elem ".." then "."
  else if String.eqb elem "/" then dir
  else if String.eqb elem EmptyString then dir
  else dir +:+ "/" +:+ elem.

End GoStrings.

Import GoStrings.

(** ** Results

    A Go function returning (value, error) yields [Ok] or [Err] with the
    text of the error; a call to panic yields [Panic]. *)

Inductive result (A : Type) : Type :=
| Ok (a : A)
| Err (msg : string)
| Panic (msg : string).

Arguments Ok {A} a.
Arguments Err {A} msg.
Arguments Panic {A} msg.

Global Instance result_bind : MBind result := fun A B k r =>
  match r with
  | Ok a => k a
  | Err msg => Err msg
  | Panic msg => Panic msg
  end.

Global Instance result_ret : MRet result := fun A a => Ok a.

(** xerrors.Errorf with a trailing ": %w": the error is wrapped with a
    prefix; a value and a panic pass through. *)
Definition wrapErr {A : Type} (prefix : string) (r : result A) : result A :=
  match r with
  | Err msg => Err (prefix +:+ ": " +:+ msg)
  | other => other
  end.

Definition isOk {A : Type} (r : result A) : bool :=
  match r with Ok _ => true | _ => false end.

Definition isErr {A : Type} (r : result A) : bool :=
  match r with Err _ => true | _ => false end.

(** ** Parsed struct tags *)

Module structtag.

(** One entry of a parsed struct tag (structtag.Tag): for a json entry
    written name,omitempty the key is json, the name is name and the
    options are the one option omitempty. *)
Record Tag := mkTag { Key : string; Name : string; Options : list string }.

Definition Tags := list Tag.

(** Tags.Get: the first entry with the key, or none. *)
Fixpoint Get (tags : Tags) (key : string) : option Tag :=
  match tags with
  | [] => None
  | t :: rest => if String.eqb (Key t) key then Some t else Get rest key
  end.

(** The value of an entry as written between the quotes: structtag
    splits it at the commas into name and options. *)
Definition Value (t : Tag) : string := join (Name t :: Options t) ",".

(** Tags.String *)
Definition String_ (tags : Tags) : string :=
  join (map (fun t => Key t +:+ ":" +:+ quote (Value t)) tags) " ".

End structtag.

(** reflect.StructTag.Get: the value of the first entry with the key, the
    empty string when there is none. *)
Definition reflectGet (tags : structtag.Tags) (key : string) : string :=
  match structtag.Get tags key with
  | Some t => structtag.Value t
  | None => EmptyString
  end.

(** ** The go/types data model *)

Module GoTypes.

(** The kinds of types.Basic. The aliases byte and rune have the kinds of
    uint8 and int32. *)
Inductive BasicKind :=
| Invalid
| Bool | Int | Int8 | Int16 | Int32 | Int64
| Uint | Uint8 | Uint16 | Uint32 | Uint64 | Uintptr
| Float32 | Float64 | Complex64 | Complex128
| String_ | UnsafePointer
| UntypedBool | UntypedInt | UntypedRune | UntypedFloat
| UntypedComplex | UntypedString | UntypedNil.

Definition Byte : BasicKind := Uint8.
Definition Rune : BasicKind := Int32.

Global Instance BasicKind_eq_dec : EqDecision BasicKind.
Proof. solve_decision. Defined.

(** The flags of types.BasicInfo. *)
Definition IsBoolean : Z := 1.
Definition IsInteger : Z := 2.
Definition IsUnsigned : Z := 4.
Definition IsFloat : Z := 8.
Definition IsComplex : Z := 16.
Definition IsString : Z := 32.
Definition IsUntyped : Z := 64.
Definition IsNumeric : Z := Z.lor IsInteger (Z.lor IsFloat IsComplex).

(** A predeclared type: types.Typ and the two aliases. *)
Record Basic_ := mkBasic { Kind : BasicKind; Info : Z; BasicName : string }.

Definition TInvalid := mkBasic Invalid 0 "invalid type".
Definition TBool := mkBasic Bool IsBoolean "bool".
Definition TInt := mkBasic Int IsInteger "int".
Definition TInt8 := mkBasic Int8 IsInteger "int8".
Definition TInt16 := mkBasic Int16 IsInteger "int16".
Definition TInt32 := mkBasic Int32 IsInteger "int32".
Definition TInt64 := mkBasic Int64 IsInteger "int64".
Definition TUint := mkBasic Uint (Z.lor IsInteger IsUnsigned) "uint".
Definition TUint8 := mkBasic Uint8 (Z.lor IsInteger IsUnsigned) "uint8".
Definition TUint16 := mkBasic Uint16 (Z.lor IsInteger IsUnsigned) "uint16".
Definition TUint32 := mkBasic Uint32 (Z.lor IsInteger IsUnsigned) "uint32".
Definition TUint64 := mkBasic Uint64 (Z.lor IsInteger IsUnsigned) "uint64".
Definition TUintptr := mkBasic Uintptr (Z.lor IsInteger IsUnsigned) "uintptr".
Definition TFloat32 := mkBasic Float32 IsFloat "float32".
Definition TFloat64 := mkBasic Float64 IsFloat "float64".
Definition TComplex64 := mkBasic Complex64 IsComplex "complex64".
Definition TComplex128 := mkBasic Complex128 IsComplex "complex128".
Definition TString := mkBasic String_ IsString "string".
Definition TUnsafePointer := mkBasic UnsafePointer 0 "unsafe.Pointer".
Definition TUntypedBool := mkBasic UntypedBool (Z.lor IsBoolean IsUntyped) "untyped bool".
Definition TUntypedInt := mkBasic UntypedInt (Z.lor IsInteger IsUntyped) "untyped int".
Definition TUntypedRune := mkBasic UntypedRune (Z.lor IsInteger IsUntyped) "untyped rune".
Definition TUntypedFloat := mkBasic UntypedFloat (Z.lor IsFloat IsUntyped) "untyped float".
Definition TUntypedComplex := mkBasic UntypedComplex (Z.lor IsComplex IsUntyped) "untyped complex".
Definition TUntypedString := mkBasic UntypedString (Z.lor IsString IsUntyped) "untyped string".
Definition TUntypedNil := mkBasic UntypedNil IsUntyped "untyped nil".
Definition TByte := mkBasic Byte (Z.lor IsInteger IsUnsigned) "byte".
Definition TRune := mkBasic Rune IsInteger "rune".

Definition predeclared : list Basic_ :=
  [ TInvalid; TBool; TInt; TInt8; TInt16; TInt32; TInt64;
    TUint; TUint8; TUint16; TUint32; TUint64; TUintptr;
    TFloat32; TFloat64; TComplex64; TComplex128; TString; TUnsafePointer;
    TUntypedBool; TUntypedInt; TUntypedRune; TUntypedFloat;
    TUntypedComplex; TUntypedString; TUntypedNil; TByte; TRune ].

(** A struct field (types.Var with its tag): name, type, parsed tag,
    embedded flag and the name of the package that declares it. *)
Record FieldOf (T : Type) := mkField {
  fieldName : string;
  fieldType : T;
  fieldTag : structtag.Tags;
  fieldEmbedded : bool;
  fieldPkgName : string
}.
Arguments mkField {T} _ _ _ _ _.
Arguments fieldName {T} _.
Arguments fieldType {T} _.
Arguments fieldTag {T} _.
Arguments fieldEmbedded {T} _.
Arguments fieldPkgName {T} _.

Inductive ChanDir := SendRecv | SendOnly | RecvOnly.

#[local] Set Warnings "-register-all".

(** types.Type. [Interface] carries its embedded types and the answer of
    Empty(); method signatures are not part of the model. A [Named] type
    carries the path of its package, its name and its underlying type.

    A value of [Type_] is a finite descriptor. The descriptors of
    go/types form a graph, in which a named type can reach itself
    through its underlying type; [typescriptTypeIn] below reads a
    descriptor in a table of declarations and covers that case. *)
Inductive Type_ :=
| Basic (bs : Basic_)
| Array (len : N) (elem : Type_)
| Slice (elem : Type_)
| Struct (fields : list (FieldOf Type_))
| Pointer (elem : Type_)
| Tuple (vars : list Type_)
| Signature (params results : list Type_)
| Union (terms : list (bool * Type_))
| Interface (embeddeds : list Type_) (empty : bool)
| Map (key elem : Type_)
| Chan (dir : ChanDir) (elem : Type_)
| Named (pkgPath name : string) (underlying : Type_)
| TypeParam (name : string) (constraint : Type_).

Definition Field := FieldOf Type_.

(** Type.Underlying: a named type gives its underlying type, a type
    parameter the underlying type of its constraint. For a type
    parameter go/types always answers with an interface, wrapping a
    constraint that is not one; the descriptor of a type parameter
    carries the constraint as written, so that the test of the mapper on
    it is kept as the code has it. *)
Definition Underlying (ty : Type_) : Type_ :=
  match ty with
  | Named _ _ u => u
  | TypeParam _ (Named _ _ u) => u
  | TypeParam _ c => c
  | _ => ty
  end.

Fixpoint decimalDigits (fuel : nat) (n : N) (acc : string) : string :=
  match fuel with
  | O => acc
  | S fuel' =>
      let d := String (ascii_of_N (48 + n mod 10)) acc in
      if (n <? 10)%N then d else decimalDigits fuel' (n / 10)%N d
  end.

Definition decimal (n : N) : string :=
  decimalDigits (S (N.to_nat (N.log2 n))) n EmptyString.

(** Type.String with the package path as qualifier. *)
Fixpoint typeString (ty : Type_) : string :=
  match ty with
  | Basic bs => BasicName bs
  | Array len elem => "[" +:+ decimal len +:+ "]" +:+ typeString elem
  | Slice elem => "[]" +:+ typeString elem
  | Struct fields =>
      "struct{" +:+
      join (map (fun f : FieldOf Type_ =>
              (if fieldEmbedded f then EmptyString else fieldName f +:+ " ")
              +:+ typeString (fieldType f)
              +:+ (match fieldTag f with
                   | [] => EmptyString
                   | tags => " " +:+ quote (structtag.String_ tags)
                   end)) fields) "; "
      +:+ "}"
  | Pointer elem => "*" +:+ typeString elem
  | Tuple vars => "(" +:+ join (map typeString vars) ", " +:+ ")"
  | Signature params results =>
      "func(" +:+ join (map typeString params) ", " +:+ ")" +:+
      match results with
      | [] => EmptyString
      | [r] => " " +:+ typeString r
      | rs => " (" +:+ join (map typeString rs) ", " +:+ ")"
      end
  | Union terms =>
      join (map (fun t : bool * Type_ =>
                   (if fst t then "~" else EmptyString)
                   +:+ typeString (snd t)) terms) " | "
  | Interface embeddeds _ =>
      "interface{" +:+ join (map typeString embeddeds) "; " +:+ "}"
  | Map key elem => "map[" +:+ typeString key +:+ "]" +:+ typeString elem
  | Chan dir elem =>
      match dir with
      | SendRecv =>
          match elem with
          | Chan RecvOnly _ => "chan (" +:+ typeString elem +:+ ")"
          | _ => "chan " +:+ typeString elem
          end
      | SendOnly => "chan<- " +:+ typeString elem
      | RecvOnly => "<-chan " +:+ typeString elem
      end
  | Named pkgPath name _ =>
      if String.eqb pkgPath EmptyString then name
      else pkgPath +:+ "." +:+ name
  | TypeParam name _ => name
  end.

(** An object of the package scope (types.Object): the file of its
    position, its type (nil for an object the checker left untyped), and
    for a constant the text of its value (constant.Value.String). *)
Inductive Object :=
| TypeName (file : string) (ty : option Type_)
| Var (file : string) (ty : option Type_)
| Const (file : string) (ty : option Type_) (val : string)
| Func (file : string) (ty : option Type_).

Definition objFile (o : Object) : string :=
  match o with
  | TypeName f _ | Var f _ | Const f _ _ | Func f _ => f
  end.

Definition objType (o : Object) : option Type_ :=
  match o with
  | TypeName _ t | Var _ t | Const _ t _ | Func _ t => t
  end.

(** packages.Package as the generator reads it: the package scope and,
    per file, per comment group, the text of each comment. *)
Record Package := mkPackage {
  Scope : gmap string Object;
  Syntax : list (list (list string))
}.

End GoTypes.

Import GoTypes.

(** ** sort.Strings

    Go compares strings byte by byte; the sorted permutation of a list is
    unique for a total order, so merge sort stands for sort.Strings. *)

Definition string_le (a b : string) : Prop := String.leb a b = true.
Definition string_lt (a b : string) : Prop := String.ltb a b = true.

Global Instance string_le_dec : RelDecision string_le.
Proof. intros a b. unfold string_le. apply _. Defined.

Definition sortStrings (l : list string) : list string := merge_sort string_le l.

(** ** The generator

    A Generator holds the package it scans and a logger; the functions
    of the generator take the package. *)

Definition baseDir : string := "./codersdk".
Definition indent : string := "  ".

Definition indentedComment (comment : string) : string :=
  indent +:+ "// " +:+ comment.

Record TypescriptType := mkTypescriptType {
  GenericMapping : string;
  ValueType : string;
  AboveTypeLine : string;
  Optional : bool
}.

Definition tsValue (v : string) : TypescriptType :=
  mkTypescriptType EmptyString v EmptyString false.

Definition nonEmpty (s : string) : bool := negb (String.eqb s EmptyString).

(** Scope().Lookup(name) != nil *)
Definition declared (g : Package) (name : string) : bool :=
  match Scope g !! name with Some _ => true | None => false end.

Definition externalNamed (s : string) : option TypescriptType :=
  if String.eqb s "net/url.URL" then Some (tsValue "string")
  else if String.eqb s "time.Time" then Some (tsValue "string")
  else if String.eqb s "database/sql.NullTime"
  then Some (mkTypescriptType EmptyString "string" EmptyString true)
  else if String.eqb s "github.com/coder/coder/codersdk.NullTime"
  then Some (mkTypescriptType EmptyString "string" EmptyString true)
  else if String.eqb s "github.com/google/uuid.NullUUID"
  then Some (mkTypescriptType EmptyString "string" EmptyString true)
  else if String.eqb s "github.com/google/uuid.UUID" then Some (tsValue "string")
  else None.

(** typescriptType returns a typescript type for a given golang type. *)
Fixpoint typescriptType (g : Package) (ty : Type_) : result TypescriptType :=
  match ty with
  | Basic bs =>
      if (0 <? Z.land (Info bs) IsNumeric)%Z then Ok (tsValue "number")
      else if (0 <? Z.land (Info bs) IsBoolean)%Z then Ok (tsValue "boolean")
      else if bool_decide (Kind bs = Byte)
      then Ok (mkTypescriptType EmptyString "number"
                 (indentedComment "This is a byte in golang") false)
      else Ok (tsValue (BasicName bs))
  | Struct _ =>
      Ok (mkTypescriptType EmptyString "any"
            (indentedComment "Embedded anonymous struct, please fix by naming it"
             +:+ nl +:+
             indentedComment "eslint-disable-next-line @typescript-eslint/no-explicit-any")
            false)
  | Map key elem =>
      keyType ← wrapErr "map key" (typescriptType g key);
      valueType ← wrapErr "map key" (typescriptType g elem);
      let aboveTypeLine := AboveTypeLine keyType in
      let aboveTypeLine :=
        if nonEmpty aboveTypeLine && nonEmpty (AboveTypeLine valueType)
        then aboveTypeLine +:+ nl else aboveTypeLine in
      let aboveTypeLine := aboveTypeLine +:+ AboveTypeLine valueType in
      Ok (mkTypescriptType EmptyString
            ("Record<" +:+ ValueType keyType +:+ ", " +:+ ValueType valueType +:+ ">")
            aboveTypeLine false)
  | Slice elem | Array _ elem =>
      if String.eqb (typeString elem) "byte" then Ok (tsValue "string")
      else
        underlying ← wrapErr "array" (typescriptType g elem);
        Ok (mkTypescriptType EmptyString (ValueType underlying +:+ "[]")
              (AboveTypeLine underlying) false)
  | Named _ name under =>
      match externalNamed (typeString ty) with
      | Some ts => Ok ts
      | None =>
          if declared g name then Ok (tsValue name)
          else
            match under with
            | Struct _ =>
                Ok (mkTypescriptType EmptyString "any"
                      (indentedComment ("Named type " +:+ quote (typeString ty)
                                        +:+ " unknown, using " +:+ dq +:+ "any" +:+ dq)
                       +:+ nl +:+
                       indentedComment "eslint-disable-next-line @typescript-eslint/no-explicit-any")
                      false)
            | _ =>
                ts ← wrapErr "named underlying" (typescriptType g under);
                Ok (mkTypescriptType (GenericMapping ts) (ValueType ts)
                      (indentedComment
                         ("This is likely an enum in an external package ("
                          +:+ quote (typeString ty) +:+ ")"))
                      (Optional ts))
            end
      end
  | Pointer elem =>
      resp ← wrapErr "pointer" (typescriptType g elem);
      Ok (mkTypescriptType (GenericMapping resp) (ValueType resp)
            (AboveTypeLine resp) true)
  | Interface _ empty =>
      if empty
      then Ok (mkTypescriptType EmptyString "any"
                 (indentedComment "eslint-disable-next-line") false)
      else Err "only empty interface types are supported"
  | TypeParam name generic =>
      match Underlying ty with
      | Interface _ _ =>
          Ok (mkTypescriptType name
                (trimPrefix (typeString generic) "github.com/coder/coder/codersdk.")
                EmptyString false)
      | _ => Err "type param must be an interface"
      end
  | _ => Err ("unknown type: " +:+ typeString ty)
  end.

Definition emptyPkg : Package := mkPackage ∅ [].

(** posLine: the position marker of an object, from the base name of the
    file that declares it. The code resolves the position of the object
    in the file set of the package; an object here carries the name of
    the file that the file set gives for its position. *)
Definition posLine (obj : Object) : string :=
  "// From " +:+ filepathJoin "codersdk" (filepathBase (objFile obj)) +:+ nl.

(** The loop of buildUnion over the terms of the union. *)
Fixpoint unionTerms (g : Package) (context : string) (terms : list (bool * Type_))
    (allTypes : list string) (optional : bool) : result (list string * bool) :=
  match terms with
  | [] => Ok (allTypes, optional)
  | term :: rest =>
      scriptType ← wrapErr context (typescriptType g (snd term));
      unionTerms g context rest (allTypes ++ [ValueType scriptType])
                 (optional || Optional scriptType)
  end.

(** buildUnion prints the typescript alias of a constraint interface. *)
Definition buildUnion (g : Package) (name : string) (obj : Object)
    (st : list (bool * Type_)) : result string :=
  '(allTypes, optional) ←
    unionTerms g ("union " +:+ quote (typeString (Union st)) +:+ " for "
                  +:+ quote name +:+ " failed to get type") st [] false;
  let qMark := if optional : bool then "?" else EmptyString in
  Ok (posLine obj +:+ "export type " +:+ name +:+ qMark +:+ " = "
      +:+ join allTypes " | " +:+ nl).

Record structTemplateState := mkState {
  PosLine : string;
  Name : string;
  Fields : list string;
  Generics : list string;
  Extends : string;
  AboveLine : string
}.

(** structTemplate executed on a state: the position line, the line above
    when there is one, the interface header with its generic parameters
    and its extends clause, the field lines, the closing brace. *)
Definition structTemplate (state : structTemplateState) : string :=
  PosLine state
  +:+ (if nonEmpty (AboveLine state) then AboveLine state +:+ nl else EmptyString)
  +:+ "export interface " +:+ Name state
  +:+ (match Generics state with
       | [] => EmptyString
       | gs => "<" +:+ join gs ", " +:+ ">"
       end)
  +:+ (if nonEmpty (Extends state) then " extends " +:+ Extends state else EmptyString)
  +:+ " {" +:+ nl
  +:+ join (Fields state) nl +:+ nl
  +:+ "}" +:+ nl.

(** The first loop of buildStruct: the embedded fields without json tag
    that the codersdk package declares, by index, and their names. *)
Definition isExtended (field : Field) : bool :=
  fieldEmbedded field
  && String.eqb (reflectGet (fieldTag field) "json") EmptyString
  && String.eqb (fieldPkgName field) "codersdk".

Fixpoint extendsLoop (i : nat) (fields : list Field)
    (extends : list string) (extendedFields : gmap nat bool)
  : list string * gmap nat bool :=
  match fields with
  | [] => (extends, extendedFields)
  | field :: rest =>
      if isExtended field
      then extendsLoop (S i) rest (extends ++ [fieldName field])
                       (<[i := true]> extendedFields)
      else extendsLoop (S i) rest extends extendedFields
  end.

(** What the second loop carries from field to field. *)
Record fieldsState := mkFieldsState {
  fsFields : list string;
  fsGenerics : list string;
  fsAboveLine : string;
  genericsUsed : gmap string string
}.

Definition firstOptionIs (options : list string) (opt : string) : bool :=
  match options with
  | o :: _ => String.eqb o opt
  | [] => false
  end.

(** The json directive of a field: [None] when the tag names the field -,
    else the json name (empty when there is no tag) and whether the first
    option is omitempty. *)
Definition jsonDirective (tags : structtag.Tags) : option (string * bool) :=
  match structtag.Get tags "json" with
  | Some jsonTag =>
      if String.eqb (structtag.Name jsonTag) "-" then None
      else Some (structtag.Name jsonTag,
                 firstOptionIs (structtag.Options jsonTag) "omitempty")
  | None => Some (EmptyString, false)
  end.

(** The typescript directive of a field applied to the inferred type:
    [None] when the tag names the field -, else the type to print. *)
Definition typescriptDirective (tags : structtag.Tags) (tsType : TypescriptType)
  : option TypescriptType :=
  match structtag.Get tags "typescript" with
  | Some typescriptTag =>
      if String.eqb (structtag.Name typescriptTag) "-" then None
      else
        let tsType :=
          if nonEmpty (structtag.Name typescriptTag)
          then mkTypescriptType EmptyString (structtag.Name typescriptTag)
                                EmptyString false
          else tsType in
        if firstOptionIs (structtag.Options typescriptTag) "notnull"
        then Some (mkTypescriptType (GenericMapping tsType) (ValueType tsType)
                                    (AboveTypeLine tsType) false)
        else Some tsType
  | None => Some tsType
  end.

(** The body of the second loop for a field that is not extended. *)
Definition fieldStep (g : Package) (field : Field) (st : fieldsState)
  : result fieldsState :=
  match jsonDirective (fieldTag field) with
  | None => Ok st
  | Some (jsonName, jsonOptional) =>
      let jsonName := if nonEmpty jsonName then jsonName else fieldName field in
      tsType ← wrapErr "typescript type" (typescriptType g (fieldType field));
      match typescriptDirective (fieldTag field) tsType with
      | None => Ok st
      | Some tsType =>
          let aboveLine :=
            if nonEmpty (AboveTypeLine tsType) then AboveTypeLine tsType
            else fsAboveLine st in
          let optional :=
            if jsonOptional || Optional tsType then "?" else EmptyString in
          let valueType :=
            if nonEmpty (GenericMapping tsType) then GenericMapping tsType
            else ValueType tsType in
          let generics :=
            if nonEmpty (GenericMapping tsType)
            then match genericsUsed st !! GenericMapping tsType with
                 | Some _ => fsGenerics st
                 | None => fsGenerics st ++
                             [GenericMapping tsType +:+ " extends " +:+ ValueType tsType]
                 end
            else fsGenerics st in
          let used :=
            if nonEmpty (GenericMapping tsType)
            then <[GenericMapping tsType := ValueType tsType]> (genericsUsed st)
            else genericsUsed st in
          Ok (mkFieldsState
                (fsFields st ++ [indent +:+ "readonly " +:+ jsonName +:+ optional
                                 +:+ ": " +:+ valueType])
                generics aboveLine used)
      end
  end.

Fixpoint fieldsLoop (g : Package) (i : nat) (fields : list Field)
    (extendedFields : gmap nat bool) (st : fieldsState) : result fieldsState :=
  match fields with
  | [] => Ok st
  | field :: rest =>
      if default false (extendedFields !! i)
      then fieldsLoop g (S i) rest extendedFields st
      else
        st' ← fieldStep g field st;
        fieldsLoop g (S i) rest extendedFields st'
  end.

(** The state that buildStruct hands to its template. A tag that the
    struct-tag parser rejects makes buildStruct panic; fields here carry
    parsed tags, so that path does not arise. *)
Definition buildStructState (g : Package) (name : string) (obj : Object)
    (st : list Field) : result structTemplateState :=
  let '(extends, extendedFields) := extendsLoop 0 st [] ∅ in
  let extendsText :=
    match extends with [] => EmptyString | _ => join extends ", " end in
  fs ← fieldsLoop g 0 st extendedFields (mkFieldsState [] [] EmptyString ∅);
  Ok (mkState (posLine obj) name (fsFields fs) (fsGenerics fs)
              extendsText (fsAboveLine fs)).

(** buildStruct prints the typescript def for a type. *)
Definition buildStruct (g : Package) (name : string) (obj : Object)
    (st : list Field) : result string :=
  state ← buildStructState g name obj st;
  Ok (structTemplate state).

(** TypescriptTypes holds all the code blocks created. *)
Module TypescriptTypes.

Record t := mk {
  Types : gmap string string;
  Enums : gmap string string;
  Generics : gmap string string
}.

Definition banner : string :=
  "// Code generated by 'make coder/scripts/apitypings/main.go'. DO NOT EDIT."
  +:+ nl +:+ nl.

(** The keys of a bucket as sort.Strings leaves them. *)
Definition sortedKeys (m : gmap string string) : list string :=
  sortStrings (map fst (map_to_list m)).

(** The blocks of a bucket written in the order of the keys, each
    followed by a newline. *)
Fixpoint writeBlocks (m : gmap string string) (keys : list string) : string :=
  match keys with
  | [] => EmptyString
  | k :: rest => default EmptyString (m !! k) +:+ nl +:+ writeBlocks m rest
  end.

(** String just combines all the codeblocks. *)
Definition String (c : t) : string :=
  trimRight isNewline
    (banner
     +:+ writeBlocks (Types c) (sortedKeys (Types c))
     +:+ writeBlocks (Enums c) (sortedKeys (Enums c))
     +:+ writeBlocks (Generics c) (sortedKeys (Generics c))).

End TypescriptTypes.

(** The text that the ignore expression captures in a comment: what
    follows the first @typescript-ignore and an optional colon, up to the
    end of the line; [None] when the comment has no such directive. *)
Fixpoint upToNewline (s : string) : string :=
  match s with
  | EmptyString => EmptyString
  | String c rest => if isNewline c then EmptyString else String c (upToNewline rest)
  end.

Definition afterColon (s : string) : string :=
  match s with
  | String c rest => if Ascii.eqb c ":"%char then rest else s
  | EmptyString => s
  end.

Definition directive : string := "@typescript-ignore".

Fixpoint findIgnored (text : string) : option string :=
  if String.prefix directive text
  then Some (upToNewline (afterColon
               (String.substring (String.length directive)
                  (String.length text - String.length directive) text)))
  else match text with
       | EmptyString => None
       | String _ rest => findIgnored rest
       end.

(** The identifiers that one comment adds to the ignore set. *)
Definition ignoredInLine (text : string) : list string :=
  match findIgnored text with
  | Some captured =>
      if nonEmpty captured then map trimSpace (split ","%char captured) else []
  | None => []
  end.

(** The comments of a package: every comment of every group of every
    file. *)
Definition comments (g : Package) : list string := concat (concat (Syntax g)).

(** The ignore set of a package: every comment is scanned. *)
Definition ignoredTypes (g : Package) : gset string :=
  list_to_set (concat (map ignoredInLine (comments g))).

(** What generateAll collects while it walks the scope. *)
Record collected := mkCollected {
  structs : gmap string string;
  generics : gmap string string;
  enums : gmap string Object;
  enumConsts : gmap string (list Object)
}.

Definition constVal (obj : Object) : string :=
  match obj with
  | Const _ _ val => val
  | _ => EmptyString
  end.

(** The body of the loop of generateAll for the object bound to [n]. An
    object of a package scope is a type name, a variable, a constant or
    a function, so the default case of the switch on the object does not
    arise. *)
Definition classify (g : Package) (ignored : gset string) (n : string)
    (acc : collected) : result collected :=
  match Scope g !! n with
  | None => Ok acc
  | Some obj =>
      match objType obj with
      | None => Ok acc
      | Some ty =>
          if bool_decide (n ∈ ignored) then Ok acc
          else
            match obj with
            | TypeName _ _ =>
                match ty with
                | Named _ _ underNamed =>
                    match underNamed with
                    | Struct fields =>
                        codeBlock ← wrapErr ("generate " +:+ quote n)
                                            (buildStruct g n obj fields);
                        Ok (mkCollected (<[n := codeBlock]> (structs acc))
                              (generics acc) (enums acc) (enumConsts acc))
                    | Basic _ =>
                        Ok (mkCollected (structs acc) (generics acc)
                              (<[n := obj]> (enums acc)) (enumConsts acc))
                    | Map _ _ =>
                        ts ← wrapErr ("(map) generate " +:+ quote n)
                                     (typescriptType g underNamed);
                        let str :=
                          posLine obj
                          +:+ (if nonEmpty (AboveTypeLine ts)
                               then AboveTypeLine ts +:+ nl else EmptyString)
                          +:+ "export type " +:+ n +:+ " = " +:+ ValueType ts +:+ nl in
                        Ok (mkCollected (<[n := str]> (structs acc))
                              (generics acc) (enums acc) (enumConsts acc))
                    | Array _ _ | Slice _ => Ok acc
                    | Interface embeddeds _ =>
                        match embeddeds with
                        | [embedded] =>
                            let union :=
                              match embedded with
                              | Union terms => terms
                              | _ => [(true, embedded)]
                              end in
                            block ← wrapErr ("generate union " +:+ quote n)
                                            (buildUnion g n obj union);
                            Ok (mkCollected (structs acc)
                                  (<[n := block]> (generics acc))
                                  (enums acc) (enumConsts acc))
                        | _ => Ok acc
                        end
                    | Signature _ _ => Ok acc
                    | _ =>
                        Err ("unsupported named type " +:+ quote (typeString underNamed))
                    end
                | _ => Panic "all typename should be named types"
                end
            | Var _ _ => Ok acc
            | Const _ _ _ =>
                match ty with
                | Named _ name _ =>
                    Ok (mkCollected (structs acc) (generics acc) (enums acc)
                          (<[name := default [] (enumConsts acc !! name) ++ [obj]]>
                             (enumConsts acc)))
                | _ => Ok acc
                end
            | Func _ _ => Ok acc
            end
      end
  end.

Fixpoint classifyAll (g : Package) (ignored : gset string) (names : list string)
    (acc : collected) : result collected :=
  match names with
  | [] => Ok acc
  | n :: rest =>
      acc' ← classify g ignored n acc;
      classifyAll g ignored rest acc'
  end.

(** Scope().Names(): the names of the scope in sorted order. *)
Definition scopeNames (g : Package) : list string :=
  sortStrings (map fst (map_to_list (Scope g))).

(** The block of one enum: the values of its constants, sorted, joined
    as a union of literals. *)
Definition enumBlock (name : string) (v : Object) (consts : list Object) : string :=
  let values := sortStrings (map constVal consts) in
  posLine v +:+ "export type " +:+ name +:+ " = " +:+ join values " | " +:+ nl.

(** generateAll will generate for all types found in the pkg. *)
Definition generateAll (g : Package) : result TypescriptTypes.t :=
  acc ← classifyAll g (ignoredTypes g) (scopeNames g) (mkCollected ∅ ∅ ∅ ∅);
  let enumCodeBlocks :=
    map_imap (fun name v =>
                Some (enumBlock name v (default [] (enumConsts acc !! name))))
             (enums acc) in
  Ok (TypescriptTypes.mk (structs acc) enumCodeBlocks (generics acc)).

(** parsePackage on what packages.Load returned: exactly one package is
    expected. *)
Definition parsePackage (loaded : result (list Package)) : result Package :=
  pkgs ← wrapErr "load package" loaded;
  match pkgs with
  | [p] => Ok p
  | _ => Err ("expected 1 package, found " +:+ decimal (N.of_nat (length pkgs)))
  end.

(** GenerateFromDirectory will return all the typescript code blocks for a
    directory. *)
Definition GenerateFromDirectory (directory : string)
    (loaded : result (list Package)) : result TypescriptTypes.t :=
  g ← wrapErr ("parse package " +:+ quote directory) (parsePackage loaded);
  wrapErr ("parse package " +:+ quote directory) (generateAll g).

(** main: the document written to standard output, or nothing when the
    generation failed and the process exits through log.Fatal. *)
Definition main (loaded : result (list Package)) : option string :=
  match GenerateFromDirectory baseDir loaded with
  | Ok codeBlocks => Some (TypescriptTypes.String codeBlocks +:+ nl)
  | _ => None
  end.

(** ** Descriptors in a table of declarations

    The descriptors of go/types form a graph: the underlying type of a
    named type can name the type again (type Tree map[string]Tree). A
    descriptor of the graph is given here by a finite descriptor and a
    table of declarations, from the qualified name of a named type to its
    underlying type: for a name that the table binds, Underlying() is the
    bound descriptor, and the one that the [Named] node carries is not
    read. *)

Definition underlyingIn (decls : gmap string Type_) (ty : Type_) : Type_ :=
  match ty with
  | Named _ _ u => default u (decls !! typeString ty)
  | _ => Underlying ty
  end.

(** A recursive call of the mapper followed by the test of its error:
    [None] stands for a call that has not returned. *)
Definition andThen {A B : Type} (r : option (result A)) (label : string)
    (k : A → option (result B)) : option (result B) :=
  match r with
  | None => None
  | Some (Ok a) => k a
  | Some (Err msg) => Some (Err (label +:+ ": " +:+ msg))
  | Some (Panic msg) => Some (Panic msg)
  end.

(** typescriptType on a descriptor read in a table of declarations. The
    recursion of the Go function has no bound of its own; [depth] bounds
    the nesting of the calls, and the answer is [None] when a call would
    nest deeper. The cases that make no recursive call are those of
    [typescriptType]. *)
Fixpoint typescriptTypeIn (decls : gmap string Type_) (depth : nat) (g : Package)
    (ty : Type_) : option (result TypescriptType) :=
  match depth with
  | O => None
  | S depth =>
      match ty with
      | Map key elem =>
          andThen (typescriptTypeIn decls depth g key) "map key" (fun keyType =>
          andThen (typescriptTypeIn decls depth g elem) "map key" (fun valueType =>
            let aboveTypeLine := AboveTypeLine keyType in
            let aboveTypeLine :=
              if nonEmpty aboveTypeLine && nonEmpty (AboveTypeLine valueType)
              then aboveTypeLine +:+ nl else aboveTypeLine in
            let aboveTypeLine := aboveTypeLine +:+ AboveTypeLine valueType in
            Some (Ok (mkTypescriptType EmptyString
                        ("Record<" +:+ ValueType keyType +:+ ", "
                         +:+ ValueType valueType +:+ ">")
                        aboveTypeLine false))))
      | Slice elem | Array _ elem =>
          if String.eqb (typeString elem) "byte" then Some (Ok (tsValue "string"))
          else
            andThen (typescriptTypeIn decls depth g elem) "array" (fun underlying =>
              Some (Ok (mkTypescriptType EmptyString (ValueType underlying +:+ "[]")
                          (AboveTypeLine underlying) false)))
      | Named _ name _ =>
          match externalNamed (typeString ty) with
          | Some ts => Some (Ok ts)
          | None =>
              if declared g name then Some (Ok (tsValue name))
              else
                match underlyingIn decls ty with
                | Struct _ =>
                    Some (Ok (mkTypescriptType EmptyString "any"
                                (indentedComment
                                   ("Named type " +:+ quote (typeString ty)
                                    +:+ " unknown, using " +:+ dq +:+ "any" +:+ dq)
                                 +:+ nl +:+
                                 indentedComment
                                   "eslint-disable-next-line @typescript-eslint/no-explicit-any")
                                false))
                | under =>
                    andThen (typescriptTypeIn decls depth g under) "named underlying"
                      (fun ts =>
                         Some (Ok (mkTypescriptType (GenericMapping ts) (ValueType ts)
                                     (indentedComment
                                        ("This is likely an enum in an external package ("
                                         +:+ quote (typeString ty) +:+ ")"))
                                     (Optional ts))))
                end
          end
      | Pointer elem =>
          andThen (typescriptTypeIn decls depth g elem) "pointer" (fun resp =>
            Some (Ok (mkTypescriptType (GenericMapping resp) (ValueType resp)
                        (AboveTypeLine resp) true)))
      | _ => Some (typescriptType g ty)
      end
  end.

(** ** Notions of the specification *)

(** The line of a field and the type it is printed from, as the struct
    renderer is specified: a field that a tag omits has no line; the name
    is the json name or else the identifier; the field is optional when
    the json tag says omitempty or the printed type is optional; an
    override replaces the mapped type and may force it non-optional. *)
Definition fieldLine (g : Package) (field : Field)
  : result (option (string * TypescriptType)) :=
  match jsonDirective (fieldTag field) with
  | None => Ok None
  | Some (jsonName, jsonOptional) =>
      tsType ← wrapErr "typescript type" (typescriptType g (fieldType field));
      match typescriptDirective (fieldTag field) tsType with
      | None => Ok None
      | Some tsType =>
          Ok (Some (indent +:+ "readonly "
                    +:+ (if nonEmpty jsonName then jsonName else fieldName field)
                    +:+ (if jsonOptional || Optional tsType then "?" else EmptyString)
                    +:+ ": "
                    +:+ (if nonEmpty (GenericMapping tsType)
                         then GenericMapping tsType else ValueType tsType),
                    tsType))
      end
  end.

Definition keptLine (g : Package) (field : Field) : option (string * TypescriptType) :=
  match fieldLine g field with
  | Ok r => r
  | _ => None
  end.

(** The annotation of the last type that has one, or else [above]. *)
Definition annotate (above : string) (tss : list TypescriptType) : string :=
  fold_left (fun above ts =>
               if nonEmpty (AboveTypeLine ts) then AboveTypeLine ts else above)
            tss above.

Definition lastAnnotation (tss : list TypescriptType) : string :=
  annotate EmptyString tss.

(** A field that the first loop of the renderer does not extend. *)
Definition notExtended (f : Field) : Prop := isExtended f = false.

(** A field that a tag takes out of the block: json or typescript name -. *)
Definition omitted (field : Field) : bool :=
  match structtag.Get (fieldTag field) "json" with
  | Some t => String.eqb (structtag.Name t) "-"
  | None => false
  end
  || match structtag.Get (fieldTag field) "typescript" with
     | Some t => String.eqb (structtag.Name t) "-"
     | None => false
     end.

(** The json tag of the field lists the option omitempty. *)
Definition omitEmpty (field : Field) : Prop :=
  ∃ t, structtag.Get (fieldTag field) "json" = Some t
       ∧ "omitempty" ∈ structtag.Options t.

Definition isPointer (ty : Type_) : bool :=
  match ty with Pointer _ => true | _ => false end.

(** The type mapper, applied to the first type, maps the second as a
    constituent. *)
Inductive constituent (g : Package) : Type_ → Type_ → Prop :=
| constituent_map_key k v : constituent g (Map k v) k
| constituent_map_elem k v : constituent g (Map k v) v
| constituent_slice e : typeString e ≠ "byte" → constituent g (Slice e) e
| constituent_array n e : typeString e ≠ "byte" → constituent g (Array n e) e
| constituent_pointer e : constituent g (Pointer e) e
| constituent_named p n u :
    externalNamed (typeString (Named p n u)) = None →
    declared g n = false →
    (∀ fields, u ≠ Struct fields) →
    constituent g (Named p n u) u.

(** The descriptors that the type mapper has no mapping for. *)
Inductive unmapped : Type_ → Prop :=
| unmapped_interface embeddeds : unmapped (Interface embeddeds false)
| unmapped_param name c :
    (∀ embeddeds empty, Underlying (TypeParam name c) ≠ Interface embeddeds empty) →
    unmapped (TypeParam name c)
| unmapped_tuple vars : unmapped (Tuple vars)
| unmapped_signature params results : unmapped (Signature params results)
| unmapped_union terms : unmapped (Union terms)
| unmapped_chan dir e : unmapped (Chan dir e).

(** The two annotations of a map joined: a newline between them when
    neither is empty. *)
Definition joinAnnotations (a b : string) : string :=
  if nonEmpty a && nonEmpty b then a +:+ nl +:+ b else a +:+ b.

(** The constant bound to [n], when it is a member of the enum [name]:
    a constant typed with a named type of that name that the ignore set
    does not list. *)
Definition member (g : Package) (ignored : gset string) (name n : string)
  : list Object :=
  match Scope g !! n with
  | Some (Const f (Some (Named p name' u)) val) =>
      if bool_decide ((n ∉ ignored) ∧ name' = name)
      then [Const f (Some (Named p name' u)) val] else []
  | _ => []
  end.

(** The members of an enum in the order of the scope, and the text of
    their values. *)
Definition enumMembers (g : Package) (name : string) : list Object :=
  concat (member g (ignoredTypes g) name <$> scopeNames g).

Definition enumValues (g : Package) (name : string) : list string :=
  constVal <$> enumMembers g name.

(** Two collections agree on what they hold for an identifier. *)
Definition sameAt (k : string) (a b : collected) : Prop :=
  structs a !! k = structs b !! k ∧
  generics a !! k = generics b !! k ∧
  enums a !! k = enums b !! k.

(** The name a field is printed under: the name of its json tag, or else
    its identifier. *)
Definition printedName (field : Field) : string :=
  match structtag.Get (fieldTag field) "json" with
  | Some t => if nonEmpty (structtag.Name t) then structtag.Name t else fieldName field
  | None => fieldName field
  end.

(** The expression a mapped type is printed as: its generic symbol when
    it has one, else its value type. *)
Definition printedType (ts : TypescriptType) : string :=
  if nonEmpty (GenericMapping ts) then GenericMapping ts else ValueType ts.

(** The collections before the walk. *)
Definition nothing : collected := mkCollected ∅ ∅ ∅ ∅.

(** The identifiers that a directive lists: the pieces between the commas
    of what follows the directive and an optional colon on its line,
    without the white space around them. *)
Definition listed (rest : string) : list string :=
  trimSpace <$> split ","%char (upToNewline (afterColon rest)).

(** A comment has a directive that lists the identifier. *)
Definition listedIn (text id : string) : Prop :=
  ∃ pre rest, text = pre +:+ directive +:+ rest ∧ id ∈ listed rest.

(** No directive starts inside [pre] when [pre] is followed by [after]. *)
Definition noDirective (pre after : string) : Prop :=
  ∀ p s, pre = p +:+ s → s ≠ EmptyString →
         String.prefix directive (s +:+ after) = false.

(** The same, as a test. *)
Fixpoint noDirectiveb (pre after : string) : bool :=
  match pre with
  | EmptyString => true
  | String _ pre' =>
      negb (String.prefix directive (pre +:+ after)) && noDirectiveb pre' after
  end.

(** The first directive of a comment lists the identifier. *)
Definition listedFirstIn (text id : string) : Prop :=
  ∃ pre rest, text = pre +:+ directive +:+ rest ∧
              noDirective pre (directive +:+ rest) ∧
              id ∈ listed rest.

(** The annotated ones among mapped types. *)
Definition annotated (tss : list TypescriptType) : list TypescriptType :=
  filter (λ ts, AboveTypeLine ts ≠ EmptyString) tss.

(** The lines and the types of the fields of a record that are printed:
    the fields that are not extended and that no tag omits. *)
Definition printed (g : Package) (fields : list Field)
  : list (string * TypescriptType) :=
  omap (keptLine g) (filter notExtended fields).

(** ** Notions of the specification: unfoldings, field lines, documents *)

(** The descriptors at which the type mapper makes no recursive call. *)
Inductive leaf : Type_ → Prop :=
| leaf_basic bs : leaf (Basic bs)
| leaf_struct fields : leaf (Struct fields)
| leaf_tuple vars : leaf (Tuple vars)
| leaf_signature params results : leaf (Signature params results)
| leaf_union terms : leaf (Union terms)
| leaf_interface embeddeds empty : leaf (Interface embeddeds empty)
| leaf_chan dir e : leaf (Chan dir e)
| leaf_param name c : leaf (TypeParam name c).

(** A descriptor read in a table of declarations unfolds to a finite
    descriptor: along the constituents that the type mapper maps, every
    named type is given the unfolding of the underlying type that the
    table has for it. A named type of the allowlist or one that the
    package declares is left as it is, and so is a sequence of bytes. A
    named type that reaches itself through such constituents has no
    unfolding. *)
Inductive unfolds (decls : gmap string Type_) (g : Package) : Type_ → Type_ → Prop :=
| unfolds_leaf ty : leaf ty → unfolds decls g ty ty
| unfolds_map k v k' v' :
    unfolds decls g k k' → unfolds decls g v v' →
    unfolds decls g (Map k v) (Map k' v')
| unfolds_bytes e : typeString e = "byte" → unfolds decls g (Slice e) (Slice e)
| unfolds_byte_array n e :
    typeString e = "byte" → unfolds decls g (Array n e) (Array n e)
| unfolds_slice e e' : unfolds decls g e e' → unfolds decls g (Slice e) (Slice e')
| unfolds_array n e e' :
    unfolds decls g e e' → unfolds decls g (Array n e) (Array n e')
| unfolds_pointer e e' :
    unfolds decls g e e' → unfolds decls g (Pointer e) (Pointer e')
| unfolds_known p n u :
    is_Some (externalNamed (typeString (Named p n u))) ∨ declared g n = true →
    unfolds decls g (Named p n u) (Named p n u)
| unfolds_named p n u u' :
    unfolds decls g (underlyingIn decls (Named p n u)) u' →
    unfolds decls g (Named p n u) (Named p n u').

(** The type that the typescript tag of a field names, when it names
    one. *)
Definition namedOverride (field : Field) : option string :=
  match structtag.Get (fieldTag field) "typescript" with
  | Some t => if nonEmpty (structtag.Name t) then Some (structtag.Name t) else None
  | None => None
  end.

(** The typescript tag of a field lists notnull as its first option. *)
Definition notNull (field : Field) : bool :=
  match structtag.Get (fieldTag field) "typescript" with
  | Some t => firstOptionIs (structtag.Options t) "notnull"
  | None => false
  end.

(** The json tag of a field lists omitempty as its first option. *)
Definition omitEmptyFirst (field : Field) : bool :=
  match structtag.Get (fieldTag field) "json" with
  | Some t => firstOptionIs (structtag.Options t) "omitempty"
  | None => false
  end.

(** The type expression that a field is printed with, and whether that
    type counts as optional, [ts] being the mapped type of the field: a
    type named in the typescript tag replaces the mapped type and is not
    optional; notnull makes the mapped type not optional. *)
Definition shownType (field : Field) (ts : TypescriptType) : string :=
  match namedOverride field with
  | Some name => name
  | None => printedType ts
  end.

Definition typeOptional (field : Field) (ts : TypescriptType) : bool :=
  match namedOverride field with
  | Some _ => false
  | None => if notNull field then false else Optional ts
  end.

(** The line of a field as the struct renderer is specified: none for a
    field that a tag omits; else the name, the question mark of an
    optional field, and the type. *)
Definition lineOf (g : Package) (field : Field) : option string :=
  if omitted field then None
  else
    match typescriptType g (fieldType field) with
    | Ok ts =>
        Some (indent +:+ "readonly " +:+ printedName field
              +:+ (if omitEmptyFirst field || typeOptional field ts
                   then "?" else EmptyString)
              +:+ ": " +:+ shownType field ts)
    | _ => None
    end.

(** The json tag of a field is absent or empty. *)
Definition untagged (field : Field) : bool :=
  match structtag.Get (fieldTag field) "json" with
  | None => true
  | Some t =>
      String.eqb (structtag.Name t) EmptyString
      && match structtag.Options t with [] => true | _ => false end
  end.

(** An embedded field without json tag. *)
Definition embeddedUntagged (field : Field) : Prop :=
  fieldEmbedded field = true ∧ untagged field = true.

Global Instance embeddedUntagged_dec (field : Field) :
  Decision (embeddedUntagged field).
Proof. unfold embeddedUntagged. apply _. Defined.

(** The name of the named type of a field. *)
Definition referencedName (field : Field) : string :=
  match fieldType field with
  | Named _ n _ => n
  | _ => EmptyString
  end.

(** The field references a record of the package: its type is a named
    record type, the type of a type name that the scope of the package
    binds, and the field, being embedded, has the name of that type. *)
Definition referencesRecord (g : Package) (field : Field) : Prop :=
  ∃ file p n fields,
    fieldType field = Named p n (Struct fields) ∧
    Scope g !! n = Some (TypeName file (Some (fieldType field))) ∧
    fieldName field = n.


(** ** Further notions *)

(** The named types of the allowlist that map to an optional string,
    and those that map to a plain string. *)
Definition nullableNames : list string :=
  [ "database/sql.NullTime";
    "github.com/coder/coder/codersdk.NullTime";
    "github.com/google/uuid.NullUUID" ].

Definition plainNames : list string :=
  [ "net/url.URL"; "time.Time"; "github.com/google/uuid.UUID" ].

(** The descriptors that map to an optional type: a pointer, one of the
    three nullable types of the allowlist, and a named type, neither of
    the allowlist nor declared in the package nor a record, over such a
    descriptor. *)
Fixpoint nullable (g : Package) (ty : Type_) : bool :=
  match ty with
  | Pointer _ => true
  | Named _ name under =>
      if bool_decide (typeString ty ∈ nullableNames) then true
      else if bool_decide (typeString ty ∈ plainNames) then false
      else if declared g name then false
      else match under with
           | Struct _ => false
           | _ => nullable g under
           end
  | _ => false
  end.

(** The generic symbol that a descriptor binds: the name of a type
    parameter, seen through pointers and external named types; none for
    a map or a sequence of type parameters. *)
Fixpoint genericSymbol (g : Package) (ty : Type_) : string :=
  match ty with
  | TypeParam name _ => name
  | Pointer elem => genericSymbol g elem
  | Named _ name under =>
      match externalNamed (typeString ty) with
      | Some _ => EmptyString
      | None =>
          if declared g name then EmptyString
          else match under with
               | Struct _ => EmptyString
               | _ => genericSymbol g under
               end
      end
  | _ => EmptyString
  end.

(** The error of the type mapper at a descriptor it has no mapping for. *)
Definition rootCause (c : Type_) : string :=
  match c with
  | Interface _ _ => "only empty interface types are supported"
  | TypeParam _ _ => "type param must be an interface"
  | _ => "unknown type: " +:+ typeString c
  end.

(** The way of the type mapper from a descriptor to the constituent at
    which it fails first, with the labels that the error collects on the
    way back: the key of a map is mapped before its value, and both are
    labelled map key. *)
Inductive errorPath (g : Package) : Type_ → Type_ → string → Prop :=
| errorPath_here c : errorPath g c c EmptyString
| errorPath_map_key k v c pre :
    errorPath g k c pre → errorPath g (Map k v) c ("map key: " +:+ pre)
| errorPath_map_elem k v c pre :
    isOk (typescriptType g k) = true →
    errorPath g v c pre → errorPath g (Map k v) c ("map key: " +:+ pre)
| errorPath_slice e c pre :
    typeString e ≠ "byte" →
    errorPath g e c pre → errorPath g (Slice e) c ("array: " +:+ pre)
| errorPath_array n e c pre :
    typeString e ≠ "byte" →
    errorPath g e c pre → errorPath g (Array n e) c ("array: " +:+ pre)
| errorPath_pointer e c pre :
    errorPath g e c pre → errorPath g (Pointer e) c ("pointer: " +:+ pre)
| errorPath_named p n u c pre :
    externalNamed (typeString (Named p n u)) = None →
    declared g n = false →
    (∀ fields, u ≠ Struct fields) →
    errorPath g u c pre →
    errorPath g (Named p n u) c ("named underlying: " +:+ pre).

(** What the second loop of the struct renderer does with a printed
    line and its type: the line is added, an annotation replaces the
    earlier one, and a generic symbol that was not used before adds its
    parameter. *)
Definition applyField (st : fieldsState) (r : string * TypescriptType) : fieldsState :=
  let ts := r.2 in
  mkFieldsState
    (fsFields st ++ [r.1])
    (if nonEmpty (GenericMapping ts)
     then match genericsUsed st !! GenericMapping ts with
          | Some _ => fsGenerics st
          | None => fsGenerics st ++
                      [GenericMapping ts +:+ " extends " +:+ ValueType ts]
          end
     else fsGenerics st)
    (if nonEmpty (AboveTypeLine ts) then AboveTypeLine ts else fsAboveLine st)
    (if nonEmpty (GenericMapping ts)
     then <[GenericMapping ts := ValueType ts]> (genericsUsed st)
     else genericsUsed st).

(** The types that use a generic symbol for the first time, [seen] being
    the symbols used before. *)
Fixpoint firstUses (seen : gset string) (tss : list TypescriptType)
  : list TypescriptType :=
  match tss with
  | [] => []
  | ts :: rest =>
      if nonEmpty (GenericMapping ts)
      then if bool_decide (GenericMapping ts ∈ seen)
           then firstUses seen rest
           else ts :: firstUses ({[GenericMapping ts]} ∪ seen) rest
      else firstUses seen rest
  end.

(** The generic parameter that a type adds to a block. *)
Definition genericParameter (ts : TypescriptType) : string :=
  GenericMapping ts +:+ " extends " +:+ ValueType ts.

(** Some mapped type of a list is optional. *)
Definition anyOptional (tss : list TypescriptType) : bool :=
  existsb Optional tss.

(** The first line of the document. *)
Definition bannerLine : string :=
  "// Code generated by 'make coder/scripts/apitypings/main.go'. DO NOT EDIT.".

(** The json tag of a field names it -. *)
Definition jsonOmitted (field : Field) : bool :=
  match structtag.Get (fieldTag field) "json" with
  | Some t => String.eqb (structtag.Name t) "-"
  | None => false
  end.

(** The shapes of declared types that the classifier tells apart. *)
Inductive shape :=
| record | enumBase | mapAlias | genericUnion | skipped | unsupported.

Global Instance shape_eq_dec : EqDecision shape.
Proof. solve_decision. Defined.

Definition shapeOf (under : Type_) : shape :=
  match under with
  | Struct _ => record
  | Basic _ => enumBase
  | Map _ _ => mapAlias
  | Array _ _ | Slice _ => skipped
  | Interface [_] _ => genericUnion
  | Interface _ _ => skipped
  | Signature _ _ => skipped
  | _ => unsupported
  end.

(** The terms of the union that a constraint interface embeds: those of
    the embedded union, or the embedded type as one term. *)
Definition unionOf (embedded : Type_) : list (bool * Type_) :=
  match embedded with
  | Union terms => terms
  | _ => [(true, embedded)]
  end.

(** A declaration, taken alone, is one that the classifier accepts: a
    type name is of a named type of a supported shape, and its record,
    map or union is rendered without error. *)
Definition declarationOk (g : Package) (n : string) (obj : Object) : bool :=
  match obj with
  | TypeName _ (Some (Named _ _ under)) =>
      match under with
      | Struct fields => isOk (buildStruct g n obj fields)
      | Map _ _ => isOk (typescriptType g under)
      | Interface [embedded] _ => isOk (buildUnion g n obj (unionOf embedded))
      | Basic _ | Array _ _ | Slice _ | Interface _ _ | Signature _ _ => true
      | _ => false
      end
  | TypeName _ (Some _) => false
  | _ => true
  end.

(** The bytes of a string are printable ASCII, which the verb %q of fmt
    copies unchanged but for the quote and the backslash. *)
Definition printableASCII (s : string) : bool :=
  forallb (fun c => (32 <=? N_of_ascii c)%N && (N_of_ascii c <? 127)%N)
          (list_ascii_of_string s).

(** ** Inputs

    Fields, records and packages that the statements below are run on. *)

Definition fooFields : list Field :=
  [ mkField "Bar" (Basic TString) [] false "codersdk";
    mkField "Baz" (Pointer (Basic TInt)) [] false "codersdk" ].

Definition sdk (name : string) (under : Type_) : Type_ :=
  Named "github.com/coder/coder/codersdk" name under.

Definition colorPkg : Package :=
  mkPackage
    (list_to_map
       [ ("Color", TypeName "/src/codersdk/color.go" (Some (sdk "Color" (Basic TString))));
         ("ColorBlue", Const "/src/codersdk/color.go" (Some (sdk "Color" (Basic TString)))
                             (quote "blue"));
         ("ColorRed", Const "/src/codersdk/color.go" (Some (sdk "Color" (Basic TString)))
                            (quote "red"));
         ("ColorGreen", Const "/src/codersdk/color.go" (Some (sdk "Color" (Basic TString)))
                              (quote "green")) ])
    [].

Definition noFields : fieldsState := mkFieldsState [] [] EmptyString ∅.

Definition sdkFile : string := "/src/codersdk/types.go".

(** Baz *int with the tag typescript:",notnull" *)
Definition bazNotNull : Field :=
  mkField "Baz" (Pointer (Basic TInt))
          [structtag.mkTag "typescript" EmptyString ["notnull"]] false "codersdk".

(** Count int with the tag json:"count,omitempty" *)
Definition countOmitEmpty : Field :=
  mkField "Count" (Basic TInt)
          [structtag.mkTag "json" "count" ["omitempty"]] false "codersdk".

(** Secret string with the tag json:"-" *)
Definition secretField : Field :=
  mkField "Secret" (Basic TString)
          [structtag.mkTag "json" "-" []] false "codersdk".

(** The embedded field Base, of a record of the package, without tag. *)
Definition baseField : Field :=
  mkField "Base" (sdk "Base" (Struct [])) [] true "codersdk".

(** ID string with the tag json:"id" *)
Definition idField : Field :=
  mkField "ID" (Basic TString) [structtag.mkTag "json" "id" []] false "codersdk".

Definition derivedFields : list Field := [baseField; idField; secretField].

(** Inline struct{} and Extra interface{}: two fields with an annotation. *)
Definition inlineField : Field :=
  mkField "Inline" (Struct []) [] false "codersdk".

Definition extraField : Field :=
  mkField "Extra" (Interface [] true) [] false "codersdk".

Definition annotatedFields : list Field := [inlineField; extraField].

(** type Events chan int *)
Definition chanPkg : Package :=
  mkPackage
    {[ "Events" := TypeName "/src/codersdk/events.go"
                     (Some (sdk "Events" (Chan SendRecv (Basic TInt)))) ]}
    [].

(** type ID []byte *)
Definition idPkg : Package :=
  mkPackage
    {[ "ID" := TypeName "/src/codersdk/id.go" (Some (sdk "ID" (Slice (Basic TByte)))) ]}
    [].

(** type Level string, with no constant of that type *)
Definition levelPkg : Package :=
  mkPackage
    {[ "Level" := TypeName "/src/codersdk/level.go" (Some (sdk "Level" (Basic TString))) ]}
    [].


(** A record Foo, an enum Mode with one constant, and a comment that
    lists both for the ignore set. *)
Definition ignoringPkg : Package :=
  mkPackage
    (list_to_map
       [ ("Foo", TypeName sdkFile (Some (sdk "Foo" (Struct fooFields))));
         ("Mode", TypeName sdkFile (Some (sdk "Mode" (Basic TString))));
         ("ModeFast", Const sdkFile (Some (sdk "Mode" (Basic TString))) (quote "fast"));
         ("Kept", TypeName sdkFile (Some (sdk "Kept" (Struct fooFields)))) ])
    [[["// @typescript-ignore Foo, Mode"]]].

(** A record Bar, and one block comment with two directives, the second
    of which lists Bar. *)
Definition twoDirectives : string :=
  "/*" +:+ nl +:+ "@typescript-ignore Foo" +:+ nl
  +:+ "@typescript-ignore Bar" +:+ nl +:+ "*/".

Definition twoDirectivesPkg : Package :=
  mkPackage
    {[ "Bar" := TypeName sdkFile (Some (sdk "Bar" (Struct fooFields))) ]}
    [[[twoDirectives]]].

(** type Box[T Constraint] struct { Value T `json:"value"` }, with the
    constraint interface declared in the package. *)
Definition constraintType : Type_ :=
  sdk "Constraint" (Interface [Union [(false, Basic TString); (false, Basic TInt)]] false).

Definition boxFields : list Field :=
  [ mkField "Value" (TypeParam "T" constraintType)
            [structtag.mkTag "json" "value" []] false "codersdk" ].

Definition boxPkg : Package :=
  mkPackage
    (list_to_map
       [ ("Box", TypeName sdkFile (Some (sdk "Box" (Struct boxFields))));
         ("Constraint", TypeName sdkFile (Some constraintType)) ])
    [].

(** type Pair[T Constraint] struct { First T `json:"first"`;
    Second T `json:"second"` } *)
Definition pairFields : list Field :=
  [ mkField "First" (TypeParam "T" constraintType)
            [structtag.mkTag "json" "first" []] false "codersdk";
    mkField "Second" (TypeParam "T" constraintType)
            [structtag.mkTag "json" "second" []] false "codersdk" ].

(** Size *int with the tags json:"size,omitempty" typescript:",notnull" *)
Definition sizeField : Field :=
  mkField "Size" (Pointer (Basic TInt))
          [ structtag.mkTag "json" "size" ["omitempty"];
            structtag.mkTag "typescript" EmptyString ["notnull"] ]
          false "codersdk".

(** Hook func() with the tag typescript:"-", and the same field with the
    tag json:"-". *)
Definition hookField : Field :=
  mkField "Hook" (Signature [] [])
          [structtag.mkTag "typescript" "-" []] false "codersdk".

Definition hiddenHookField : Field :=
  mkField "Hook" (Signature [] [])
          [structtag.mkTag "json" "-" []] false "codersdk".

(** type Number interface { ~int } : a constraint that embeds one type
    that is not a union. *)
Definition numberPkg : Package :=
  mkPackage
    {[ "Number" := TypeName sdkFile
                     (Some (sdk "Number" (Interface [Basic TInt] false))) ]}
    [].

(** The record Foo alone. *)
Definition fooPkg : Package :=
  mkPackage
    {[ "Foo" := TypeName "/src/codersdk/foo.go" (Some (sdk "Foo" (Struct fooFields))) ]}
    [].

(** A package that binds ID to a record instead of a slice of bytes. *)
Definition idRecordPkg : Package :=
  mkPackage
    {[ "ID" := TypeName "/src/codersdk/other.go" (Some (sdk "ID" (Struct fooFields))) ]}
    [[["// a comment"]]].

(** Owner ID with the tag json:"owner" *)
Definition ownerFields : list Field :=
  [ mkField "Owner" (sdk "ID" (Slice (Basic TByte)))
            [structtag.mkTag "json" "owner" []] false "codersdk" ].

(** Expires sql.NullTime with the tags json:"expires"
    typescript:",notnull" *)
Definition expiresField : Field :=
  mkField "Expires" (Named "database/sql" "NullTime" (Struct []))
          [ structtag.mkTag "json" "expires" [];
            structtag.mkTag "typescript" EmptyString ["notnull"] ]
          false "codersdk".

(** The package that declares the record Base. *)
Definition basePkg : Package :=
  mkPackage
    {[ "Base" := TypeName sdkFile (Some (sdk "Base" (Struct []))) ]}
    [].

(** The embedded field sync.Mutex, without tag, in a record of the
    codersdk package. *)
Definition mutexField : Field :=
  mkField "Mutex" (Named "sync" "Mutex" (Struct [])) [] true "codersdk".

(** type Tree map[string]Tree, declared in another package: the named
    type, and the table that has its declaration. *)
Definition treeType : Type_ := Named "example.com/ext" "Tree" (Basic TInvalid).

Definition treeDecls : gmap string Type_ :=
  {[ "example.com/ext.Tree" := Map (Basic TString) treeType ]}.

(** type Level string, declared in another package. *)
Definition extLevel : Type_ := Named "example.com/ext" "Level" (Basic TInvalid).

Definition levelDecls : gmap string Type_ :=
  {[ "example.com/ext.Level" := Basic TString ]}.

(** The document of the package that declares StringMap. *)
Definition stringMapOut : TypescriptTypes.t :=
  TypescriptTypes.mk
    {[ "StringMap" := "// From codersdk/maps.go" +:+ nl +:+
                      "export type StringMap = Record<string, string>" +:+ nl ]}
    ∅ ∅.

(** The records Alpha and Zeta, the map Labels and the enum Beta. *)
Definition mixedPkg : Package :=
  mkPackage
    (list_to_map
       [ ("Zeta", TypeName sdkFile (Some (sdk "Zeta" (Struct [idField]))));
         ("Beta", TypeName sdkFile (Some (sdk "Beta" (Basic TString))));
         ("Labels", TypeName sdkFile
                      (Some (sdk "Labels" (Map (Basic TString) (Basic TString)))));
         ("Alpha", TypeName sdkFile (Some (sdk "Alpha" (Struct [idField])))) ])
    [].

(** ** The model on small inputs *)

Example quote_chan : quote "chan int" = dq +:+ "chan int" +:+ dq.
Proof. reflexivity. Qed.

Example split_ids : split ","%char " Foo, Bar" = [" Foo"; " Bar"].
Proof. reflexivity. Qed.

Example trimSpace_id : trimSpace "  Foo " = "Foo".
Proof. reflexivity. Qed.

Example trimRight_newlines :
  trimRight isNewline ("a " +:+ nl +:+ nl) = "a ".
Proof. reflexivity. Qed.

Example trimPrefix_sdk :
  trimPrefix "github.com/coder/coder/codersdk.Constraint"
             "github.com/coder/coder/codersdk." = "Constraint".
Proof. reflexivity. Qed.

Example base_file : filepathBase "/home/coder/codersdk/users.go" = "users.go".
Proof. reflexivity. Qed.

Example string_chan_int : typeString (Chan SendRecv (Basic TInt)) = "chan int".
Proof. reflexivity. Qed.

Example string_named_url :
  typeString (Named "net/url" "URL" (Struct [])) = "net/url.URL".
Proof. reflexivity. Qed.

Example string_array : typeString (Array 16 (Basic TByte)) = "[16]byte".
Proof. reflexivity. Qed.

Example numeric_byte : Z.land (Info TByte) IsNumeric = 2%Z.
Proof. reflexivity. Qed.

Example sort_colors :
  sortStrings ["blue"; "red"; "green"] = ["blue"; "green"; "red"].
Proof. reflexivity. Qed.

Example ts_int : typescriptType emptyPkg (Basic TInt) = Ok (tsValue "number").
Proof. reflexivity. Qed.

Example ts_bytes : typescriptType emptyPkg (Slice (Basic TByte)) = Ok (tsValue "string").
Proof. reflexivity. Qed.

Example ts_map :
  typescriptType emptyPkg (Map (Basic TString) (Basic TString))
  = Ok (tsValue "Record<string, string>").
Proof. reflexivity. Qed.

Example ts_ptr :
  typescriptType emptyPkg (Pointer (Basic TInt))
  = Ok (mkTypescriptType EmptyString "number" EmptyString true).
Proof. reflexivity. Qed.

Example build_foo :
  buildStruct emptyPkg "Foo" (TypeName "foo.go" None) fooFields
  = Ok ("// From codersdk/foo.go" +:+ nl +:+
        "export interface Foo {" +:+ nl +:+
        "  readonly Bar: string" +:+ nl +:+
        "  readonly Baz?: number" +:+ nl +:+
        "}" +:+ nl).
Proof. vm_compute. reflexivity. Qed.

Example run_color :
  TypescriptTypes.String <$> (match generateAll colorPkg with Ok c => Some c | _ => None end)
  = Some (TypescriptTypes.banner +:+ "// From codersdk/color.go" +:+ nl +:+
          "export type Color = " +:+ quote "blue" +:+ " | " +:+ quote "green"
          +:+ " | " +:+ quote "red").
Proof. vm_compute. reflexivity. Qed.

Example decimal_digits :
  decimal 0 = "0" ∧ decimal 16 = "16" ∧ decimal 1000 = "1000".
Proof. repeat split. Qed.

Example run_box :
  TypescriptTypes.String <$> (match generateAll boxPkg with Ok c => Some c | _ => None end)
  = Some (TypescriptTypes.banner
          +:+ "// From codersdk/types.go" +:+ nl
          +:+ "export interface Box<T extends Constraint> {" +:+ nl
          +:+ "  readonly value: T" +:+ nl
          +:+ "}" +:+ nl +:+ nl
          +:+ "// From codersdk/types.go" +:+ nl
          +:+ "export type Constraint = string | number").
Proof. vm_compute. reflexivity. Qed.

(** * Properties *)

(** ** The order of sort.Strings *)

Section StringOrder.

Lemma ascii_compare_N (a b : ascii) :
  Ascii.compare a b = (N_of_ascii a ?= N_of_ascii b)%N.
Proof. reflexivity. Qed.

Lemma ascii_compare_refl (a : ascii) : Ascii.compare a a = Eq.
Proof. rewrite ascii_compare_N. apply N.compare_refl. Qed.

Lemma string_compare_refl (s : string) : String.compare s s = Eq.
Proof.
  induction s as [|c s IH]; simpl; [reflexivity|].
  by rewrite ascii_compare_refl.
Qed.

Lemma string_compare_Eq (a b : string) : String.compare a b = Eq ↔ a = b.
Proof.
  split; [apply String.compare_eq_iff|].
  intros ->. apply string_compare_refl.
Qed.

(** Not-greater composes: the lexicographic order is transitive. *)
Lemma string_compare_le_trans (a b c : string) :
  String.compare a b ≠ Gt → String.compare b c ≠ Gt → String.compare a c ≠ Gt.
Proof.
  revert b c. induction a as [|x a IH]; intros [|y b] [|z c]; simpl; try congruence.
  rewrite !ascii_compare_N.
  destruct (N.compare_spec (N_of_ascii x) (N_of_ascii y)) as [Hxy|Hxy|Hxy];
    destruct (N.compare_spec (N_of_ascii y) (N_of_ascii z)) as [Hyz|Hyz|Hyz];
    destruct (N.compare_spec (N_of_ascii x) (N_of_ascii z)) as [Hxz|Hxz|Hxz];
    try congruence; try lia.
  apply IH.
Qed.

Global Instance string_le_trans : Transitive string_le.
Proof.
  intros a b c. unfold string_le, String.leb. intros Hab Hbc.
  pose proof (string_compare_le_trans a b c) as H.
  destruct (String.compare a b); destruct (String.compare b c);
    destruct (String.compare a c); try discriminate; try reflexivity;
    exfalso; apply H; congruence.
Qed.

Global Instance string_le_total : Total string_le.
Proof. intros a b. apply String.leb_total. Qed.

Global Instance string_le_antisym : AntiSymm (=) string_le.
Proof. intros a b. apply String.leb_antisym. Qed.

Lemma string_lt_le_ne (a b : string) : string_lt a b ↔ string_le a b ∧ a ≠ b.
Proof.
  unfold string_lt, string_le, String.ltb, String.leb.
  rewrite <- string_compare_Eq.
  destruct (String.compare a b); split; try tauto; try congruence;
    try (intros [? ?]; congruence); intros; split; congruence.
Qed.

Lemma sortStrings_sorted (l : list string) : StronglySorted string_le (sortStrings l).
Proof. apply StronglySorted_merge_sort; apply _. Qed.

Lemma sortStrings_perm (l : list string) : sortStrings l ≡ₚ l.
Proof. apply merge_sort_Permutation. Qed.

Lemma sortStrings_elem_of (l : list string) (x : string) : x ∈ sortStrings l ↔ x ∈ l.
Proof. by rewrite sortStrings_perm. Qed.

(** The result of sorting depends on the elements only, not on their
    order: a sorted permutation is unique. *)
Lemma sortStrings_unique (l l' : list string) :
  l ≡ₚ l' → sortStrings l = sortStrings l'.
Proof.
  intros Hp. apply (StronglySorted_unique string_le).
  - apply sortStrings_sorted.
  - apply sortStrings_sorted.
  - by rewrite !sortStrings_perm.
Qed.

Lemma sortStrings_NoDup (l : list string) : NoDup l → NoDup (sortStrings l).
Proof. intros H. by rewrite sortStrings_perm. Qed.

Lemma StronglySorted_le_lt (l : list string) :
  StronglySorted string_le l → NoDup l → StronglySorted string_lt l.
Proof.
  induction 1 as [|x l Hs IH Hall]; intros Hnd; constructor.
  - apply IH. by inversion Hnd.
  - apply NoDup_cons in Hnd as [Hx _].
    rewrite Forall_forall in Hall. apply Forall_forall. intros y Hy.
    apply string_lt_le_ne. split.
    + by apply Hall.
    + intros ->. by apply Hx.
Qed.

End StringOrder.

(** ** Results and errors *)

Section Results.
Context {A B : Type}.

Lemma bind_Ok (r : result A) (k : A → result B) (b : B) :
  (r ≫= k) = Ok b ↔ ∃ a, r = Ok a ∧ k a = Ok b.
Proof.
  destruct r as [a|m|m]; simpl; split.
  - intros H. by exists a.
  - by intros (a' & [= <-] & H).
  - discriminate.
  - by intros (a' & [=] & _).
  - discriminate.
  - by intros (a' & [=] & _).
Qed.

Lemma wrapErr_Ok (prefix : string) (r : result A) (a : A) :
  wrapErr prefix r = Ok a ↔ r = Ok a.
Proof. destruct r; simpl; split; congruence. Qed.

Lemma wrapErr_isErr (prefix : string) (r : result A) :
  isErr (wrapErr prefix r) = isErr r.
Proof. by destruct r. Qed.

Lemma wrapErr_Panic (prefix : string) (r : result A) (m : string) :
  wrapErr prefix r = Panic m ↔ r = Panic m.
Proof. destruct r; simpl; split; congruence. Qed.

End Results.

(** Invert a hypothesis that a sequence of calls returned a value. *)
Ltac inv_ok :=
  repeat match goal with
    | H : (_ ≫= _) = Ok _ |- _ =>
        apply bind_Ok in H; destruct H as (? & ? & H)
    | H : wrapErr _ _ = Ok _ |- _ => apply wrapErr_Ok in H
    | H : Ok _ = Ok _ |- _ => injection H as H
    | H : Err _ = Ok _ |- _ => discriminate H
    | H : Panic _ = Ok _ |- _ => discriminate H
    end.

Lemma nonEmpty_false (s : string) : nonEmpty s = false ↔ s = EmptyString.
Proof.
  unfold nonEmpty. rewrite negb_false_iff. apply String.eqb_eq.
Qed.

Lemma nonEmpty_true (s : string) : nonEmpty s = true ↔ s ≠ EmptyString.
Proof.
  unfold nonEmpty. rewrite negb_true_iff. apply String.eqb_neq.
Qed.

Lemma append_assoc (a b c : string) : (a +:+ b) +:+ c = a +:+ (b +:+ c).
Proof.
  induction a as [|x a IH]; [reflexivity|].
  change (String x ((a +:+ b) +:+ c) = String x (a +:+ (b +:+ c))).
  by rewrite IH.
Qed.

Lemma append_nil_r (a : string) : a +:+ EmptyString = a.
Proof.
  induction a as [|x a IH]; [reflexivity|].
  change (String x (a +:+ EmptyString) = String x a).
  by rewrite IH.
Qed.

Lemma elem_of_concat {A : Type} (x : A) (ls : list (list A)) :
  x ∈ concat ls ↔ ∃ l, x ∈ l ∧ l ∈ ls.
Proof.
  induction ls as [|l ls IH]; simpl.
  - split; [by intros ?%elem_of_nil|by intros (l & _ & ?%elem_of_nil)].
  - rewrite elem_of_app, IH. split.
    + intros [H|(l' & H1 & H2)]; [exists l|exists l']; split; try done.
      * apply list_elem_of_here.
      * by apply list_elem_of_further.
    + intros (l' & H1 & H2). apply elem_of_cons in H2 as [->|H2]; [by left|].
      right. by exists l'.
Qed.

(** ** The type mapper *)

Section TypeMapper.
Variable g : Package.

Lemma externalNamed_no_mapping (s : string) (ts : TypescriptType) :
  externalNamed s = Some ts → AboveTypeLine ts = EmptyString.
Proof.
  unfold externalNamed. repeat case_match; intros [= <-]; reflexivity.
Qed.

(** The mapper has no panic. *)
Lemma typescriptType_no_panic (ty : Type_) (m : string) :
  typescriptType g ty ≠ Panic m.
Proof.
  revert m. induction ty; intros m; simpl;
    unfold mbind, result_bind, wrapErr;
    repeat (case_match; try discriminate; subst);
    try discriminate;
    try (exfalso; eapply IHty; eassumption);
    try (exfalso; eapply IHty1; eassumption);
    try (exfalso; eapply IHty2; eassumption).
Qed.

Lemma typescriptType_ok_or_err (ty : Type_) :
  isErr (typescriptType g ty) = false → isOk (typescriptType g ty) = true.
Proof.
  destruct (typescriptType g ty) eqn:E; simpl; try done.
  by apply typescriptType_no_panic in E.
Qed.

Lemma unmapped_fails (c : Type_) : unmapped c → isErr (typescriptType g c) = true.
Proof.
  destruct 1 as [e|name c Hc| | | |]; try reflexivity.
  simpl. destruct c; try reflexivity.
  - by destruct (Hc embeddeds empty).
  - destruct c; try reflexivity. simpl in Hc. by destruct (Hc embeddeds empty).
Qed.

Lemma constituent_fails (ty c : Type_) :
  constituent g ty c → isErr (typescriptType g c) = true →
  isErr (typescriptType g ty) = true.
Proof.
  destruct 1 as [k v|k v|e Hb|n e Hb|e|p n u Hext Hdecl Hu]; intros Hc; simpl.
  - destruct (typescriptType g k); done.
  - destruct (typescriptType g k) eqn:Ek; simpl; try done.
    + destruct (typescriptType g v); done.
    + by apply typescriptType_no_panic in Ek.
  - apply String.eqb_neq in Hb. rewrite Hb.
    destruct (typescriptType g e); done.
  - apply String.eqb_neq in Hb. rewrite Hb.
    destruct (typescriptType g e); done.
  - destruct (typescriptType g e); done.
  - simpl in Hext. rewrite Hext, Hdecl.
    destruct u; try (destruct (typescriptType g _); done).
    by destruct (Hu fields).
Qed.

Lemma reaches_unmapped_fails (ty c : Type_) :
  rtc (constituent g) ty c → unmapped c → isErr (typescriptType g ty) = true.
Proof.
  induction 1 as [c|ty mid c Hstep _ IH]; intros Hc.
  - by apply unmapped_fails.
  - eapply constituent_fails; eauto.
Qed.

Lemma fails_reaches_unmapped (ty : Type_) :
  isErr (typescriptType g ty) = true →
  ∃ c, rtc (constituent g) ty c ∧ unmapped c.
Proof.
  induction ty as [bs|n e IH|e IH|fields|e IH|vars|ps rs|terms|embeddeds empty
                  |k IHk v IHv|dir e IH|p n u IH|name c IH]; simpl.
  - repeat case_match; discriminate.
  - destruct (String.eqb (typeString e) "byte") eqn:Hb; [discriminate|].
    apply String.eqb_neq in Hb.
    destruct (typescriptType g e) eqn:E; simpl; try discriminate.
    intros _. destruct IH as (c & Hr & Hc); [done|].
    exists c. split; [|done]. eapply rtc_l; [|exact Hr]. by constructor.
  - destruct (String.eqb (typeString e) "byte") eqn:Hb; [discriminate|].
    apply String.eqb_neq in Hb.
    destruct (typescriptType g e) eqn:E; simpl; try discriminate.
    intros _. destruct IH as (c & Hr & Hc); [done|].
    exists c. split; [|done]. eapply rtc_l; [|exact Hr]. by constructor.
  - discriminate.
  - destruct (typescriptType g e) eqn:E; simpl; try discriminate.
    intros _. destruct IH as (c & Hr & Hc); [done|].
    exists c. split; [|done]. eapply rtc_l; [|exact Hr]. by constructor.
  - intros _. eexists. split; [apply rtc_refl|constructor].
  - intros _. eexists. split; [apply rtc_refl|constructor].
  - intros _. eexists. split; [apply rtc_refl|constructor].
  - destruct empty; [discriminate|].
    intros _. eexists. split; [apply rtc_refl|constructor].
  - destruct (typescriptType g k) eqn:Ek; simpl.
    + destruct (typescriptType g v) eqn:Ev; simpl; try discriminate.
      intros _. destruct IHv as (c & Hr & Hc); [done|].
      exists c. split; [|done]. eapply rtc_l; [|exact Hr]. by constructor.
    + intros _. destruct IHk as (c & Hr & Hc); [done|].
      exists c. split; [|done]. eapply rtc_l; [|exact Hr]. by constructor.
    + discriminate.
  - intros _. eexists. split; [apply rtc_refl|constructor].
  - destruct (externalNamed _) eqn:Hext; [discriminate|].
    destruct (declared g n) eqn:Hd; [discriminate|].
    intros Hu.
    assert (Hns : ∀ fields, u ≠ Struct fields).
    { intros fields ->. discriminate Hu. }
    assert (He : isErr (typescriptType g u) = true).
    { destruct u; try done;
        destruct (typescriptType g _) eqn:E; simpl in *; try done. }
    destruct IH as (c & Hr & Hc); [done|].
    exists c. split; [|done]. eapply rtc_l; [|exact Hr]. by constructor.
  - intros Hu. exists (TypeParam name c). split; [apply rtc_refl|].
    constructor. intros embeddeds empty Heq. simpl in Heq.
    destruct c; try discriminate Heq; by inversion Heq; subst; discriminate Hu.
Qed.

End TypeMapper.

(** ** The struct renderer *)

Section StructRenderer.
Variable g : Package.

Lemma lastAnnotation_annotate (tss : list TypescriptType) :
  lastAnnotation tss = annotate EmptyString tss.
Proof. reflexivity. Qed.

(** One pass of the loop body is the specified line of the field. *)
Lemma fieldStep_fieldLine (field : Field) (st st' : fieldsState) :
  fieldStep g field st = Ok st' →
  ∃ r, fieldLine g field = Ok r ∧
       match r with
       | None => st' = st
       | Some (line, ts) =>
           fsFields st' = fsFields st ++ [line] ∧
           fsAboveLine st' = annotate (fsAboveLine st) [ts]
       end.
Proof.
  unfold fieldStep, fieldLine.
  destruct (jsonDirective (fieldTag field)) as [[jsonName jsonOptional]|].
  - destruct (typescriptType g (fieldType field)) as [ts|m|m]; simpl; try discriminate.
    destruct (typescriptDirective (fieldTag field) ts) as [ts'|].
    + intros [= <-]. eexists. split; [reflexivity|]. simpl. done.
    + intros [= <-]. eexists. split; [reflexivity|]. done.
  - intros [= <-]. eexists. split; [reflexivity|]. done.
Qed.

Lemma keptLine_Ok (field : Field) r : fieldLine g field = Ok r → keptLine g field = r.
Proof. unfold keptLine. by intros ->. Qed.

Lemma annotate_app (above : string) (l1 l2 : list TypescriptType) :
  annotate above (l1 ++ l2) = annotate (annotate above l1) l2.
Proof. unfold annotate. apply fold_left_app. Qed.

(** The second loop, given the index set of the first: the lines of the
    fields that are not extended, in the order of the fields. *)
Lemma fieldsLoop_spec (fields : list Field) :
  ∀ (i : nat) (ext : gmap nat bool) (st st' : fieldsState),
    (∀ j f, fields !! j = Some f →
            default false (ext !! (i + j)) = isExtended f) →
    fieldsLoop g i fields ext st = Ok st' →
    Forall (λ f, isOk (fieldLine g f) = true) (filter notExtended fields) ∧
    fsFields st' = fsFields st ++ (fst <$> omap (keptLine g) (filter notExtended fields)) ∧
    fsAboveLine st' =
      annotate (fsAboveLine st) (snd <$> omap (keptLine g) (filter notExtended fields)).
Proof.
  induction fields as [|f rest IH]; intros i ext st st' Hext; simpl.
  - intros [= <-]. split; [constructor|]. split; [by rewrite app_nil_r|done].
  - pose proof (Hext 0 f eq_refl) as H0. rewrite Nat.add_0_r in H0.
    assert (Hrest : ∀ j f', rest !! j = Some f' →
                            default false (ext !! (S i + j)) = isExtended f').
    { intros j f' Hj. specialize (Hext (S j) f' Hj).
      by replace (i + S j) with (S i + j) in Hext by lia. }
    rewrite H0. destruct (isExtended f) eqn:Hf.
    + intros Hloop. rewrite filter_cons_False by (unfold notExtended; congruence).
      by apply (IH (S i) ext).
    + intros Hloop. apply bind_Ok in Hloop as (st1 & Hstep & Hloop).
      rewrite filter_cons_True by done.
      apply fieldStep_fieldLine in Hstep as (r & Hline & Hr).
      destruct (IH (S i) ext st1 st' Hrest Hloop) as (Hall & Hfields & Habove).
      split; [constructor; [by rewrite Hline|done]|].
      simpl. rewrite (keptLine_Ok _ _ Hline).
      destruct r as [[line ts]|].
      * destruct Hr as [Hf1 Ha1]. rewrite Hfields, Habove, Hf1, Ha1.
        simpl. by rewrite <- app_assoc.
      * subst st1. done.
Qed.

(** The first loop: the names of the extended fields in order, and the
    set of their indexes. *)
Lemma extendsLoop_spec (fields : list Field) :
  ∀ (i : nat) (extends : list string) (ext : gmap nat bool),
    (∀ k, (i ≤ k)%nat → ext !! k = None) →
    (extendsLoop i fields extends ext).1
      = extends ++ (fieldName <$> filter (λ f, isExtended f = true) fields) ∧
    (∀ j f, fields !! j = Some f →
            default false ((extendsLoop i fields extends ext).2 !! (i + j))
            = isExtended f) ∧
    (∀ k, (k < i)%nat → (extendsLoop i fields extends ext).2 !! k = ext !! k).
Proof.
  induction fields as [|f rest IH]; intros i extends ext Hfresh; simpl.
  - split; [by rewrite app_nil_r|]. split; [intros j f' Hj; done|done].
  - destruct (isExtended f) eqn:Hf.
    + destruct (IH (S i) (extends ++ [fieldName f]) (<[i:=true]> ext))
        as (Hn & Hidx & Hlow).
      { intros k Hk. rewrite lookup_insert_ne by lia. apply Hfresh. lia. }
      rewrite filter_cons_True by done. split; [|split].
      * rewrite Hn. simpl. by rewrite <- app_assoc.
      * intros [|j] f' Hj.
        -- injection Hj as <-. rewrite Nat.add_0_r, Hlow by lia.
           by rewrite lookup_insert_eq, Hf.
        -- replace (i + S j) with (S i + j) by lia. by apply Hidx.
      * intros k Hk. rewrite Hlow by lia. by rewrite lookup_insert_ne by lia.
    + destruct (IH (S i) extends ext) as (Hn & Hidx & Hlow).
      { intros k Hk. apply Hfresh. lia. }
      rewrite filter_cons_False by congruence. split; [done|split].
      * intros [|j] f' Hj.
        -- injection Hj as <-. rewrite Nat.add_0_r, Hlow by lia.
           by rewrite Hfresh, Hf.
        -- replace (i + S j) with (S i + j) by lia. by apply Hidx.
      * intros k Hk. apply Hlow. lia.
Qed.

(** Overwriting leaves the annotation of the last annotated type. *)
Lemma annotate_last (tss : list TypescriptType) :
  ∀ above, annotate above tss
           = match last (annotated tss) with
             | Some ts => AboveTypeLine ts
             | None => above
             end.
Proof.
  induction tss as [|ts tss IH]; intros above; [reflexivity|].
  change (annotate above (ts :: tss))
    with (annotate (if nonEmpty (AboveTypeLine ts)
                    then AboveTypeLine ts else above) tss).
  rewrite IH. unfold annotated.
  destruct (nonEmpty (AboveTypeLine ts)) eqn:E.
  - apply nonEmpty_true in E. rewrite filter_cons_True by done.
    rewrite last_cons. by destruct (last _).
  - apply nonEmpty_false in E. rewrite filter_cons_False; [done|].
    intros H. by apply H.
Qed.

(** The state handed to the template, in terms of the fields. *)
Lemma buildStructState_spec (name : string) (obj : Object) (fields : list Field)
    (state : structTemplateState) :
  buildStructState g name obj fields = Ok state →
  PosLine state = posLine obj ∧
  Name state = name ∧
  Extends state = join (fieldName <$> filter (λ f, isExtended f = true) fields) ", " ∧
  Forall (λ f, isOk (fieldLine g f) = true) (filter notExtended fields) ∧
  Fields state = fst <$> omap (keptLine g) (filter notExtended fields) ∧
  AboveLine state
    = lastAnnotation (snd <$> omap (keptLine g) (filter notExtended fields)).
Proof.
  unfold buildStructState.
  destruct (extendsLoop_spec fields 0 [] ∅) as (Hn & Hidx & _).
  { intros k _. apply lookup_empty. }
  destruct (extendsLoop 0 fields [] ∅) as [extends ext]. simpl in Hn, Hidx.
  intros H. apply bind_Ok in H as (fs & Hloop & [= <-]). simpl.
  apply fieldsLoop_spec in Hloop as (Hall & Hf & Ha); [|exact Hidx].
  simpl in Hf, Ha. subst extends.
  repeat split; try done.
  by destruct (fieldName <$> _).
Qed.

End StructRenderer.

(** ** The declaration classifier *)

Section Classifier.
Variable g : Package.
Variable ignored : gset string.

Ltac classify_cases H :=
  unfold classify in H;
  repeat (case_match; simplify_eq/=; try discriminate);
  inv_ok; simplify_eq/=.

Lemma sameAt_refl k a : sameAt k a a.
Proof. by repeat split. Qed.

Lemma sameAt_trans k a b c : sameAt k a b → sameAt k b c → sameAt k a c.
Proof. intros (?&?&?) (?&?&?). repeat split; congruence. Qed.

Lemma sameAt_sym k a b : sameAt k a b → sameAt k b a.
Proof. intros (?&?&?). by repeat split. Qed.

(** A step touches the buckets at its own identifier only. *)
Lemma classify_other (n k : string) (acc acc' : collected) :
  classify g ignored n acc = Ok acc' → k ≠ n → sameAt k acc' acc.
Proof.
  intros H Hk. classify_cases H; unfold sameAt; simpl;
    rewrite ?lookup_insert_ne by done; done.
Qed.

Lemma classify_ignored (n : string) (acc : collected) :
  n ∈ ignored → classify g ignored n acc = Ok acc.
Proof.
  intros Hn. unfold classify.
  destruct (Scope g !! n) as [obj|]; [|done].
  destruct (objType obj); [|done].
  by rewrite bool_decide_eq_true_2.
Qed.

Lemma classify_undeclared (n : string) (acc : collected) :
  Scope g !! n = None → classify g ignored n acc = Ok acc.
Proof. intros Hn. unfold classify. by rewrite Hn. Qed.

Lemma classifyAll_other (names : list string) :
  ∀ (acc acc' : collected) (k : string),
    classifyAll g ignored names acc = Ok acc' → k ∉ names → sameAt k acc' acc.
Proof.
  induction names as [|n rest IH]; intros acc acc' k; simpl.
  - intros [= <-] _. apply sameAt_refl.
  - intros H Hk. apply bind_Ok in H as (acc1 & Hstep & Hrest).
    apply not_elem_of_cons in Hk as [Hkn Hkr].
    eapply sameAt_trans; [by eapply IH|by eapply classify_other].
Qed.

(** What the buckets hold for an identifier after the walk is what its
    own step left there. *)
Lemma classifyAll_at (names : list string) :
  ∀ (acc acc' : collected) (k : string),
    NoDup names →
    classifyAll g ignored names acc = Ok acc' → k ∈ names →
    ∃ acc1 acc2, classify g ignored k acc1 = Ok acc2 ∧
                 sameAt k acc1 acc ∧ sameAt k acc' acc2.
Proof.
  induction names as [|n rest IH]; intros acc acc' k Hnd; simpl.
  - intros _ Hk. by apply elem_of_nil in Hk.
  - intros H Hk. apply bind_Ok in H as (accm & Hstep & Hrest).
    apply NoDup_cons in Hnd as [Hn Hnd].
    destruct (decide (k = n)) as [->|Hkn].
    + exists acc, accm. split; [done|]. split; [apply sameAt_refl|].
      by eapply classifyAll_other.
    + apply elem_of_cons in Hk as [?|Hk]; [done|].
      destruct (IH accm acc' k Hnd Hrest Hk) as (acc1 & acc2 & Hc & H1 & H2).
      exists acc1, acc2. split; [done|]. split; [|done].
      eapply sameAt_trans; [exact H1|by eapply classify_other].
Qed.

(** A step appends the member bound to its identifier, if there is one,
    to the constants of its enum. *)
Lemma classify_consts (n name : string) (acc acc' : collected) :
  classify g ignored n acc = Ok acc' →
  default [] (enumConsts acc' !! name)
  = default [] (enumConsts acc !! name) ++ member g ignored name n.
Proof.
  intros H. unfold classify in H. unfold member.
  destruct (Scope g !! n) as [obj|] eqn:Hs; [|simplify_eq; by rewrite app_nil_r].
  destruct obj as [f ty|f ty|f ty val|f ty]; simpl in H;
    (destruct ty as [ty|]; simpl in H; [|simplify_eq; by rewrite app_nil_r]);
    (destruct (bool_decide (n ∈ ignored)) eqn:Hign;
     [apply bool_decide_eq_true in Hign; simplify_eq;
      repeat case_match; try (by rewrite app_nil_r);
      try (case_bool_decide; try tauto; by rewrite ?app_nil_r)|]).
  - repeat (case_match; simplify_eq/=; try discriminate);
      inv_ok; simplify_eq/=; by rewrite app_nil_r.
  - simplify_eq. by rewrite app_nil_r.
  - apply bool_decide_eq_false in Hign.
    destruct ty; simplify_eq/=; try by rewrite app_nil_r.
    case_bool_decide as Hm.
    + destruct Hm as [_ ->]. by rewrite lookup_insert_eq.
    + rewrite lookup_insert_ne; [by rewrite app_nil_r|]. intros ->. tauto.
  - simplify_eq. by rewrite app_nil_r.
Qed.

Lemma classifyAll_consts (names : list string) :
  ∀ (acc acc' : collected) (name : string),
    classifyAll g ignored names acc = Ok acc' →
    default [] (enumConsts acc' !! name)
    = default [] (enumConsts acc !! name)
      ++ concat (member g ignored name <$> names).
Proof.
  induction names as [|n rest IH]; intros acc acc' name; simpl.
  - intros [= <-]. by rewrite app_nil_r.
  - intros H. apply bind_Ok in H as (acc1 & Hstep & Hrest).
    rewrite (IH _ _ _ Hrest), (classify_consts _ _ _ _ Hstep).
    by rewrite <- app_assoc.
Qed.

(** The step of an enum base. *)
Lemma classify_enum (n : string) (acc acc' : collected) (v : Object) :
  classify g ignored n acc = Ok acc' →
  enums acc !! n = None → enums acc' !! n = Some v →
  Scope g !! n = Some v ∧ (n ∉ ignored) ∧
  ∃ f p nm bs, v = TypeName f (Some (Named p nm (Basic bs))).
Proof.
  intros H Hn Hv. classify_cases H; try congruence.
  rewrite lookup_insert_eq in Hv. injection Hv as <-.
  split; [done|]. split; [by case_bool_decide|]. by repeat eexists.
Qed.


(** The step of a declaration of a slice or of an array. *)
Lemma classify_sequence (n f p nm : string) (under : Type_) (acc : collected) :
  Scope g !! n = Some (TypeName f (Some (Named p nm under))) →
  (∃ e, under = Slice e) ∨ (∃ len e, under = Array len e) →
  classify g ignored n acc = Ok acc.
Proof.
  intros Hs Hu. unfold classify. rewrite Hs. simpl.
  case_bool_decide; [done|].
  by destruct Hu as [[e ->]|(len & e & ->)].
Qed.

End Classifier.

(** The names of a scope: each declared identifier once, in ascending
    order. *)
Section Keys.
Context {V : Type}.

Lemma sorted_keys_NoDup (m : gmap string V) :
  NoDup (sortStrings (map fst (map_to_list m))).
Proof. apply sortStrings_NoDup, NoDup_fst_map_to_list. Qed.

Lemma sorted_keys_elem_of (m : gmap string V) (k : string) :
  k ∈ sortStrings (map fst (map_to_list m)) ↔ is_Some (m !! k).
Proof.
  rewrite sortStrings_elem_of, list_elem_of_fmap. split.
  - intros ([k' v] & -> & H). apply elem_of_map_to_list in H. by exists v.
  - intros [v H]. exists (k, v). split; [done|]. by apply elem_of_map_to_list.
Qed.

Lemma sorted_keys_ascending (m : gmap string V) :
  StronglySorted string_lt (sortStrings (map fst (map_to_list m))).
Proof.
  apply StronglySorted_le_lt; [apply sortStrings_sorted|apply sorted_keys_NoDup].
Qed.

End Keys.

(** * The claims of the specification *)

(** ** Type mapper: failures (C4) *)

(** A call that returned within a depth returns the same within any
    greater depth. *)
Lemma typescriptTypeIn_mono (decls : gmap string Type_) (g : Package) (depth : nat) :
  ∀ ty r depth', typescriptTypeIn decls depth g ty = Some r → (depth ≤ depth')%nat →
                 typescriptTypeIn decls depth' g ty = Some r.
Proof.
  induction depth as [|depth IH]; intros ty r depth' H Hle; [discriminate|].
  destruct depth' as [|depth']; [lia|].
  assert (Hle' : (depth ≤ depth')%nat) by lia.
  assert (Hand : ∀ (ty1 : Type_) label
                   (k : TypescriptType → option (result TypescriptType)) r1,
             andThen (typescriptTypeIn decls depth g ty1) label k = Some r1 →
             andThen (typescriptTypeIn decls depth' g ty1) label k = Some r1).
  { intros ty1 label k r1 H1.
    destruct (typescriptTypeIn decls depth g ty1) as [r0|] eqn:E; [|discriminate].
    by rewrite (IH _ _ _ E Hle'). }
  destruct ty; simpl in *; try done.
  - destruct (String.eqb _ _); [done|]. by apply Hand.
  - destruct (String.eqb _ _); [done|]. by apply Hand.
  - by apply Hand.
  - destruct (typescriptTypeIn decls depth g ty1) as [r0|] eqn:E; [|discriminate].
    rewrite (IH _ _ _ E Hle'). destruct r0 as [kt|m|m]; simpl in *; try done.
    by apply Hand.
  - destruct (externalNamed _); [done|]. destruct (declared g name); [done|].
    destruct (default ty (decls !! _)); try done; by apply Hand.
Qed.

(** Unfolding changes neither the text of a descriptor nor whether it is
    a record. *)
Lemma unfolds_typeString decls g ty ty' :
  unfolds decls g ty ty' → typeString ty' = typeString ty.
Proof. induction 1; simpl; try reflexivity; congruence. Qed.

Lemma unfolds_struct decls g ty ty' :
  unfolds decls g ty ty' →
  (∀ fs, ty = Struct fs → ty' = Struct fs) ∧
  (∀ fs, ty' = Struct fs → ty = Struct fs).
Proof. destruct 1; split; intros fs [=]; by subst. Qed.

(** On a descriptor with an unfolding the mapper returns, and what it
    returns is the result for the unfolding. *)
Lemma unfolds_returns decls g ty ty' :
  unfolds decls g ty ty' →
  ∃ depth, typescriptTypeIn decls depth g ty = Some (typescriptType g ty').
Proof.
  induction 1 as [ty Hleaf|k v k' v' Hk [dk IHk] Hv [dv IHv]|e He|n e He
                 |e e' He [d IH]|n e e' He [d IH]|e e' He [d IH]
                 |p n u Hknown|p n u u' Hu [d IH]].
  - exists 1%nat. by destruct Hleaf.
  - exists (S (dk `max` dv)). simpl.
    rewrite (typescriptTypeIn_mono _ _ _ _ _ (dk `max` dv) IHk) by lia.
    rewrite (typescriptTypeIn_mono _ _ _ _ _ (dk `max` dv) IHv) by lia.
    destruct (typescriptType g k') as [kt|m|m]; simpl; try done.
    by destruct (typescriptType g v') as [vt|m|m].
  - exists 1%nat. simpl. by rewrite He.
  - exists 1%nat. simpl. by rewrite He.
  - exists (S d). simpl. rewrite (unfolds_typeString _ _ _ _ He).
    destruct (String.eqb _ _); [done|]. rewrite IH.
    by destruct (typescriptType g e').
  - exists (S d). simpl. rewrite (unfolds_typeString _ _ _ _ He).
    destruct (String.eqb _ _); [done|]. rewrite IH.
    by destruct (typescriptType g e').
  - exists (S d). simpl. rewrite IH. by destruct (typescriptType g e').
  - exists 1%nat. simpl. destruct (externalNamed _) as [ts|]; [done|].
    destruct Hknown as [[? Hsome]|Hd]; [discriminate Hsome|]. by rewrite Hd.
  - exists (S d).
    change (typescriptTypeIn decls (S d) g (Named p n u))
      with (match externalNamed (typeString (Named p n u)) with
            | Some ts => Some (Ok ts)
            | None =>
                if declared g n then Some (Ok (tsValue n))
                else
                  match underlyingIn decls (Named p n u) with
                  | Struct _ =>
                      Some (Ok (mkTypescriptType EmptyString "any"
                                  (indentedComment
                                     ("Named type " +:+ quote (typeString (Named p n u))
                                      +:+ " unknown, using " +:+ dq +:+ "any" +:+ dq)
                                   +:+ nl +:+
                                   indentedComment
                                     "eslint-disable-next-line @typescript-eslint/no-explicit-any")
                                  false))
                  | under =>
                      andThen (typescriptTypeIn decls d g under) "named underlying"
                        (fun ts =>
                           Some (Ok (mkTypescriptType (GenericMapping ts) (ValueType ts)
                                       (indentedComment
                                          ("This is likely an enum in an external package ("
                                           +:+ quote (typeString (Named p n u)) +:+ ")"))
                                       (Optional ts))))
                  end
            end).
    change (typescriptType g (Named p n u'))
      with (match externalNamed (typeString (Named p n u)) with
            | Some ts => Ok ts
            | None =>
                if declared g n then Ok (tsValue n)
                else
                  match u' with
                  | Struct _ =>
                      Ok (mkTypescriptType EmptyString "any"
                            (indentedComment
                               ("Named type " +:+ quote (typeString (Named p n u))
                                +:+ " unknown, using " +:+ dq +:+ "any" +:+ dq)
                             +:+ nl +:+
                             indentedComment
                               "eslint-disable-next-line @typescript-eslint/no-explicit-any")
                            false)
                  | _ =>
                      ts ← wrapErr "named underlying" (typescriptType g u');
                      Ok (mkTypescriptType (GenericMapping ts) (ValueType ts)
                            (indentedComment
                               ("This is likely an enum in an external package ("
                                +:+ quote (typeString (Named p n u)) +:+ ")"))
                            (Optional ts))
                  end
            end).
    destruct (externalNamed _); [done|]. destruct (declared g n); [done|].
    destruct (unfolds_struct _ _ _ _ Hu) as [Hs1 Hs2].
    destruct (underlyingIn decls (Named p n u)) as [ | | |fs| | | | | | | | | ] eqn:E.
    4: { by rewrite (Hs1 fs eq_refl). }
    all: rewrite IH;
      (destruct u' as [ | | |fs'| | | | | | | | | ];
       [..|]; try (by specialize (Hs2 _ eq_refl)));
      by destruct (typescriptType g _).
Qed.

(** With no declaration in the table a descriptor is its own
    unfolding. *)
Lemma closed_unfolds (g : Package) (ty : Type_) : unfolds ∅ g ty ty.
Proof.
  induction ty; try (by apply unfolds_leaf; constructor).
  - by apply unfolds_array.
  - by apply unfolds_slice.
  - by apply unfolds_pointer.
  - by apply unfolds_map.
  - apply unfolds_named. unfold underlyingIn. by rewrite lookup_empty.
Qed.

(** On the named type Tree, declared in another package as
    map[string]Tree, no call of the mapper returns. *)
Lemma tree_never_returns (depth : nat) :
  typescriptTypeIn treeDecls depth emptyPkg treeType = None ∧
  typescriptTypeIn treeDecls depth emptyPkg (Map (Basic TString) treeType) = None.
Proof.
  induction depth as [|depth [IHt IHm]]; [done|]. split.
  - change (typescriptTypeIn treeDecls (S depth) emptyPkg treeType)
      with (andThen (typescriptTypeIn treeDecls depth emptyPkg
                       (Map (Basic TString) treeType))
              "named underlying"
              (fun ts =>
                 Some (Ok (mkTypescriptType (GenericMapping ts) (ValueType ts)
                             (indentedComment
                                ("This is likely an enum in an external package ("
                                 +:+ quote (typeString treeType) +:+ ")"))
                             (Optional ts))))).
    by rewrite IHm.
  - simpl. destruct depth as [|depth]; [done|].
    change (typescriptTypeIn treeDecls (S depth) emptyPkg (Basic TString))
      with (Some (Ok (tsValue "string") : result TypescriptType)).
    simpl. simpl in IHt. by rewrite IHt.
Qed.

(** A slice of the named type Level, declared in another package as a
    string: the mapper returns within a depth of three. *)
Example slice_of_external_level :
  typescriptTypeIn levelDecls 3 emptyPkg (Slice extLevel)
  = Some (Ok (mkTypescriptType EmptyString "string[]"
                ("  // This is likely an enum in an external package ("
                 +:+ quote "example.com/ext.Level" +:+ ")")
                false)) ∧
  unfolds levelDecls emptyPkg (Slice extLevel)
          (Slice (Named "example.com/ext" "Level" (Basic TString))).
Proof.
  split; [vm_compute; reflexivity|].
  apply unfolds_slice, unfolds_named.
  change (underlyingIn levelDecls extLevel) with (Basic TString).
  apply unfolds_leaf. constructor.
Qed.

(** C4, as amended. On a descriptor with a finite unfolding, and so on
    every finite descriptor, the type mapper returns: a value or an
    error, never a panic. It returns an error exactly when the
    descriptor is, or has as a constituent that the mapper maps (the key
    or the element of a map, the element of a sequence other than a byte
    sequence, the pointee, the underlying type of an external named type
    that is neither on the allowlist, nor declared in the package, nor a
    record), a non-empty interface, a type parameter whose constraint is
    not an interface, or a tuple, signature, union or channel. An
    anonymous record is mapped without error, to any with the annotation
    that asks to name it. *)
Theorem typescriptType_fails_exactly (g : Package) (ty : Type_) :
  (isErr (typescriptType g ty) = true
   ↔ ∃ c, rtc (constituent g) ty c ∧ unmapped c) ∧
  (isErr (typescriptType g ty) = false ↔ isOk (typescriptType g ty) = true) ∧
  (∀ fields,
     typescriptType g (Struct fields)
     = Ok (mkTypescriptType EmptyString "any"
             ("  // Embedded anonymous struct, please fix by naming it" +:+ nl +:+
              "  // eslint-disable-next-line @typescript-eslint/no-explicit-any")
             false)) ∧
  (∃ depth, typescriptTypeIn ∅ depth g ty = Some (typescriptType g ty)) ∧
  (∀ decls d, unfolds decls g d ty →
              ∃ depth, ∀ depth', (depth ≤ depth')%nat →
                typescriptTypeIn decls depth' g d = Some (typescriptType g ty)).
Proof.
  split; [|split; [|split; [|split]]].
  - split.
    + apply fails_reaches_unmapped.
    + intros (c & Hr & Hc). by eapply reaches_unmapped_fails.
  - split.
    + apply typescriptType_ok_or_err.
    + by destruct (typescriptType g ty).
  - reflexivity.
  - apply unfolds_returns, closed_unfolds.
  - intros decls d Hu. destruct (unfolds_returns _ _ _ _ Hu) as [depth Hd].
    exists depth. intros depth' Hle. by eapply typescriptTypeIn_mono.
Qed.

(** C4, as stated, fails: a map from strings to a non-empty interface is
    none of the three listed inputs and the mapper returns an error for
    it, while for an anonymous record, which is listed, it returns a
    value; and on the named type Tree, declared in another package as
    map[string]Tree, the mapper does not return, whatever the depth that
    its calls are allowed. *)
Lemma typescriptType_fails_on_map_counterexample :
  typescriptType emptyPkg (Map (Basic TString) (Interface [] false))
  = Err "map key: only empty interface types are supported" ∧
  isOk (typescriptType emptyPkg (Struct [])) = true ∧
  ¬ (∀ (g : Package) (ty : Type_),
       isErr (typescriptType g ty) = true →
       (∃ embeddeds, ty = Interface embeddeds false) ∨
       (∃ fields, ty = Struct fields) ∨
       (∃ name c, ty = TypeParam name c ∧
                  ∀ embeddeds empty, Underlying ty ≠ Interface embeddeds empty)) ∧
  (∀ depth, typescriptTypeIn treeDecls depth emptyPkg treeType = None).
Proof.
  split; [reflexivity|]. split; [reflexivity|]. split.
  - intros H.
    destruct (H emptyPkg (Map (Basic TString) (Interface [] false)) eq_refl)
      as [[? [=]]|[[? [=]]|(? & ? & [=] & _)]].
  - intros depth. apply tree_never_returns.
Qed.

(** ** Annotations (C8) *)

Lemma map_annotation (g : Package) (k v : Type_) (r : TypescriptType) :
  typescriptType g (Map k v) = Ok r →
  ∃ rk rv, typescriptType g k = Ok rk ∧ typescriptType g v = Ok rv ∧
           AboveTypeLine r = joinAnnotations (AboveTypeLine rk) (AboveTypeLine rv) ∧
           ValueType r = "Record<" +:+ ValueType rk +:+ ", " +:+ ValueType rv +:+ ">".
Proof.
  simpl. intros H. inv_ok. subst r. eexists _, _. repeat split; try eassumption.
  simpl. unfold joinAnnotations. case_match; [apply append_assoc|done].
Qed.

Lemma sequence_annotation (g : Package) (seq e : Type_) (r : TypescriptType) :
  seq = Slice e ∨ (∃ n, seq = Array n e) →
  typeString e ≠ "byte" →
  typescriptType g seq = Ok r →
  ∃ re, typescriptType g e = Ok re ∧ AboveTypeLine r = AboveTypeLine re.
Proof.
  intros Hseq Hb. apply String.eqb_neq in Hb.
  destruct Hseq as [->|[n ->]]; simpl; rewrite Hb; intros H; inv_ok; subst r;
    eexists; split; try eassumption; reflexivity.
Qed.

(** C8, as amended. The annotation of a map is the annotation of its key
    followed by the annotation of its value, with a newline between them
    when neither is empty; an annotation that both share is kept twice.
    The annotation of a sequence that is not a byte sequence is the
    annotation of its element. The annotation of a record block is empty
    when none of its printed fields has an annotation, and it is the
    annotation of the field when exactly one of them has one. *)
Theorem annotation_of_composites (g : Package) :
  (∀ k v r, typescriptType g (Map k v) = Ok r →
            ∃ rk rv, typescriptType g k = Ok rk ∧ typescriptType g v = Ok rv ∧
                     AboveTypeLine r
                     = joinAnnotations (AboveTypeLine rk) (AboveTypeLine rv)) ∧
  (∀ seq e r, seq = Slice e ∨ (∃ n, seq = Array n e) →
              typeString e ≠ "byte" →
              typescriptType g seq = Ok r →
              ∃ re, typescriptType g e = Ok re ∧ AboveTypeLine r = AboveTypeLine re) ∧
  (∀ name obj fields state,
      buildStructState g name obj fields = Ok state →
      (annotated (snd <$> printed g fields) = [] → AboveLine state = EmptyString) ∧
      (∀ ts, annotated (snd <$> printed g fields) = [ts] →
             AboveLine state = AboveTypeLine ts)).
Proof.
  split; [|split].
  - intros k v r H. destruct (map_annotation g k v r H) as (rk & rv & ? & ? & ? & _).
    by exists rk, rv.
  - apply sequence_annotation.
  - intros name obj fields state H.
    apply buildStructState_spec in H as (_ & _ & _ & _ & _ & ->).
    unfold lastAnnotation, printed. rewrite annotate_last.
    split; [by intros ->|]. by intros ts ->.
Qed.

(** C8, as stated, fails: a map keeps an annotation that its key and its
    value share twice, and of two annotated fields a record block carries
    the annotation of one only. *)
Lemma annotation_of_record_counterexample :
  (AboveLine <$> (match buildStructState emptyPkg "Doc" (TypeName sdkFile None)
                                          annotatedFields with
                  | Ok state => Some state
                  | _ => None
                  end))
  = Some "  // eslint-disable-next-line" ∧
  ((λ r, AboveTypeLine r.2) <$> keptLine emptyPkg inlineField)
  = Some ("  // Embedded anonymous struct, please fix by naming it" +:+ nl +:+
          "  // eslint-disable-next-line @typescript-eslint/no-explicit-any") ∧
  typescriptType emptyPkg (Map (Interface [] true) (Interface [] true))
  = Ok (mkTypescriptType EmptyString "Record<any, any>"
          ("  // eslint-disable-next-line" +:+ nl +:+ "  // eslint-disable-next-line")
          false) ∧
  ¬ (∀ (g : Package) name obj fields state (f : Field) line ts,
       buildStructState g name obj fields = Ok state →
       f ∈ fields → isExtended f = false → keptLine g f = Some (line, ts) →
       contains (AboveLine state) (AboveTypeLine ts) = true).
Proof.
  split; [vm_compute; reflexivity|]. split; [vm_compute; reflexivity|].
  split; [vm_compute; reflexivity|].
  intros H.
  specialize (H emptyPkg "Doc" (TypeName sdkFile None) annotatedFields).
  destruct (buildStructState emptyPkg "Doc" (TypeName sdkFile None) annotatedFields)
    as [state| |] eqn:E; [|vm_compute in E; discriminate E..].
  destruct (keptLine emptyPkg inlineField) as [[line ts]|] eqn:Ek;
    [|vm_compute in Ek; discriminate Ek].
  specialize (H state inlineField line ts eq_refl).
  assert (Hin : inlineField ∈ annotatedFields) by (unfold annotatedFields; set_solver).
  specialize (H Hin eq_refl Ek).
  vm_compute in E. injection E as <-.
  vm_compute in Ek. injection Ek as <- <-.
  vm_compute in H. discriminate H.
Qed.

(** ** Struct renderer: optional fields (C1) *)

Lemma pointer_optional (g : Package) (e : Type_) (ts : TypescriptType) :
  typescriptType g (Pointer e) = Ok ts → Optional ts = true.
Proof. simpl. intros H. inv_ok. by subst ts. Qed.

Lemma firstOptionIs_elem_of (options : list string) (opt : string) :
  firstOptionIs options opt = true → opt ∈ options.
Proof.
  destruct options as [|o rest]; simpl; [discriminate|].
  intros H. apply String.eqb_eq in H as ->. apply list_elem_of_here.
Qed.

Lemma fieldLine_kept (g : Package) (f : Field) r :
  fieldLine g f = Ok r → omitted f = false → is_Some r.
Proof.
  unfold fieldLine, omitted, jsonDirective, typescriptDirective.
  intros H Ho. apply orb_false_iff in Ho as [Hj Ht].
  destruct (structtag.Get (fieldTag f) "json") as [tj|]; [rewrite Hj in H|];
    apply bind_Ok in H as (ts & _ & H);
    (destruct (structtag.Get (fieldTag f) "typescript") as [tt|];
     [rewrite Ht in H; simpl in H;
      destruct (firstOptionIs (structtag.Options tt) "notnull")|]);
    injection H as <-; done.
Qed.

(** The line of a field that the renderer prints is the specified
    one. *)
Lemma fieldLine_lineOf (g : Package) (f : Field) r :
  fieldLine g f = Ok r → fst <$> r = lineOf g f.
Proof.
  unfold fieldLine, lineOf, omitted, jsonDirective, typescriptDirective,
    omitEmptyFirst, typeOptional, shownType, namedOverride, notNull,
    printedName, printedType.
  destruct (structtag.Get (fieldTag f) "json") as [tj|];
    [destruct (String.eqb (structtag.Name tj) "-"); [by intros [= <-]|]|];
    simpl; intros H; apply bind_Ok in H as (ts & Hts & H);
    apply wrapErr_Ok in Hts; rewrite Hts;
    (destruct (structtag.Get (fieldTag f) "typescript") as [tt|];
     [destruct (String.eqb (structtag.Name tt) "-"); [by injection H as <-|];
      simpl in *;
      destruct (nonEmpty (structtag.Name tt));
      destruct (firstOptionIs (structtag.Options tt) "notnull")|]);
    injection H as <-; reflexivity.
Qed.

Lemma fieldStep_lineOf (g : Package) (field : Field) (st st' : fieldsState) :
  fieldStep g field st = Ok st' →
  omitted field = false →
  ∃ ts, typescriptType g (fieldType field) = Ok ts ∧
        lineOf g field
        = Some (indent +:+ "readonly " +:+ printedName field
                +:+ (if omitEmptyFirst field || typeOptional field ts
                     then "?" else EmptyString)
                +:+ ": " +:+ shownType field ts) ∧
        fsFields st' = fsFields st ++
          [indent +:+ "readonly " +:+ printedName field
           +:+ (if omitEmptyFirst field || typeOptional field ts
                then "?" else EmptyString)
           +:+ ": " +:+ shownType field ts].
Proof.
  intros Hstep Hkept.
  apply fieldStep_fieldLine in Hstep as (r & Hline & Hr).
  pose proof (fieldLine_kept g field r Hline Hkept) as [[line ts'] ->].
  apply fieldLine_lineOf in Hline. simpl in Hline.
  unfold lineOf in *. rewrite Hkept in *.
  destruct (typescriptType g (fieldType field)) as [ts|m|m]; try discriminate.
  exists ts. split; [done|]. split; [done|].
  injection Hline as ->. by destruct Hr.
Qed.

(** C1, as amended. Take a field that no tag omits and whose json tag
    lists omitempty first if it lists it. The renderer prints one line
    for it, [  readonly name?: type] or [  readonly name: type]. Without
    typescript tag the type is the mapped one, a pointer-typed field is
    printed with the question mark, and a field of another type is
    printed with it exactly when its json tag lists omitempty or the
    type mapper marks its mapped type optional. With a typescript tag, a
    type that the tag names is printed in place of the mapped type, and
    the question mark is printed exactly when the json tag lists
    omitempty, or when the tag names no type, does not list notnull
    first, and the mapped type is optional. *)
Theorem field_optional_mark (g : Package) (field : Field) (st st' : fieldsState) :
  fieldStep g field st = Ok st' →
  omitted field = false →
  (∀ t, structtag.Get (fieldTag field) "json" = Some t →
        "omitempty" ∈ structtag.Options t →
        firstOptionIs (structtag.Options t) "omitempty" = true) →
  ∃ (ts : TypescriptType) (optional : bool) (shown : string),
    typescriptType g (fieldType field) = Ok ts ∧
    fsFields st' = fsFields st ++
      [indent +:+ "readonly " +:+ printedName field
       +:+ (if optional then "?" else EmptyString) +:+ ": " +:+ shown] ∧
    match structtag.Get (fieldTag field) "typescript" with
    | None =>
        shown = printedType ts ∧
        (isPointer (fieldType field) = true → optional = true) ∧
        (isPointer (fieldType field) = false →
         (optional = true ↔ omitEmpty field ∨ Optional ts = true))
    | Some t =>
        shown = (if nonEmpty (structtag.Name t) then structtag.Name t
                 else printedType ts) ∧
        (optional = true ↔
         omitEmpty field ∨
         (structtag.Name t = EmptyString ∧
          firstOptionIs (structtag.Options t) "notnull" = false ∧
          Optional ts = true))
    end.
Proof.
  intros Hstep Hkept Hfirst.
  destruct (fieldStep_lineOf g field st st' Hstep Hkept) as (ts & Hts & _ & Hf).
  exists ts, (omitEmptyFirst field || typeOptional field ts), (shownType field ts).
  split; [done|]. split; [done|].
  assert (Hom : omitEmptyFirst field = true ↔ omitEmpty field).
  { unfold omitEmptyFirst, omitEmpty.
    destruct (structtag.Get (fieldTag field) "json") as [t|]; split.
    - intros H. exists t. split; [done|]. by apply firstOptionIs_elem_of.
    - intros (t' & [= <-] & Hin). by apply Hfirst.
    - discriminate.
    - by intros (t' & [=] & _). }
  unfold typeOptional, shownType, namedOverride, notNull.
  destruct (structtag.Get (fieldTag field) "typescript") as [t|] eqn:Htag.
  - split; [by destruct (nonEmpty (structtag.Name t))|].
    rewrite orb_true_iff, Hom.
    destruct (nonEmpty (structtag.Name t)) eqn:Hn.
    + apply nonEmpty_true in Hn. split; [intros [?|?]; [by left|done]|].
      intros [?|(? & _)]; [by left|done].
    + apply nonEmpty_false in Hn.
      destruct (firstOptionIs (structtag.Options t) "notnull").
      * split; [intros [?|?]; [by left|done]|]. intros [?|(_ & ? & _)]; [by left|done].
      * split; [intros [?|?]; [by left|by right]|]. intros [?|(_ & _ & ?)]; [by left|by right].
  - split; [done|]. split.
    + destruct (fieldType field) eqn:Hty; try discriminate. intros _.
      rewrite (pointer_optional _ _ _ Hts). apply orb_true_r.
    + intros _. by rewrite orb_true_iff, Hom.
Qed.

(** The field Expires sql.NullTime, json:"expires"
    typescript:",notnull", is printed without the question mark, though
    its mapped type is optional. *)
Lemma field_optional_mark_witness :
  ∃ (ts : TypescriptType) (optional : bool) (shown : string),
    typescriptType emptyPkg (fieldType expiresField) = Ok ts ∧
    fsFields (mkFieldsState ["  readonly expires: string"] [] EmptyString ∅)
    = fsFields noFields ++
      [indent +:+ "readonly " +:+ printedName expiresField
       +:+ (if optional then "?" else EmptyString) +:+ ": " +:+ shown] ∧
    match structtag.Get (fieldTag expiresField) "typescript" with
    | None =>
        shown = printedType ts ∧
        (isPointer (fieldType expiresField) = true → optional = true) ∧
        (isPointer (fieldType expiresField) = false →
         (optional = true ↔ omitEmpty expiresField ∨ Optional ts = true))
    | Some t =>
        shown = (if nonEmpty (structtag.Name t) then structtag.Name t
                 else printedType ts) ∧
        (optional = true ↔
         omitEmpty expiresField ∨
         (structtag.Name t = EmptyString ∧
          firstOptionIs (structtag.Options t) "notnull" = false ∧
          Optional ts = true))
    end.
Proof.
  apply (field_optional_mark emptyPkg expiresField noFields
           (mkFieldsState ["  readonly expires: string"] [] EmptyString ∅)).
  - vm_compute. reflexivity.
  - reflexivity.
  - intros t [= <-] Hin. simpl in Hin. by apply elem_of_nil in Hin.
Defined.

(** Lines of fields with a typescript tag: a named type, notnull on a
    pointer with omitempty, and no tag on a nullable type. *)
Example override_lines :
  lineOf emptyPkg (mkField "At" (Named "time" "Time" (Struct []))
                     [structtag.mkTag "typescript" "Date" []] false "codersdk")
  = Some "  readonly At: Date" ∧
  lineOf emptyPkg sizeField = Some "  readonly size?: number" ∧
  lineOf emptyPkg bazNotNull = Some "  readonly Baz: number" ∧
  lineOf emptyPkg (mkField "Expires" (Named "database/sql" "NullTime" (Struct []))
                     [] false "codersdk")
  = Some "  readonly Expires?: string" ∧
  lineOf emptyPkg hookField = None.
Proof. repeat split; vm_compute; reflexivity. Qed.

(** C1, as stated, fails: the pointer-typed field Baz *int with the tag
    typescript:",notnull" is printed without the question mark. *)
Lemma pointer_field_not_optional_counterexample :
  isPointer (fieldType bazNotNull) = true ∧
  fieldStep emptyPkg bazNotNull noFields
  = Ok (mkFieldsState ["  readonly Baz: number"] [] EmptyString ∅) ∧
  ¬ (∀ (g : Package) (field : Field) (st st' : fieldsState) (line : string),
       fieldStep g field st = Ok st' →
       fsFields st' = fsFields st ++ [line] →
       isPointer (fieldType field) = true →
       contains line "?: " = true).
Proof.
  split; [reflexivity|]. split; [vm_compute; reflexivity|].
  intros H.
  specialize (H emptyPkg bazNotNull noFields
                (mkFieldsState ["  readonly Baz: number"] [] EmptyString ∅)
                "  readonly Baz: number").
  assert (Hc : contains "  readonly Baz: number" "?: " = true).
  { apply H; [vm_compute; reflexivity|reflexivity|reflexivity]. }
  vm_compute in Hc. discriminate Hc.
Qed.

(** ** Struct renderer: embedded fields (C9) *)

Lemma untagged_reflectGet (f : Field) :
  untagged f = String.eqb (reflectGet (fieldTag f) "json") EmptyString.
Proof.
  unfold untagged, reflectGet, structtag.Value.
  destruct (structtag.Get (fieldTag f) "json") as [t|]; [|reflexivity].
  destruct (structtag.Options t) as [|o rest]; simpl.
  - by rewrite andb_true_r.
  - rewrite andb_false_r. symmetry. apply String.eqb_neq.
    destruct (structtag.Name t); discriminate.
Qed.

Lemma isExtended_embeddedUntagged (f : Field) :
  fieldPkgName f = "codersdk" →
  isExtended f = true ↔ embeddedUntagged f.
Proof.
  intros Hp. unfold isExtended, embeddedUntagged.
  rewrite untagged_reflectGet, Hp. simpl. rewrite andb_true_r.
  apply andb_true_iff.
Qed.

Lemma filter_agree {A : Type} (P Q : A → Prop) `{∀ x, Decision (P x)}
    `{∀ x, Decision (Q x)} (l : list A) :
  (∀ x, x ∈ l → P x ↔ Q x) → filter P l = filter Q l.
Proof.
  induction l as [|x l IH]; intros Hl; [reflexivity|].
  assert (Hx : P x ↔ Q x) by (apply Hl; apply list_elem_of_here).
  assert (Hrest : filter P l = filter Q l).
  { apply IH. intros y Hy. apply Hl. by right. }
  destruct (decide (P x)) as [HP|HP].
  - rewrite !filter_cons_True by tauto. by rewrite Hrest.
  - rewrite !filter_cons_False by tauto. done.
Qed.

Lemma omap_agree {A B : Type} (f h : A → option B) (l : list A) :
  (∀ x, x ∈ l → f x = h x) → omap f l = omap h l.
Proof.
  induction l as [|x l IH]; intros Hl; [reflexivity|].
  assert (Hrest : omap f l = omap h l).
  { apply IH. intros y Hy. apply Hl. by right. }
  change (omap f (x :: l))
    with (match f x with Some y => y :: omap f l | None => omap f l end).
  change (omap h (x :: l))
    with (match h x with Some y => y :: omap h l | None => omap h l end).
  rewrite (Hl x) by apply list_elem_of_here. by rewrite Hrest.
Qed.

Lemma fmap_omap {A B C : Type} (f : A → option B) (h : B → C) (l : list A) :
  h <$> omap f l = omap (λ x, h <$> f x) l.
Proof.
  induction l as [|x l IH]; [reflexivity|].
  change (omap f (x :: l))
    with (match f x with Some y => y :: omap f l | None => omap f l end).
  change (omap (λ x, h <$> f x) (x :: l))
    with (match h <$> f x with
          | Some y => y :: omap (λ x, h <$> f x) l
          | None => omap (λ x, h <$> f x) l
          end).
  destruct (f x); simpl; by rewrite <- IH.
Qed.

(** C9, as amended. Take a record of the codersdk package whose
    embedded fields without json tag (absent or empty) all reference
    records of the package. Each such field is extended: the extends
    clause of the block lists the referenced names in the order of the
    declaration, and the field has no line. The field lines are those of
    all other fields, in the order of the declaration, without the
    fields that a tag omits (json or typescript name -). Field iteration
    visits the other fields only: each of them that no tag omits has its
    line, and the type of each of them maps without error unless a json
    tag named - omits the field. *)
Theorem extends_and_field_lines (g : Package) (name : string) (obj : Object)
    (fields : list Field) (state : structTemplateState) :
  buildStructState g name obj fields = Ok state →
  (∀ f, f ∈ fields → fieldPkgName f = "codersdk") →
  (∀ f, f ∈ fields → embeddedUntagged f → referencesRecord g f) →
  Extends state
  = join (referencedName <$> filter embeddedUntagged fields) ", " ∧
  Fields state = omap (lineOf g) (filter (λ f, ¬ embeddedUntagged f) fields) ∧
  (∀ f, f ∈ fields → ¬ embeddedUntagged f → omitted f = false →
        is_Some (lineOf g f)) ∧
  (∀ f, f ∈ fields → ¬ embeddedUntagged f → jsonOmitted f = false →
        isOk (typescriptType g (fieldType f)) = true) ∧
  buildStruct g name obj fields = Ok (structTemplate state).
Proof.
  intros H Hpkg Hrec.
  destruct (buildStructState_spec g name obj fields state H)
    as (_ & _ & Hext & Hall & Hfields & _).
  assert (Hfilter : filter notExtended fields
                    = filter (λ f, ¬ embeddedUntagged f) fields).
  { apply filter_agree. intros f Hf. unfold notExtended.
    rewrite <- (isExtended_embeddedUntagged f (Hpkg f Hf)).
    by destruct (isExtended f). }
  assert (Hlines : ∀ f, f ∈ fields → ¬ embeddedUntagged f →
                        ∃ r, fieldLine g f = Ok r ∧ fst <$> r = lineOf g f).
  { intros f Hf Hne. rewrite Forall_forall in Hall.
    assert (Hok : isOk (fieldLine g f) = true).
    { apply Hall. rewrite Hfilter. apply list_elem_of_filter. by split. }
    destruct (fieldLine g f) as [r| |] eqn:E; try discriminate.
    exists r. split; [done|]. by apply fieldLine_lineOf. }
  split; [|split; [|split; [|split]]].
  - rewrite Hext. f_equal.
    rewrite (filter_agree (λ f, isExtended f = true) embeddedUntagged fields).
    + apply list_fmap_ext. intros i f Hf.
      apply list_elem_of_lookup_2 in Hf. apply list_elem_of_filter in Hf as [He Hf].
      destruct (Hrec f Hf He) as (file & p & n & fs & Hty & _ & Hn).
      unfold referencedName. by rewrite Hty.
    + intros f Hf. by apply isExtended_embeddedUntagged, Hpkg.
  - rewrite Hfields, Hfilter, fmap_omap. apply omap_agree.
    intros f Hf. apply list_elem_of_filter in Hf as [Hne Hf].
    destruct (Hlines f Hf Hne) as (r & Hr & <-).
    unfold keptLine. by rewrite Hr.
  - intros f Hf Hne Ho. destruct (Hlines f Hf Hne) as (r & Hr & <-).
    apply fmap_is_Some. by eapply fieldLine_kept.
  - intros f Hf Hne Hj. destruct (Hlines f Hf Hne) as (r & Hr & _).
    unfold fieldLine, jsonDirective in Hr. unfold jsonOmitted in Hj.
    destruct (structtag.Get (fieldTag f) "json") as [t|]; [rewrite Hj in Hr|];
      by destruct (typescriptType g (fieldType f)).
  - unfold buildStruct. by rewrite H.
Qed.

(** The record with the embedded Base, ID string json:"id" and
    Secret string json:"-", in the package that declares Base, extends
    Base and has the one line of ID. *)
Lemma extends_and_field_lines_witness :
  Extends (mkState ("// From codersdk/types.go" +:+ nl) "Derived"
             ["  readonly id: string"] [] "Base" EmptyString)
  = join (referencedName <$> filter embeddedUntagged derivedFields) ", " ∧
  Fields (mkState ("// From codersdk/types.go" +:+ nl) "Derived"
            ["  readonly id: string"] [] "Base" EmptyString)
  = omap (lineOf basePkg) (filter (λ f, ¬ embeddedUntagged f) derivedFields) ∧
  (∀ f, f ∈ derivedFields → ¬ embeddedUntagged f → omitted f = false →
        is_Some (lineOf basePkg f)) ∧
  (∀ f, f ∈ derivedFields → ¬ embeddedUntagged f → jsonOmitted f = false →
        isOk (typescriptType basePkg (fieldType f)) = true) ∧
  buildStruct basePkg "Derived" (TypeName sdkFile None) derivedFields
  = Ok (structTemplate
          (mkState ("// From codersdk/types.go" +:+ nl) "Derived"
             ["  readonly id: string"] [] "Base" EmptyString)).
Proof.
  apply (extends_and_field_lines basePkg "Derived" (TypeName sdkFile None)
           derivedFields).
  - vm_compute. reflexivity.
  - intros f Hf. unfold derivedFields in Hf.
    repeat (apply elem_of_cons in Hf as [->|Hf]; [reflexivity|]).
    by apply elem_of_nil in Hf.
  - intros f Hf [He Hu]. unfold derivedFields in Hf.
    apply elem_of_cons in Hf as [->|Hf].
    + exists sdkFile, "github.com/coder/coder/codersdk", "Base", [].
      split; [reflexivity|]. split; [vm_compute; reflexivity|reflexivity].
    + apply elem_of_cons in Hf as [->|Hf]; [discriminate He|].
      apply elem_of_cons in Hf as [->|Hf]; [discriminate He|].
      by apply elem_of_nil in Hf.
Defined.

(** The block of that record, and the block of a record that embeds
    sync.Mutex: the code tests the package that declares the field, not
    the one that declares its type, and extends Mutex as well. *)
Example extends_blocks :
  buildStruct basePkg "Derived" (TypeName sdkFile None) derivedFields
  = Ok ("// From codersdk/types.go" +:+ nl +:+
        "export interface Derived extends Base {" +:+ nl +:+
        "  readonly id: string" +:+ nl +:+ "}" +:+ nl) ∧
  buildStruct emptyPkg "Guarded" (TypeName sdkFile None) [mutexField; idField]
  = Ok ("// From codersdk/types.go" +:+ nl +:+
        "export interface Guarded extends Mutex {" +:+ nl +:+
        "  readonly id: string" +:+ nl +:+ "}" +:+ nl).
Proof. split; vm_compute; reflexivity. Qed.

(** C9, as stated, fails: the field Secret string json:"-" is not
    extended, and it has no field line. *)
Lemma omitted_field_has_no_line_counterexample :
  isExtended secretField = false ∧
  (Fields <$> (match buildStructState emptyPkg "Login" (TypeName sdkFile None)
                                       [secretField] with
               | Ok state => Some state
               | _ => None
               end)) = Some [] ∧
  ¬ (∀ (g : Package) name obj fields state,
       buildStructState g name obj fields = Ok state →
       length (Fields state) = length (filter notExtended fields)).
Proof.
  split; [reflexivity|]. split; [vm_compute; reflexivity|].
  intros H.
  specialize (H emptyPkg "Login" (TypeName sdkFile None) [secretField]).
  destruct (buildStructState emptyPkg "Login" (TypeName sdkFile None) [secretField])
    as [state| |] eqn:E; [|vm_compute in E; discriminate E..].
  specialize (H state eq_refl).
  vm_compute in E. injection E as <-.
  vm_compute in H. discriminate H.
Qed.

(** ** Output assembler (C2) *)

Lemma trimRight_last (cut : ascii → bool) (s : string) (ch : ascii) :
  lastByte (trimRight cut s) = Some ch → cut ch = false.
Proof.
  induction s as [|c s IH]; simpl; [discriminate|].
  destruct (trimRight cut s) as [|c' kept] eqn:E.
  - destruct (cut c) eqn:Hc; simpl; [discriminate|]. by intros [= <-].
  - simpl. simpl in IH. exact IH.
Qed.

(** C2, as amended. The document is the banner, then the blocks of the
    records bucket, then those of the enums bucket, then those of the
    generic-unions bucket, each block followed by a newline, with the
    trailing newlines trimmed (other trailing white space stays). Within
    a bucket the blocks are written by strictly ascending name, one block
    for each name of the bucket. *)
Theorem document_layout (c : TypescriptTypes.t) :
  TypescriptTypes.String c
  = trimRight isNewline
      (TypescriptTypes.banner
       +:+ TypescriptTypes.writeBlocks (TypescriptTypes.Types c)
             (TypescriptTypes.sortedKeys (TypescriptTypes.Types c))
       +:+ TypescriptTypes.writeBlocks (TypescriptTypes.Enums c)
             (TypescriptTypes.sortedKeys (TypescriptTypes.Enums c))
       +:+ TypescriptTypes.writeBlocks (TypescriptTypes.Generics c)
             (TypescriptTypes.sortedKeys (TypescriptTypes.Generics c))) ∧
  (∀ bucket : gmap string string,
      StronglySorted string_lt (TypescriptTypes.sortedKeys bucket) ∧
      (∀ k, k ∈ TypescriptTypes.sortedKeys bucket ↔ is_Some (bucket !! k)) ∧
      (∀ k rest, TypescriptTypes.writeBlocks bucket (k :: rest)
                 = default EmptyString (bucket !! k) +:+ nl
                   +:+ TypescriptTypes.writeBlocks bucket rest)) ∧
  (∀ ch, lastByte (TypescriptTypes.String c) = Some ch → isNewline ch = false).
Proof.
  split; [reflexivity|]. split.
  - intros bucket. split; [apply sorted_keys_ascending|].
    split; [apply sorted_keys_elem_of|reflexivity].
  - intros ch. apply trimRight_last.
Qed.

(** C2, as stated, fails on the trimming: for the package that declares
    type Level string and no constant of that type, the document ends in
    a space. *)
Lemma document_trailing_space_counterexample :
  (TypescriptTypes.String <$>
     (match generateAll levelPkg with Ok c => Some c | _ => None end))
  = Some (TypescriptTypes.banner +:+ "// From codersdk/level.go" +:+ nl
          +:+ "export type Level = ") ∧
  ¬ (∀ (c : TypescriptTypes.t) (ch : ascii),
       lastByte (TypescriptTypes.String c) = Some ch → isSpace ch = false).
Proof.
  split; [vm_compute; reflexivity|].
  intros H.
  destruct (generateAll levelPkg) as [c| |] eqn:E; [|vm_compute in E; discriminate E..].
  specialize (H c " "%char).
  vm_compute in E. injection E as <-.
  assert (Hs : isSpace " " = false) by (apply H; vm_compute; reflexivity).
  discriminate Hs.
Qed.

(** ** The walk over the scope *)

Section Walk.
Variable g : Package.

Lemma scopeNames_NoDup : NoDup (scopeNames g).
Proof. apply sorted_keys_NoDup. Qed.

Lemma scopeNames_elem_of (k : string) : k ∈ scopeNames g ↔ is_Some (Scope g !! k).
Proof. apply sorted_keys_elem_of. Qed.

(** generateAll in terms of what the walk collected. *)
Lemma generateAll_collected (out : TypescriptTypes.t) :
  generateAll g = Ok out →
  ∃ acc, classifyAll g (ignoredTypes g) (scopeNames g) nothing = Ok acc ∧
         TypescriptTypes.Types out = structs acc ∧
         TypescriptTypes.Generics out = generics acc ∧
         ∀ k, TypescriptTypes.Enums out !! k
              = (λ v, enumBlock k v (enumMembers g k)) <$> enums acc !! k.
Proof.
  unfold generateAll. intros H. apply bind_Ok in H as (acc & Hacc & [= <-]).
  exists acc. split; [done|]. split; [done|]. split; [done|].
  intros k. simpl. rewrite map_lookup_imap.
  pose proof (classifyAll_consts g (ignoredTypes g) (scopeNames g) nothing acc k Hacc)
    as Hc.
  simpl in Hc. rewrite lookup_empty in Hc. simpl in Hc.
  destruct (enums acc !! k) as [v|]; simpl; [|done].
  by rewrite Hc.
Qed.

(** What the walk leaves for an identifier is what the step of that
    identifier produced from nothing. *)
Lemma walk_at (acc : collected) (k : string) :
  classifyAll g (ignoredTypes g) (scopeNames g) nothing = Ok acc →
  ∃ acc1 acc2, classify g (ignoredTypes g) k acc1 = Ok acc2 ∧
               sameAt k acc1 nothing ∧ sameAt k acc acc2.
Proof.
  intros H. destruct (decide (k ∈ scopeNames g)) as [Hk|Hk].
  - eapply classifyAll_at; eauto using scopeNames_NoDup.
  - exists nothing, nothing. split; [|split].
    + apply classify_undeclared.
      rewrite scopeNames_elem_of in Hk. by apply eq_None_not_Some.
    + apply sameAt_refl.
    + by eapply classifyAll_other.
Qed.

End Walk.

(** ** Ignore directive (C3) *)

Lemma findIgnored_eq (text : string) :
  findIgnored text
  = if String.prefix directive text
    then Some (upToNewline (afterColon
                 (String.substring (String.length directive)
                    (String.length text - String.length directive) text)))
    else match text with
         | EmptyString => None
         | String _ rest => findIgnored rest
         end.
Proof. by destruct text. Qed.

Lemma prefix_append (s t : string) : String.prefix s (s +:+ t) = true.
Proof.
  induction s as [|c s IH]; [by destruct t|].
  change (String c s +:+ t) with (String c (s +:+ t)). simpl.
  by destruct (ascii_dec c c).
Qed.

Lemma length_append (s t : string) :
  String.length (s +:+ t) = (String.length s + String.length t)%nat.
Proof.
  induction s as [|c s IH]; [reflexivity|].
  change (String c s +:+ t) with (String c (s +:+ t)). simpl. by rewrite IH.
Qed.

Lemma substring_all (t : string) : String.substring 0 (String.length t) t = t.
Proof. induction t as [|c t IH]; simpl; [reflexivity|by rewrite IH]. Qed.

Lemma substring_append (s t : string) :
  String.substring (String.length s)
    (String.length (s +:+ t) - String.length s) (s +:+ t) = t.
Proof.
  rewrite length_append.
  replace (String.length s + String.length t - String.length s)%nat
    with (String.length t) by lia.
  induction s as [|c s IH]; [apply substring_all|].
  change (String c s +:+ t) with (String c (s +:+ t)). simpl. exact IH.
Qed.

Lemma noDirectiveb_correct (pre after : string) :
  noDirectiveb pre after = true → noDirective pre after.
Proof.
  induction pre as [|c pre IH]; intros H p s Hp Hs.
  - destruct p, s; try discriminate Hp. by destruct Hs.
  - simpl in H. apply andb_true_iff in H as [H1 H2].
    apply negb_true_iff in H1.
    destruct p as [|c' p].
    + change (EmptyString +:+ s) with s in Hp. by subst s.
    + change (String c' p +:+ s) with (String c' (p +:+ s)) in Hp.
      injection Hp as _ Hp. by apply (IH H2 p s).
Qed.

(** The ignore expression matches at the first directive of a comment. *)
Lemma findIgnored_first (pre rest : string) :
  noDirective pre (directive +:+ rest) →
  findIgnored (pre +:+ directive +:+ rest) = Some (upToNewline (afterColon rest)).
Proof.
  induction pre as [|c pre IH]; intros Hno.
  - change (EmptyString +:+ directive +:+ rest) with (directive +:+ rest).
    rewrite findIgnored_eq, prefix_append, substring_append. reflexivity.
  - rewrite findIgnored_eq.
    rewrite (Hno EmptyString (String c pre) eq_refl) by discriminate.
    change (String c pre +:+ directive +:+ rest)
      with (String c (pre +:+ directive +:+ rest)).
    apply IH. intros p s -> Hs. by apply (Hno (String c p) s).
Qed.

Lemma listed_empty (rest id : string) :
  upToNewline (afterColon rest) = EmptyString → id ∈ listed rest → id = EmptyString.
Proof.
  unfold listed. intros ->. simpl. intros H.
  apply list_elem_of_singleton in H. by subst.
Qed.

(** The identifiers of the first directive of a comment are in the
    ignore set. *)
Lemma listedFirstIn_ignored (g : Package) (text id : string) :
  text ∈ comments g → listedFirstIn text id → id ≠ EmptyString →
  id ∈ ignoredTypes g.
Proof.
  intros Ht (pre & rest & -> & Hno & Hid) Hne.
  unfold ignoredTypes. apply elem_of_list_to_set, elem_of_concat.
  exists (ignoredInLine (pre +:+ directive +:+ rest)). split.
  - unfold ignoredInLine. rewrite findIgnored_first by done.
    destruct (nonEmpty (upToNewline (afterColon rest))) eqn:E; [exact Hid|].
    apply nonEmpty_false in E. destruct Hne. by eapply listed_empty.
  - apply list_elem_of_fmap. by eexists.
Qed.

(** C3, as amended. An identifier of the ignore set keys no block of the
    records, enums or generic-unions bucket of a successful run; and the
    ignore set holds every identifier listed in the first
    @typescript-ignore directive of a comment of the package, the list
    being what follows the directive on its line, split at the commas. *)
Theorem ignored_identifier_has_no_block (g : Package) (out : TypescriptTypes.t)
    (id : string) :
  generateAll g = Ok out →
  id ∈ ignoredTypes g ∨
  (id ≠ EmptyString ∧ ∃ text, text ∈ comments g ∧ listedFirstIn text id) →
  TypescriptTypes.Types out !! id = None ∧
  TypescriptTypes.Enums out !! id = None ∧
  TypescriptTypes.Generics out !! id = None.
Proof.
  intros H Hlisted.
  assert (Hid : id ∈ ignoredTypes g).
  { destruct Hlisted as [?|(Hne & text & Ht & Hl)]; [done|].
    by eapply listedFirstIn_ignored. }
  apply generateAll_collected in H as (acc & Hacc & -> & -> & He).
  destruct (walk_at g acc id Hacc) as (acc1 & acc2 & Hstep & H1 & H2).
  rewrite classify_ignored in Hstep by done. injection Hstep as <-.
  destruct (sameAt_trans _ _ _ _ H2 H1) as (Hs & Hg & Hen). simpl in *.
  rewrite He, Hs, Hg, Hen, !lookup_empty. done.
Qed.

(** The comment [// @typescript-ignore Foo, Mode] lists Foo and Mode. *)
Example ignore_line :
  ignoredInLine "// @typescript-ignore Foo, Mode" = ["Foo"; "Mode"].
Proof. reflexivity. Qed.

Example ignore_line_colon :
  ignoredInLine "// @typescript-ignore: Foo,Mode" = ["Foo"; "Mode"].
Proof. reflexivity. Qed.

(** In the package with the comment [// @typescript-ignore Foo, Mode] the
    record Foo has no block; the record Kept has one. *)
Lemma ignored_identifier_has_no_block_witness :
  TypescriptTypes.Types
    (TypescriptTypes.mk
       {[ "Kept" := "// From codersdk/types.go" +:+ nl +:+
                    "export interface Kept {" +:+ nl +:+
                    "  readonly Bar: string" +:+ nl +:+
                    "  readonly Baz?: number" +:+ nl +:+ "}" +:+ nl ]} ∅ ∅)
    !! "Foo" = None ∧
  TypescriptTypes.Enums
    (TypescriptTypes.mk
       {[ "Kept" := "// From codersdk/types.go" +:+ nl +:+
                    "export interface Kept {" +:+ nl +:+
                    "  readonly Bar: string" +:+ nl +:+
                    "  readonly Baz?: number" +:+ nl +:+ "}" +:+ nl ]} ∅ ∅)
    !! "Foo" = None ∧
  TypescriptTypes.Generics
    (TypescriptTypes.mk
       {[ "Kept" := "// From codersdk/types.go" +:+ nl +:+
                    "export interface Kept {" +:+ nl +:+
                    "  readonly Bar: string" +:+ nl +:+
                    "  readonly Baz?: number" +:+ nl +:+ "}" +:+ nl ]} ∅ ∅)
    !! "Foo" = None.
Proof.
  apply (ignored_identifier_has_no_block ignoringPkg _ "Foo").
  - vm_compute. reflexivity.
  - right. split; [discriminate|].
    exists "// @typescript-ignore Foo, Mode". split.
    + vm_compute. apply list_elem_of_here.
    + exists "// ", " Foo, Mode". split; [reflexivity|]. split.
      * apply noDirectiveb_correct. vm_compute. reflexivity.
      * vm_compute. apply list_elem_of_here.
Defined.

(** C3, as stated, fails: in a block comment with two directives the
    second one is not read, and the record Bar that it lists has its
    block. *)
Lemma second_directive_counterexample :
  listedIn twoDirectives "Bar" ∧
  ignoredTypes twoDirectivesPkg = {[ "Foo" ]} ∧
  generateAll twoDirectivesPkg
  = Ok (TypescriptTypes.mk
          {[ "Bar" := "// From codersdk/types.go" +:+ nl +:+
                      "export interface Bar {" +:+ nl +:+
                      "  readonly Bar: string" +:+ nl +:+
                      "  readonly Baz?: number" +:+ nl +:+ "}" +:+ nl ]} ∅ ∅) ∧
  ¬ (∀ (g : Package) (out : TypescriptTypes.t) (text id : string),
       generateAll g = Ok out → text ∈ comments g → listedIn text id →
       TypescriptTypes.Types out !! id = None).
Proof.
  assert (Hl : listedIn twoDirectives "Bar").
  { exists ("/*" +:+ nl +:+ "@typescript-ignore Foo" +:+ nl), (" Bar" +:+ nl +:+ "*/").
    split; [reflexivity|]. vm_compute. apply list_elem_of_here. }
  split; [exact Hl|]. split; [vm_compute; reflexivity|].
  split; [vm_compute; reflexivity|].
  intros H.
  destruct (generateAll twoDirectivesPkg) as [out| |] eqn:E;
    [|vm_compute in E; discriminate E..].
  specialize (H twoDirectivesPkg out twoDirectives "Bar" E).
  assert (Hc : twoDirectives ∈ comments twoDirectivesPkg).
  { vm_compute. apply list_elem_of_here. }
  specialize (H Hc Hl).
  vm_compute in E. injection E as <-.
  vm_compute in H. discriminate H.
Qed.

(** ** Declarations of sequences (C5) *)

(** C5, as amended. A top-level declaration whose underlying type is a
    slice or an array, such as type ID []byte, is skipped without error:
    its step leaves the collections as they are, and a successful run has
    no block for its name in any bucket. The type mapper maps the
    descriptor []byte itself to string. *)
Theorem sequence_declaration_skipped (g : Package) (out : TypescriptTypes.t)
    (n f p nm : string) (under : Type_) :
  generateAll g = Ok out →
  Scope g !! n = Some (TypeName f (Some (Named p nm under))) →
  (∃ e, under = Slice e) ∨ (∃ len e, under = Array len e) →
  (∀ acc, classify g (ignoredTypes g) n acc = Ok acc) ∧
  TypescriptTypes.Types out !! n = None ∧
  TypescriptTypes.Enums out !! n = None ∧
  TypescriptTypes.Generics out !! n = None ∧
  typescriptType g (Slice (Basic TByte)) = Ok (tsValue "string").
Proof.
  intros H Hs Hu.
  assert (Hskip : ∀ acc, classify g (ignoredTypes g) n acc = Ok acc).
  { intros acc. by eapply classify_sequence. }
  split; [done|].
  apply generateAll_collected in H as (acc & Hacc & -> & -> & He).
  destruct (walk_at g acc n Hacc) as (acc1 & acc2 & Hstep & H1 & H2).
  rewrite Hskip in Hstep. injection Hstep as <-.
  destruct (sameAt_trans _ _ _ _ H2 H1) as (Hst & Hg & Hen). simpl in *.
  rewrite He, Hst, Hg, Hen, !lookup_empty. done.
Qed.

(** The package that declares type ID []byte: no block for ID. *)
Lemma sequence_declaration_skipped_witness :
  (∀ acc, classify idPkg (ignoredTypes idPkg) "ID" acc = Ok acc) ∧
  TypescriptTypes.Types (TypescriptTypes.mk ∅ ∅ ∅) !! "ID" = None ∧
  TypescriptTypes.Enums (TypescriptTypes.mk ∅ ∅ ∅) !! "ID" = None ∧
  TypescriptTypes.Generics (TypescriptTypes.mk ∅ ∅ ∅) !! "ID" = None ∧
  typescriptType idPkg (Slice (Basic TByte)) = Ok (tsValue "string").
Proof.
  apply (sequence_declaration_skipped idPkg (TypescriptTypes.mk ∅ ∅ ∅)
           "ID" "/src/codersdk/id.go" "github.com/coder/coder/codersdk" "ID"
           (Slice (Basic TByte))).
  - vm_compute. reflexivity.
  - vm_compute. reflexivity.
  - left. by exists (Basic TByte).
Defined.

(** C5, as stated, fails: for the package that declares type ID []byte
    the run succeeds with three empty buckets, and the document is the
    banner alone. *)
Lemma byte_slice_declaration_counterexample :
  generateAll idPkg = Ok (TypescriptTypes.mk ∅ ∅ ∅) ∧
  main (Ok [idPkg])
  = Some ("// Code generated by 'make coder/scripts/apitypings/main.go'. DO NOT EDIT."
          +:+ nl) ∧
  ((λ doc, contains doc "export type ID = string") <$> main (Ok [idPkg])) = Some false.
Proof.
  split; [vm_compute; reflexivity|]. split; vm_compute; reflexivity.
Qed.

(** ** Enum aggregator (C6) *)

(** C6. The block of an enum base is its position line and
    [export type Name = v1 | v2 | ...], where the values are the texts of
    the constants typed with the base that the walk accumulated, in
    ascending order of the texts. The values printed depend on the
    accumulated texts only, not on the order they come in. *)
Theorem enum_literals_sorted (g : Package) (out : TypescriptTypes.t)
    (name block : string) :
  generateAll g = Ok out →
  TypescriptTypes.Enums out !! name = Some block →
  ∃ v, Scope g !! name = Some v ∧
       block = posLine v +:+ "export type " +:+ name +:+ " = "
               +:+ join (sortStrings (enumValues g name)) " | " +:+ nl ∧
       StronglySorted string_le (sortStrings (enumValues g name)) ∧
       sortStrings (enumValues g name) ≡ₚ enumValues g name ∧
       ∀ values, values ≡ₚ enumValues g name →
                 sortStrings values = sortStrings (enumValues g name).
Proof.
  intros H Hb.
  apply generateAll_collected in H as (acc & Hacc & _ & _ & He).
  rewrite He in Hb.
  destruct (enums acc !! name) as [v|] eqn:Hv; [|discriminate].
  injection Hb as <-.
  destruct (walk_at g acc name Hacc) as (acc1 & acc2 & Hstep & H1 & H2).
  destruct H1 as (_ & _ & H1). destruct H2 as (_ & _ & H2).
  simpl in H1. rewrite lookup_empty in H1. rewrite Hv in H2. symmetry in H2.
  destruct (classify_enum g _ _ _ _ _ Hstep H1 H2) as (Hs & _ & _).
  exists v. split; [done|]. split; [reflexivity|].
  split; [apply sortStrings_sorted|]. split; [apply sortStrings_perm|].
  intros values Hp. by apply sortStrings_unique.
Qed.

(** The enum Color with the constants blue, red and green. *)
Lemma enum_literals_sorted_witness :
  ∃ v, Scope colorPkg !! "Color" = Some v ∧
       ("// From codersdk/color.go" +:+ nl +:+ "export type Color = "
        +:+ quote "blue" +:+ " | " +:+ quote "green" +:+ " | " +:+ quote "red" +:+ nl)
       = posLine v +:+ "export type " +:+ "Color" +:+ " = "
         +:+ join (sortStrings (enumValues colorPkg "Color")) " | " +:+ nl ∧
       StronglySorted string_le (sortStrings (enumValues colorPkg "Color")) ∧
       sortStrings (enumValues colorPkg "Color") ≡ₚ enumValues colorPkg "Color" ∧
       ∀ values, values ≡ₚ enumValues colorPkg "Color" →
                 sortStrings values = sortStrings (enumValues colorPkg "Color").
Proof.
  apply (enum_literals_sorted colorPkg
           (TypescriptTypes.mk ∅
              {[ "Color" := "// From codersdk/color.go" +:+ nl +:+ "export type Color = "
                            +:+ quote "blue" +:+ " | " +:+ quote "green" +:+ " | "
                            +:+ quote "red" +:+ nl ]} ∅)).
  - vm_compute. reflexivity.
  - vm_compute. reflexivity.
Defined.

(** The constants of Color are walked in the order of their names, blue,
    green, red being the order of ColorBlue, ColorGreen, ColorRed; their
    texts in another order sort to the same values. *)
Example color_values :
  enumValues colorPkg "Color" = [quote "blue"; quote "green"; quote "red"] ∧
  sortStrings [quote "blue"; quote "red"; quote "green"]
  = [quote "blue"; quote "green"; quote "red"].
Proof. split; vm_compute; reflexivity. Qed.

(** ** Unsupported declarations (C7) *)

(** The step of a declaration whose underlying type is a pointer or a
    channel fails with an error that quotes the underlying type. *)
Lemma classify_unsupported (g : Package) (ignored : gset string)
    (n f p nm : string) (under : Type_) (acc : collected) :
  Scope g !! n = Some (TypeName f (Some (Named p nm under))) →
  n ∉ ignored →
  (∃ e, under = Pointer e) ∨ (∃ dir e, under = Chan dir e) →
  classify g ignored n acc
  = Err ("unsupported named type " +:+ quote (typeString under)).
Proof.
  intros Hs Hi Hu. unfold classify. rewrite Hs. simpl.
  rewrite bool_decide_eq_false_2 by done.
  by destruct Hu as [[e ->]|(dir & e & ->)].
Qed.

(** C7 on the package that declares type Events chan int: the run aborts
    and main writes no document; the error names the shape, chan int, and
    the directory, and does not name the declaration Events. *)
Theorem unsupported_declaration_error :
  GenerateFromDirectory baseDir (Ok [chanPkg])
  = Err ("parse package " +:+ quote "./codersdk" +:+ ": unsupported named type "
         +:+ quote "chan int") ∧
  main (Ok [chanPkg]) = None ∧
  contains ("parse package " +:+ quote "./codersdk" +:+ ": unsupported named type "
            +:+ quote "chan int") "chan int" = true ∧
  contains ("parse package " +:+ quote "./codersdk" +:+ ": unsupported named type "
            +:+ quote "chan int") "Events" = false.
Proof. repeat split; vm_compute; reflexivity. Qed.

(** ** Declarations of maps (C10) *)






(** The document of that package, and the document of a package with a
    map, two records and an enum: the alias stands among the records,
    between Alpha and Zeta, and before the enum Beta. *)
Example map_alias_document :
  TypescriptTypes.String stringMapOut
  = bannerLine +:+ nl +:+ nl +:+ "// From codersdk/maps.go" +:+ nl +:+
    "export type StringMap = Record<string, string>" ∧
  (TypescriptTypes.String <$>
     (match generateAll mixedPkg with Ok c => Some c | _ => None end))
  = Some (bannerLine +:+ nl +:+ nl
          +:+ "// From codersdk/types.go" +:+ nl
          +:+ "export interface Alpha {" +:+ nl
          +:+ "  readonly id: string" +:+ nl +:+ "}" +:+ nl +:+ nl
          +:+ "// From codersdk/types.go" +:+ nl
          +:+ "export type Labels = Record<string, string>" +:+ nl +:+ nl
          +:+ "// From codersdk/types.go" +:+ nl
          +:+ "export interface Zeta {" +:+ nl
          +:+ "  readonly id: string" +:+ nl +:+ "}" +:+ nl +:+ nl
          +:+ "// From codersdk/types.go" +:+ nl
          +:+ "export type Beta = ").
Proof. split; vm_compute; reflexivity. Qed.

(** * Further properties of the generator *)

(** ** Type mapper: optional types, generic symbols, errors *)

(** The allowlist of the mapper: the three nullable names map to an
    optional string, the three plain names to a string, and no other
    name is on it. *)
Lemma externalNamed_allowlist (s : string) :
  externalNamed s
  = if bool_decide (s ∈ nullableNames)
    then Some (mkTypescriptType EmptyString "string" EmptyString true)
    else if bool_decide (s ∈ plainNames) then Some (tsValue "string")
    else None.
Proof.
  unfold externalNamed.
  destruct (String.eqb_spec s "net/url.URL") as [->|H1]; [reflexivity|].
  destruct (String.eqb_spec s "time.Time") as [->|H2]; [reflexivity|].
  destruct (String.eqb_spec s "database/sql.NullTime") as [->|H3]; [reflexivity|].
  destruct (String.eqb_spec s "github.com/coder/coder/codersdk.NullTime")
    as [->|H4]; [reflexivity|].
  destruct (String.eqb_spec s "github.com/google/uuid.NullUUID")
    as [->|H5]; [reflexivity|].
  destruct (String.eqb_spec s "github.com/google/uuid.UUID") as [->|H6]; [reflexivity|].
  rewrite !bool_decide_eq_false_2; [reflexivity| |].
  - unfold plainNames. intros Hin.
    repeat (apply elem_of_cons in Hin as [?|Hin]; [done|]).
    by apply elem_of_nil in Hin.
  - unfold nullableNames. intros Hin.
    repeat (apply elem_of_cons in Hin as [?|Hin]; [done|]).
    by apply elem_of_nil in Hin.
Qed.

(** X1. A mapped type is optional exactly for a pointer, for one of the
    three nullable types of the allowlist (sql.NullTime,
    codersdk.NullTime, uuid.NullUUID), and for a named type, neither of
    the allowlist nor declared in the package nor a record, over such a
    type. In particular a map or a sequence is never optional, whatever
    its elements are, and neither are url.URL, time.Time and
    uuid.UUID. *)
Theorem optional_iff_nullable (g : Package) (ty : Type_) (r : TypescriptType) :
  typescriptType g ty = Ok r → Optional r = nullable g ty.
Proof.
  revert r. induction ty; intros r; simpl; intros H;
    try (by repeat case_match; inv_ok; simplify_eq/=).
  rewrite externalNamed_allowlist in H.
  destruct (bool_decide (_ ∈ nullableNames)); [by inv_ok; subst|].
  destruct (bool_decide (_ ∈ plainNames)); [by inv_ok; subst|].
  destruct (declared g name); [by inv_ok; subst|].
  destruct ty; inv_ok; subst; simpl; try by eauto.
Qed.

(** sql.NullTime maps to an optional string. *)
Lemma optional_iff_nullable_witness :
  Optional (mkTypescriptType EmptyString "string" EmptyString true)
  = nullable emptyPkg (Named "database/sql" "NullTime" (Struct [])).
Proof.
  apply (optional_iff_nullable emptyPkg (Named "database/sql" "NullTime" (Struct []))).
  reflexivity.
Defined.

(** The nullable names are optional and the plain names are not; a slice
    of pointers is not optional. *)
Example nullable_names :
  nullable emptyPkg (Named "github.com/google/uuid" "NullUUID" (Struct [])) = true ∧
  nullable emptyPkg (Named "github.com/coder/coder/codersdk" "NullTime" (Struct []))
  = true ∧
  nullable emptyPkg (Named "github.com/google/uuid" "UUID" (Array 16 (Basic TByte)))
  = false ∧
  nullable emptyPkg (Named "time" "Time" (Struct [])) = false ∧
  nullable emptyPkg (Slice (Pointer (Basic TInt))) = false.
Proof. repeat split; vm_compute; reflexivity. Qed.

(** X2. The generic symbol of a mapped type is the name of the type
    parameter that the descriptor is, seen through pointers and external
    named types; a map or a sequence of type parameters binds no symbol,
    so it is printed with the constraint in place of the parameter. *)
Theorem generic_symbol_of_mapping (g : Package) (ty : Type_) (r : TypescriptType) :
  typescriptType g ty = Ok r → GenericMapping r = genericSymbol g ty.
Proof.
  revert r. induction ty; intros r; simpl; intros H;
    try (by repeat case_match; inv_ok; simplify_eq/=; eauto).
  destruct (externalNamed _) as [ts|] eqn:Hext.
  - inv_ok; subst. unfold externalNamed in Hext.
    by repeat case_match; simplify_eq.
  - destruct (declared g name); [by inv_ok; subst|].
    destruct ty; inv_ok; subst; simpl; try by eauto.
Qed.

(** A slice of the type parameter T binds no symbol. *)
Lemma generic_symbol_of_mapping_witness :
  GenericMapping (tsValue "Constraint[]")
  = genericSymbol emptyPkg (Slice (TypeParam "T" constraintType)).
Proof.
  apply (generic_symbol_of_mapping emptyPkg (Slice (TypeParam "T" constraintType))).
  reflexivity.
Defined.

(** X3. Every predeclared basic type maps without annotation, to number
    when it is numeric, to boolean when it is boolean, else to its own
    name. The case of the mapper for the kind byte is never taken: byte
    is numeric and maps to number like uint8. *)
Theorem predeclared_mapping (g : Package) (bs : Basic_) :
  bs ∈ predeclared →
  typescriptType g (Basic bs)
  = Ok (tsValue (if (0 <? Z.land (Info bs) IsNumeric)%Z then "number"
                 else if (0 <? Z.land (Info bs) IsBoolean)%Z then "boolean"
                 else BasicName bs)).
Proof.
  unfold predeclared. intros H.
  repeat (apply elem_of_cons in H as [->|H]; [reflexivity|]).
  by apply elem_of_nil in H.
Qed.

(** byte maps to number, without annotation. *)
Lemma predeclared_mapping_witness :
  typescriptType emptyPkg (Basic TByte)
  = Ok (tsValue (if (0 <? Z.land (Info TByte) IsNumeric)%Z then "number"
                 else if (0 <? Z.land (Info TByte) IsBoolean)%Z then "boolean"
                 else BasicName TByte)).
Proof.
  apply (predeclared_mapping emptyPkg TByte).
  unfold predeclared. set_solver.
Defined.

Section MapperErrors.
Variable g : Package.

Lemma unmapped_error (c : Type_) :
  unmapped c → typescriptType g c = Err (rootCause c).
Proof.
  destruct 1 as [e|name c Hc| | | |]; try reflexivity.
  simpl. destruct c; try reflexivity.
  - by destruct (Hc embeddeds empty).
  - destruct c; try reflexivity. simpl in Hc. by destruct (Hc embeddeds empty).
Qed.

Lemma errorPath_error (ty c : Type_) (pre : string) :
  errorPath g ty c pre → unmapped c →
  typescriptType g ty = Err (pre +:+ rootCause c).
Proof.
  induction 1 as [c|k v c pre _ IH|k v c pre Hk _ IH|e c pre Hb _ IH
                 |n e c pre Hb _ IH|e c pre _ IH|p n u c pre Hext Hd Hu _ IH];
    intros Hc.
  - by apply unmapped_error.
  - simpl. rewrite (IH Hc). simpl. by rewrite append_assoc.
  - simpl. destruct (typescriptType g k); try discriminate. simpl.
    rewrite (IH Hc). simpl. by rewrite append_assoc.
  - simpl. apply String.eqb_neq in Hb. rewrite Hb, (IH Hc). simpl.
    by rewrite append_assoc.
  - simpl. apply String.eqb_neq in Hb. rewrite Hb, (IH Hc). simpl.
    by rewrite append_assoc.
  - simpl. rewrite (IH Hc). simpl. by rewrite append_assoc.
  - simpl in *. rewrite Hext, Hd.
    destruct u; try (by destruct (Hu fields));
      rewrite (IH Hc); simpl; by rewrite append_assoc.
Qed.

Lemma error_errorPath (ty : Type_) (msg : string) :
  typescriptType g ty = Err msg →
  ∃ c pre, errorPath g ty c pre ∧ unmapped c ∧ msg = pre +:+ rootCause c.
Proof.
  revert msg.
  induction ty as [bs|n e IH|e IH|fields|e IH|vars|ps rs|terms|embeddeds empty
                  |k IHk v IHv|dir e IH|p n u IH|name c IH]; intros msg; simpl.
  - repeat case_match; discriminate.
  - destruct (String.eqb (typeString e) "byte") eqn:Hb; [discriminate|].
    apply String.eqb_neq in Hb.
    destruct (typescriptType g e) as [?|m|?] eqn:E; simpl; try discriminate.
    intros [= <-]. destruct (IH m eq_refl) as (c & pre & Hp & Hc & ->).
    exists c, ("array: " +:+ pre). split; [by constructor|]. split; [done|].
    by rewrite append_assoc.
  - destruct (String.eqb (typeString e) "byte") eqn:Hb; [discriminate|].
    apply String.eqb_neq in Hb.
    destruct (typescriptType g e) as [?|m|?] eqn:E; simpl; try discriminate.
    intros [= <-]. destruct (IH m eq_refl) as (c & pre & Hp & Hc & ->).
    exists c, ("array: " +:+ pre). split; [by constructor|]. split; [done|].
    by rewrite append_assoc.
  - discriminate.
  - destruct (typescriptType g e) as [?|m|?] eqn:E; simpl; try discriminate.
    intros [= <-]. destruct (IH m eq_refl) as (c & pre & Hp & Hc & ->).
    exists c, ("pointer: " +:+ pre). split; [by constructor|]. split; [done|].
    by rewrite append_assoc.
  - intros [= <-]. eexists _, EmptyString. split; [constructor|].
    split; [constructor|reflexivity].
  - intros [= <-]. eexists _, EmptyString. split; [constructor|].
    split; [constructor|reflexivity].
  - intros [= <-]. eexists _, EmptyString. split; [constructor|].
    split; [constructor|reflexivity].
  - destruct empty; [discriminate|]. intros [= <-].
    eexists _, EmptyString. split; [constructor|]. split; [constructor|reflexivity].
  - destruct (typescriptType g k) as [?|m|?] eqn:Ek; simpl.
    + destruct (typescriptType g v) as [?|m|?] eqn:Ev; simpl; try discriminate.
      intros [= <-]. destruct (IHv m eq_refl) as (c & pre & Hp & Hc & ->).
      exists c, ("map key: " +:+ pre).
      split; [apply errorPath_map_elem; [by rewrite Ek|done]|]. split; [done|].
      by rewrite append_assoc.
    + intros [= <-]. destruct (IHk m eq_refl) as (c & pre & Hp & Hc & ->).
      exists c, ("map key: " +:+ pre). split; [by constructor|]. split; [done|].
      by rewrite append_assoc.
    + discriminate.
  - intros [= <-]. eexists _, EmptyString. split; [constructor|].
    split; [constructor|reflexivity].
  - destruct (externalNamed _) eqn:Hext; [discriminate|].
    destruct (declared g n) eqn:Hd; [discriminate|].
    intros Hu.
    assert (Hns : ∀ fields, u ≠ Struct fields).
    { intros fields ->. discriminate Hu. }
    assert (He : ∃ m, typescriptType g u = Err m ∧ msg = "named underlying: " +:+ m).
    { destruct u; try (by destruct (Hns fields));
        destruct (typescriptType g _) as [?|m|?] eqn:E; simpl in Hu;
        try discriminate; injection Hu as <-; by exists m. }
    destruct He as (m & Hm & ->).
    destruct (IH m Hm) as (c' & pre & Hp & Hc & ->).
    exists c', ("named underlying: " +:+ pre).
    split; [by constructor|]. split; [done|]. by rewrite append_assoc.
  - intros Hu. exists (TypeParam name c), EmptyString. split; [constructor|].
    assert (Hun : unmapped (TypeParam name c)).
    { constructor. intros embeddeds empty Heq. simpl in Heq.
      destruct c; try discriminate Heq; by inversion Heq; subst; discriminate Hu. }
    split; [done|].
    pose proof (unmapped_error _ Hun) as Hr. simpl in Hr, Hu.
    rewrite Hu in Hr. by injection Hr as ->.
Qed.

End MapperErrors.

(** X4. An error of the type mapper is the error at the first constituent
    without mapping, a non-empty interface, a type parameter without
    interface constraint, or a descriptor of an unknown kind, which the
    message names, behind one label for each step of the way to it:
    map key (for the key and for the value of a map alike), array,
    pointer, named underlying. *)
Theorem mapper_error_message (g : Package) (ty : Type_) (msg : string) :
  typescriptType g ty = Err msg ↔
  ∃ c pre, errorPath g ty c pre ∧ unmapped c ∧ msg = pre +:+ rootCause c.
Proof.
  split; [apply error_errorPath|].
  intros (c & pre & Hp & Hc & ->). by apply errorPath_error.
Qed.

(** The value of a map, a slice of channels: the error names the channel
    behind the labels of the map and of the slice. *)
Example mapper_error_nested :
  typescriptType emptyPkg
    (Map (Basic TString) (Slice (Chan SendRecv (Basic TInt))))
  = Err "map key: array: unknown type: chan int".
Proof. reflexivity. Qed.

(** ** Union builder *)

(** The loop of buildUnion collects the value types of the terms and the
    disjunction of their optionality. *)
Lemma unionTerms_spec (g : Package) (context : string) (terms : list (bool * Type_)) :
  ∀ (allTypes : list string) (optional : bool) (r : list string * bool),
    unionTerms g context terms allTypes optional = Ok r ↔
    ∃ tss, Forall2 (λ term ts, typescriptType g term.2 = Ok ts) terms tss ∧
           r = (allTypes ++ (ValueType <$> tss), optional || anyOptional tss).
Proof.
  induction terms as [|term rest IH]; intros allTypes optional r; simpl.
  - split.
    + intros [= <-]. exists []. split; [constructor|].
      by rewrite app_nil_r, orb_false_r.
    + intros (tss & Hall & ->). inversion Hall; subst. simpl.
      by rewrite app_nil_r, orb_false_r.
  - split.
    + intros H. apply bind_Ok in H as (ts & Hts & H). apply wrapErr_Ok in Hts.
      apply IH in H as (tss & Hall & ->).
      exists (ts :: tss). split; [by constructor|]. simpl.
      by rewrite <- app_assoc, orb_assoc.
    + intros (tss & Hall & ->). inversion Hall as [|? ts ? tss' Hts Hrest]; subst.
      rewrite Hts. simpl. apply IH. exists tss'. split; [done|]. simpl.
      by rewrite <- app_assoc, orb_assoc.
Qed.

(** X5. buildUnion returns a block exactly when every term of the union
    maps; the block is the position line and the alias of the name to
    the mapped terms joined by [ | ], in the order of the terms, and the
    name carries a question mark exactly when some term maps to an
    optional type. *)
Theorem buildUnion_block (g : Package) (name : string) (obj : Object)
    (terms : list (bool * Type_)) (block : string) :
  buildUnion g name obj terms = Ok block ↔
  ∃ tss, Forall2 (λ term ts, typescriptType g term.2 = Ok ts) terms tss ∧
         block = posLine obj +:+ "export type " +:+ name
                 +:+ (if anyOptional tss then "?" else EmptyString) +:+ " = "
                 +:+ join (ValueType <$> tss) " | " +:+ nl.
Proof.
  unfold buildUnion. split.
  - intros H. apply bind_Ok in H as ([allTypes optional] & Hloop & [= <-]).
    apply unionTerms_spec in Hloop as (tss & Hall & [= -> ->]).
    exists tss. split; [done|]. reflexivity.
  - intros (tss & Hall & ->).
    assert (Hloop : unionTerms g
              ("union " +:+ quote (typeString (Union terms)) +:+ " for "
               +:+ quote name +:+ " failed to get type") terms [] false
            = Ok ([] ++ (ValueType <$> tss), false || anyOptional tss)).
    { apply unionTerms_spec. by exists tss. }
    rewrite Hloop. reflexivity.
Qed.

(** The union of string and a pointer to int. *)
Example union_optional :
  buildUnion emptyPkg "Value" (TypeName sdkFile None)
             [(false, Basic TString); (false, Pointer (Basic TInt))]
  = Ok ("// From codersdk/types.go" +:+ nl +:+
        "export type Value? = string | number" +:+ nl).
Proof. vm_compute. reflexivity. Qed.

(** ** Struct renderer: the loop as a fold *)

Section StructFold.
Variable g : Package.

Lemma fieldStep_applyField (field : Field) (st st' : fieldsState) :
  fieldStep g field st = Ok st' ↔
  ∃ r, fieldLine g field = Ok r ∧
       st' = match r with Some lt => applyField st lt | None => st end.
Proof.
  unfold fieldStep, fieldLine.
  destruct (jsonDirective (fieldTag field)) as [[jsonName jsonOptional]|].
  - destruct (typescriptType g (fieldType field)) as [ts|m|m]; simpl.
    + destruct (typescriptDirective (fieldTag field) ts) as [ts'|]; split.
      * intros [= <-]. eexists. split; [reflexivity|]. reflexivity.
      * by intros (r & [= <-] & ->).
      * intros [= <-]. by eexists.
      * by intros (r & [= <-] & ->).
    + split; [discriminate|]. by intros (r & [=] & _).
    + split; [discriminate|]. by intros (r & [=] & _).
  - split.
    + intros [= <-]. by eexists.
    + by intros (r & [= <-] & ->).
Qed.

(** The second loop folds [applyField] over the printed fields. *)
Lemma fieldsLoop_fold (fields : list Field) :
  ∀ (i : nat) (ext : gmap nat bool) (st st' : fieldsState),
    (∀ j f, fields !! j = Some f →
            default false (ext !! (i + j)) = isExtended f) →
    fieldsLoop g i fields ext st = Ok st' →
    st' = fold_left applyField (printed g fields) st.
Proof.
  unfold printed.
  induction fields as [|f rest IH]; intros i ext st st' Hext; simpl.
  - by intros [= <-].
  - pose proof (Hext 0 f eq_refl) as H0. rewrite Nat.add_0_r in H0.
    assert (Hrest : ∀ j f', rest !! j = Some f' →
                            default false (ext !! (S i + j)) = isExtended f').
    { intros j f' Hj. specialize (Hext (S j) f' Hj).
      by replace (i + S j) with (S i + j) in Hext by lia. }
    rewrite H0. destruct (isExtended f) eqn:Hf.
    + intros Hloop. rewrite filter_cons_False by (unfold notExtended; congruence).
      by apply (IH (S i) ext).
    + intros Hloop. apply bind_Ok in Hloop as (st1 & Hstep & Hloop).
      rewrite filter_cons_True by done.
      apply fieldStep_applyField in Hstep as (r & Hline & ->).
      simpl. rewrite (keptLine_Ok _ _ _ Hline).
      rewrite (IH (S i) ext _ st' Hrest Hloop).
      by destruct r.
Qed.

Lemma buildStructState_fold (name : string) (obj : Object) (fields : list Field)
    (state : structTemplateState) :
  buildStructState g name obj fields = Ok state →
  Generics state = fsGenerics (fold_left applyField (printed g fields) noFields).
Proof.
  unfold buildStructState.
  destruct (extendsLoop_spec fields 0 [] ∅) as (_ & Hidx & _).
  { intros k _. apply lookup_empty. }
  destruct (extendsLoop 0 fields [] ∅) as [extends ext]. simpl in Hidx.
  intros H. apply bind_Ok in H as (fs & Hloop & [= <-]). simpl.
  by rewrite (fieldsLoop_fold fields 0 ext _ fs Hidx Hloop).
Qed.

End StructFold.

(** ** Struct renderer: generic parameters *)

Lemma fold_applyField_generics (tss : list (string * TypescriptType)) :
  ∀ (st : fieldsState) (seen : gset string),
    (∀ s, s ∈ seen ↔ is_Some (genericsUsed st !! s)) →
    fsGenerics (fold_left applyField tss st)
    = fsGenerics st ++ (genericParameter <$> firstUses seen (snd <$> tss)).
Proof.
  induction tss as [|[line ts] rest IH]; intros st seen Hseen; simpl.
  - by rewrite app_nil_r.
  - destruct (nonEmpty (GenericMapping ts)) eqn:Hg.
    + case_bool_decide as Hin.
      * rewrite (IH _ seen).
        -- unfold applyField. simpl. rewrite Hg.
           apply Hseen in Hin as [v Hv]. by rewrite Hv.
        -- intros s. unfold applyField. simpl. rewrite Hg.
           rewrite lookup_insert. case_decide as Hs; [|apply Hseen].
           subst s. split; [by eexists|done].
      * rewrite (IH _ ({[GenericMapping ts]} ∪ seen)).
        -- unfold applyField. simpl. rewrite Hg.
           assert (Hn : genericsUsed st !! GenericMapping ts = None).
           { apply eq_None_not_Some. by rewrite <- Hseen. }
           rewrite Hn. simpl. by rewrite <- app_assoc.
        -- intros s. unfold applyField. simpl. rewrite Hg.
           rewrite lookup_insert, elem_of_union, elem_of_singleton.
           case_decide as Hs.
           ++ subst s. split; [by eexists|by left].
           ++ rewrite Hseen. split; [by intros [?|?]; [congruence|]|by right].
    + rewrite (IH _ seen).
      * unfold applyField. simpl. by rewrite Hg.
      * intros s. unfold applyField. simpl. by rewrite Hg.
Qed.

Lemma firstUses_symbols (tss : list TypescriptType) :
  ∀ seen : gset string,
    NoDup (GenericMapping <$> firstUses seen tss) ∧
    (∀ ts, ts ∈ firstUses seen tss → (GenericMapping ts ∉ seen) ∧ ts ∈ tss) ∧
    (∀ ts, ts ∈ tss → GenericMapping ts ≠ EmptyString →
           GenericMapping ts ∈ seen ∨
           GenericMapping ts ∈ (GenericMapping <$> firstUses seen tss)).
Proof.
  induction tss as [|t rest IH]; intros seen; simpl.
  - split; [constructor|]. split; [by intros ts ?%elem_of_nil|by intros ts ?%elem_of_nil].
  - destruct (nonEmpty (GenericMapping t)) eqn:Hg.
    + case_bool_decide as Hin.
      * destruct (IH seen) as (Hnd & Hsub & Hall).
        split; [done|]. split.
        -- intros ts Hts. destruct (Hsub ts Hts). split; [done|by right].
        -- intros ts Hts Hne. apply elem_of_cons in Hts as [->|Hts]; [by left|].
           by apply Hall.
      * destruct (IH ({[GenericMapping t]} ∪ seen)) as (Hnd & Hsub & Hall).
        split; [|split].
        -- simpl. constructor; [|done]. intros Hdup.
           apply list_elem_of_fmap in Hdup as (ts & Heq & Hts).
           destruct (Hsub ts Hts) as [Hns _]. apply Hns. rewrite <- Heq.
           apply elem_of_union. left. by apply elem_of_singleton.
        -- intros ts Hts. apply elem_of_cons in Hts as [->|Hts].
           ++ split; [done|by left].
           ++ destruct (Hsub ts Hts) as [Hns ?]. split; [|by right].
              intros ?. apply Hns. apply elem_of_union. by right.
        -- intros ts Hts Hne. simpl. apply elem_of_cons in Hts as [->|Hts].
           ++ right. by left.
           ++ destruct (Hall ts Hts Hne) as [Hs|Hs].
              ** apply elem_of_union in Hs as [Hs|Hs]; [|by left].
                 apply elem_of_singleton in Hs. right. rewrite Hs. by left.
              ** right. by right.
    + destruct (IH seen) as (Hnd & Hsub & Hall).
      split; [done|]. split.
      * intros ts Hts. destruct (Hsub ts Hts). split; [done|by right].
      * intros ts Hts Hne. apply elem_of_cons in Hts as [->|Hts].
        -- apply nonEmpty_false in Hg. by destruct Hne.
        -- by apply Hall.
Qed.

(** X6. The generic parameters of a record block are [S extends C], one
    for each generic symbol S that a printed field binds, in the order
    of the first uses, with the constraint C of the first use: no symbol
    has two parameters, and every symbol that a printed field binds has
    one. *)
Theorem generic_parameters_once (g : Package) (name : string) (obj : Object)
    (fields : list Field) (state : structTemplateState) :
  buildStructState g name obj fields = Ok state →
  Generics state
  = genericParameter <$> firstUses ∅ (snd <$> printed g fields) ∧
  NoDup (GenericMapping <$> firstUses ∅ (snd <$> printed g fields)) ∧
  (∀ ts, ts ∈ firstUses ∅ (snd <$> printed g fields) →
         ts ∈ (snd <$> printed g fields)) ∧
  (∀ ts, ts ∈ (snd <$> printed g fields) → GenericMapping ts ≠ EmptyString →
         GenericMapping ts
         ∈ (GenericMapping <$> firstUses ∅ (snd <$> printed g fields))).
Proof.
  intros H. apply buildStructState_fold in H.
  destruct (firstUses_symbols (snd <$> printed g fields) ∅) as (Hnd & Hsub & Hall).
  split; [|split; [done|split]].
  - rewrite H. rewrite (fold_applyField_generics _ noFields ∅); [done|].
    intros s. simpl. rewrite lookup_empty. split; [set_solver|by intros [? ?]].
  - intros ts Hts. by destruct (Hsub ts Hts).
  - intros ts Hts Hne. destruct (Hall ts Hts Hne) as [?|?]; [set_solver|done].
Qed.

(** A record whose two fields are of the type parameter T has the one
    parameter of T. *)
Lemma generic_parameters_once_witness :
  Generics (mkState ("// From codersdk/types.go" +:+ nl) "Pair"
              ["  readonly first: T"; "  readonly second: T"]
              ["T extends Constraint"] EmptyString EmptyString)
  = genericParameter <$> firstUses ∅ (snd <$> printed emptyPkg pairFields) ∧
  NoDup (GenericMapping <$> firstUses ∅ (snd <$> printed emptyPkg pairFields)) ∧
  (∀ ts, ts ∈ firstUses ∅ (snd <$> printed emptyPkg pairFields) →
         ts ∈ (snd <$> printed emptyPkg pairFields)) ∧
  (∀ ts, ts ∈ (snd <$> printed emptyPkg pairFields) →
         GenericMapping ts ≠ EmptyString →
         GenericMapping ts
         ∈ (GenericMapping <$> firstUses ∅ (snd <$> printed emptyPkg pairFields))).
Proof.
  apply (generic_parameters_once emptyPkg "Pair" (TypeName sdkFile None) pairFields).
  vm_compute. reflexivity.
Defined.

(** ** Struct renderer: failures *)

Section StructFailures.
Variable g : Package.

Lemma jsonDirective_None (f : Field) :
  jsonDirective (fieldTag f) = None ↔ jsonOmitted f = true.
Proof.
  unfold jsonDirective, jsonOmitted.
  destruct (structtag.Get (fieldTag f) "json") as [t|]; [|done].
  by destruct (String.eqb (structtag.Name t) "-").
Qed.

(** The line of a field fails exactly when the json tag keeps the field
    and its type has no mapping. *)
Lemma fieldLine_result (f : Field) :
  match fieldLine g f with
  | Ok _ => jsonOmitted f = true ∨ isOk (typescriptType g (fieldType f)) = true
  | Err msg => jsonOmitted f = false ∧
               ∃ m, typescriptType g (fieldType f) = Err m ∧
                    msg = "typescript type: " +:+ m
  | Panic _ => False
  end.
Proof.
  unfold fieldLine.
  destruct (jsonDirective (fieldTag f)) as [[jsonName jsonOptional]|] eqn:Hj.
  - assert (Hk : jsonOmitted f = false).
    { destruct (jsonOmitted f) eqn:E; [|done].
      apply jsonDirective_None in E. congruence. }
    destruct (typescriptType g (fieldType f)) as [ts|m|m] eqn:Hty; simpl.
    + destruct (typescriptDirective (fieldTag f) ts); by right.
    + split; [done|]. by exists m.
    + by apply typescriptType_no_panic in Hty.
  - left. by apply jsonDirective_None.
Qed.

Lemma fieldStep_result (f : Field) (st : fieldsState) :
  match fieldStep g f st with
  | Ok _ => isOk (fieldLine g f) = true
  | Err msg => fieldLine g f = Err msg
  | Panic _ => False
  end.
Proof.
  pose proof (fieldLine_result f) as Hl.
  destruct (fieldStep g f st) as [st'|msg|msg] eqn:E.
  - apply fieldStep_applyField in E as (r & -> & _). reflexivity.
  - unfold fieldStep, fieldLine in *.
    destruct (jsonDirective (fieldTag f)) as [[jsonName jsonOptional]|];
      [|discriminate].
    destruct (typescriptType g (fieldType f)) as [ts|m|m]; simpl in *;
      [|congruence|done].
    destruct (typescriptDirective (fieldTag f) ts); discriminate.
  - unfold fieldStep, fieldLine in *.
    destruct (jsonDirective (fieldTag f)) as [[jsonName jsonOptional]|];
      [|discriminate].
    destruct (typescriptType g (fieldType f)) as [ts|m|m]; simpl in *;
      [|congruence|done].
    destruct (typescriptDirective (fieldTag f) ts); discriminate.
Qed.

(** The second loop stops at the first field, not extended, whose line
    fails. *)
Lemma fieldsLoop_result (fields : list Field) :
  ∀ (i : nat) (ext : gmap nat bool) (st : fieldsState),
    (∀ j f, fields !! j = Some f →
            default false (ext !! (i + j)) = isExtended f) →
    match fieldsLoop g i fields ext st with
    | Ok _ => ∀ f, f ∈ fields → isExtended f = false → isOk (fieldLine g f) = true
    | Err msg => ∃ f, f ∈ fields ∧ isExtended f = false ∧ fieldLine g f = Err msg
    | Panic _ => False
    end.
Proof.
  induction fields as [|f rest IH]; intros i ext st Hext; simpl.
  - intros f Hf. by apply elem_of_nil in Hf.
  - pose proof (Hext 0 f eq_refl) as H0. rewrite Nat.add_0_r in H0.
    assert (Hrest : ∀ j f', rest !! j = Some f' →
                            default false (ext !! (S i + j)) = isExtended f').
    { intros j f' Hj. specialize (Hext (S j) f' Hj).
      by replace (i + S j) with (S i + j) in Hext by lia. }
    rewrite H0. destruct (isExtended f) eqn:Hf.
    + specialize (IH (S i) ext st Hrest).
      destruct (fieldsLoop g (S i) rest ext st) as [st'|msg|msg]; [| |done].
      * intros f' Hf' Hne. apply elem_of_cons in Hf' as [->|Hf']; [congruence|].
        by apply IH.
      * destruct IH as (f' & Hin & Hne & Hl). exists f'.
        split; [by right|done].
    + pose proof (fieldStep_result f st) as Hs.
      destruct (fieldStep g f st) as [st1|msg|msg]; simpl; [| |done].
      * specialize (IH (S i) ext st1 Hrest).
        destruct (fieldsLoop g (S i) rest ext st1) as [st'|msg|msg]; [| |done].
        -- intros f' Hf' Hne. apply elem_of_cons in Hf' as [->|Hf']; [done|].
           by apply IH.
        -- destruct IH as (f' & Hin & Hne & Hl). exists f'.
           split; [by right|done].
      * exists f. split; [by left|done].
Qed.

Lemma buildStructState_result (name : string) (obj : Object) (fields : list Field) :
  match buildStructState g name obj fields with
  | Ok _ => ∀ f, f ∈ fields → isExtended f = false → isOk (fieldLine g f) = true
  | Err msg => ∃ f, f ∈ fields ∧ isExtended f = false ∧ fieldLine g f = Err msg
  | Panic _ => False
  end.
Proof.
  unfold buildStructState.
  destruct (extendsLoop_spec fields 0 [] ∅) as (_ & Hidx & _).
  { intros k _. apply lookup_empty. }
  destruct (extendsLoop 0 fields [] ∅) as [extends ext]. simpl in Hidx.
  pose proof (fieldsLoop_result fields 0 ext
                (mkFieldsState [] [] EmptyString ∅) Hidx) as Hl.
  by destruct (fieldsLoop g 0 fields ext _).
Qed.

End StructFailures.

(** X7. buildStruct returns a block exactly when the type of every
    field maps, the fields that are extended or that a json tag names -
    apart; an error of buildStruct is the error of the type mapper for
    such a field behind the label typescript type. The type of an
    extended field and of a field with json:"-" is not mapped, while a
    field with typescript:"-" is omitted only after its type was
    mapped, so that an unmapped type behind it still fails the record. *)
Theorem buildStruct_fails_exactly (g : Package) (name : string) (obj : Object)
    (fields : list Field) :
  (isOk (buildStruct g name obj fields) = true ↔
   ∀ f, f ∈ fields → isExtended f = false → jsonOmitted f = false →
        isOk (typescriptType g (fieldType f)) = true) ∧
  (∀ msg, buildStruct g name obj fields = Err msg →
          ∃ f m, f ∈ fields ∧ isExtended f = false ∧ jsonOmitted f = false ∧
                 typescriptType g (fieldType f) = Err m ∧
                 msg = "typescript type: " +:+ m).
Proof.
  pose proof (buildStructState_result g name obj fields) as Hr.
  unfold buildStruct.
  destruct (buildStructState g name obj fields) as [state|msg|msg]; simpl;
    [| |done].
  - split; [|discriminate].
    split; [|done]. intros _ f Hf Hne Hj.
    specialize (Hr f Hf Hne). pose proof (fieldLine_result g f) as Hl.
    destruct (fieldLine g f); [|done..].
    destruct Hl as [?|?]; [congruence|done].
  - destruct Hr as (f & Hf & Hne & Hl).
    pose proof (fieldLine_result g f) as Hres. rewrite Hl in Hres.
    destruct Hres as (Hj & m & Hm & ->).
    split.
    + split; [discriminate|]. intros Hall.
      specialize (Hall f Hf Hne Hj). by rewrite Hm in Hall.
    + intros msg' [= <-]. by exists f, m.
Qed.

(** A function-typed field with the tag typescript:"-" makes the record
    fail; with the tag json:"-" the record is built without it. *)
Example typescript_dash_still_maps :
  buildStruct emptyPkg "Handler" (TypeName sdkFile None) [hookField]
  = Err "typescript type: unknown type: func()" ∧
  buildStruct emptyPkg "Handler" (TypeName sdkFile None) [hiddenHookField]
  = Ok ("// From codersdk/types.go" +:+ nl +:+
        "export interface Handler {" +:+ nl +:+ nl +:+ "}" +:+ nl).
Proof. split; vm_compute; reflexivity. Qed.

(** ** Struct renderer: omitempty and notnull *)

(** X8. A field whose json tag lists omitempty first is printed optional
    whatever its typescript tag says: notnull and a type named in the
    typescript tag change the printed type, not the question mark that
    omitempty gives. The printed type is the one named in the
    typescript tag when it names one. *)
Theorem omitempty_beats_notnull (g : Package) (field : Field) (st st' : fieldsState)
    (t : structtag.Tag) :
  fieldStep g field st = Ok st' →
  structtag.Get (fieldTag field) "json" = Some t →
  firstOptionIs (structtag.Options t) "omitempty" = true →
  omitted field = false →
  ∃ vt, fsFields st' = fsFields st ++
          [indent +:+ "readonly " +:+ printedName field +:+ "?" +:+ ": " +:+ vt] ∧
        (∀ tt, structtag.Get (fieldTag field) "typescript" = Some tt →
               structtag.Name tt ≠ EmptyString → vt = structtag.Name tt).
Proof.
  intros Hstep Hj Ho Hom.
  unfold omitted in Hom. rewrite Hj in Hom. apply orb_false_iff in Hom as [Hn Htt].
  unfold fieldStep, jsonDirective, typescriptDirective in Hstep.
  unfold printedName. rewrite Hj in *. rewrite Hn, Ho in Hstep.
  apply bind_Ok in Hstep as (ts & _ & Hstep).
  destruct (structtag.Get (fieldTag field) "typescript") as [tt|].
  - rewrite Htt in Hstep. simpl in Hstep.
    destruct (nonEmpty (structtag.Name tt)) eqn:Hne;
      destruct (firstOptionIs (structtag.Options tt) "notnull");
      injection Hstep as <-; simpl; eexists; (split; [reflexivity|]);
      intros tt' [= <-] Hname; try reflexivity;
      apply nonEmpty_false in Hne; by destruct Hname.
  - injection Hstep as <-. simpl. eexists. split; [reflexivity|]. by intros tt [=].
Qed.

(** Size *int, json:"size,omitempty" typescript:",notnull". *)
Lemma omitempty_beats_notnull_witness :
  ∃ vt, fsFields (mkFieldsState ["  readonly size?: number"] [] EmptyString ∅)
        = fsFields noFields ++
          [indent +:+ "readonly " +:+ printedName sizeField +:+ "?" +:+ ": " +:+ vt] ∧
        (∀ tt, structtag.Get (fieldTag sizeField) "typescript" = Some tt →
               structtag.Name tt ≠ EmptyString → vt = structtag.Name tt).
Proof.
  apply (omitempty_beats_notnull emptyPkg sizeField noFields
           (mkFieldsState ["  readonly size?: number"] [] EmptyString ∅)
           (structtag.mkTag "json" "size" ["omitempty"])).
  - vm_compute. reflexivity.
  - reflexivity.
  - reflexivity.
  - reflexivity.
Defined.

(** ** Classifier: one declaration at a time *)

Section Declarations.
Variable g : Package.
Variable ignored : gset string.

(** Whether a step succeeds depends on the declaration only, not on
    what was collected before. *)
Lemma classify_isOk (n : string) (acc : collected) :
  isOk (classify g ignored n acc)
  = match Scope g !! n with
    | None => true
    | Some obj => bool_decide (n ∈ ignored) || declarationOk g n obj
    end.
Proof.
  unfold classify. destruct (Scope g !! n) as [obj|]; [|done].
  destruct obj as [f [ty|]|f [ty|]|f [ty|] val|f [ty|]]; simpl;
    destruct (bool_decide (n ∈ ignored)); simpl; try done.
  - destruct ty; try done.
    destruct ty; try done.
    + by destruct (buildStruct g n _ fields).
    + destruct embeddeds as [|e [|e' rest]]; try done.
      unfold unionOf. by destruct (buildUnion g n _ _).
    + by destruct (typescriptType g (Map ty1 ty2)).
  - by destruct ty.
Qed.

Lemma classifyAll_isOk (names : list string) :
  ∀ acc, isOk (classifyAll g ignored names acc) = true ↔
         ∀ n, n ∈ names → isOk (classify g ignored n nothing) = true.
Proof.
  induction names as [|n rest IH]; intros acc; simpl.
  - split; [by intros _ n ?%elem_of_nil|done].
  - pose proof (classify_isOk n acc) as Hn.
    rewrite <- (classify_isOk n nothing) in Hn.
    destruct (classify g ignored n acc) as [acc1|m|m]; simpl in *.
    + rewrite IH. split.
      * intros H k Hk. apply elem_of_cons in Hk as [->|Hk]; [done|by apply H].
      * intros H k Hk. apply H. by right.
    + split; [discriminate|]. intros H.
      specialize (H n (list_elem_of_here _ _)). congruence.
    + split; [discriminate|]. intros H.
      specialize (H n (list_elem_of_here _ _)). congruence.
Qed.

Ltac shape_done :=
  repeat split; try done;
  try (intros [? ?]; done); try (intros [?|?]; done);
  try (intros _; by eexists); try (intros _; by left); try (intros _; by right).

(** What a step leaves at its identifier, from collections that hold
    nothing for it. *)
Lemma classify_typeName (n f p nm : string) (under : Type_) (acc acc' : collected) :
  Scope g !! n = Some (TypeName f (Some (Named p nm under))) →
  n ∉ ignored →
  classify g ignored n acc = Ok acc' →
  structs acc !! n = None → generics acc !! n = None → enums acc !! n = None →
  shapeOf under ≠ unsupported ∧
  (is_Some (structs acc' !! n) ↔ shapeOf under = record ∨ shapeOf under = mapAlias) ∧
  (is_Some (enums acc' !! n) ↔ shapeOf under = enumBase) ∧
  (is_Some (generics acc' !! n) ↔ shapeOf under = genericUnion).
Proof.
  intros Hs Hi H Hst Hge Hen. unfold classify in H. rewrite Hs in H. simpl in H.
  rewrite bool_decide_eq_false_2 in H by done. unfold is_Some.
  destruct under as [bs|len e|e|fields|e|vars|ps rs|terms|embeddeds empty
                    |k v|dir e|p' n' u|name c]; simpl in *; try discriminate.
  - simplify_eq/=. rewrite lookup_insert_eq, Hst, Hge. shape_done.
  - simplify_eq. rewrite Hst, Hge, Hen. shape_done.
  - simplify_eq. rewrite Hst, Hge, Hen. shape_done.
  - inv_ok. subst acc'. simpl. rewrite lookup_insert_eq, Hge, Hen. shape_done.
  - simplify_eq. rewrite Hst, Hge, Hen. shape_done.
  - destruct embeddeds as [|e [|e' rest]].
    + simplify_eq. rewrite Hst, Hge, Hen. shape_done.
    + inv_ok. subst acc'. simpl. rewrite lookup_insert_eq, Hst, Hen. shape_done.
    + simplify_eq. rewrite Hst, Hge, Hen. shape_done.
  - inv_ok. subst acc'. simpl. rewrite lookup_insert_eq, Hge, Hen. shape_done.
Qed.

(** A step leaves nothing at its identifier unless the identifier is
    bound to a type name of a named type that the ignore set does not
    list. *)
Lemma classify_block (n : string) (acc acc' : collected) :
  classify g ignored n acc = Ok acc' →
  structs acc !! n = None → generics acc !! n = None → enums acc !! n = None →
  is_Some (structs acc' !! n) ∨ is_Some (generics acc' !! n)
  ∨ is_Some (enums acc' !! n) →
  (n ∉ ignored) ∧
  ∃ f p nm under, Scope g !! n = Some (TypeName f (Some (Named p nm under))).
Proof.
  intros H Hst Hge Hen Hsome.
  assert (Hnone : acc' = acc → False).
  { intros ->. rewrite Hst, Hge, Hen in Hsome.
    by destruct Hsome as [[? ?]|[[? ?]|[? ?]]]. }
  destruct (decide (n ∈ ignored)) as [Hi|Hi].
  { rewrite classify_ignored in H by done. injection H as <-. by destruct Hnone. }
  split; [done|]. unfold classify in H.
  destruct (Scope g !! n) as [obj|]; [|injection H as <-; by destruct Hnone].
  destruct obj as [f [ty|]|f [ty|]|f [ty|] val|f [ty|]]; simpl in H;
    rewrite ?bool_decide_eq_false_2 in H by done;
    try (injection H as <-; by destruct Hnone).
  - destruct ty; try discriminate. by repeat eexists.
  - destruct ty; try (injection H as <-; by destruct Hnone).
    injection H as <-. simpl in Hsome. rewrite Hst, Hge, Hen in Hsome.
    by destruct Hsome as [[? ?]|[[? ?]|[? ?]]].
Qed.

End Declarations.

(** ** Classifier: the buckets of a run *)

Section Run.
Variable g : Package.

Lemma classify_struct (n f p nm : string) (fields : list Field) (acc acc' : collected) :
  Scope g !! n = Some (TypeName f (Some (Named p nm (Struct fields)))) →
  n ∉ ignoredTypes g →
  classify g (ignoredTypes g) n acc = Ok acc' →
  ∃ block, buildStruct g n (TypeName f (Some (Named p nm (Struct fields)))) fields
           = Ok block ∧
           structs acc' !! n = Some block ∧
           generics acc' !! n = generics acc !! n ∧
           enums acc' !! n = enums acc !! n.
Proof.
  intros Hs Hi H. unfold classify in H. rewrite Hs in H. simpl in H.
  rewrite bool_decide_eq_false_2 in H by done.
  apply bind_Ok in H as (block & Hb & [= <-]). apply wrapErr_Ok in Hb.
  exists block. split; [done|]. simpl. by rewrite lookup_insert_eq.
Qed.

Lemma classify_basic (n f p nm : string) (bs : Basic_) (acc acc' : collected) :
  Scope g !! n = Some (TypeName f (Some (Named p nm (Basic bs)))) →
  n ∉ ignoredTypes g →
  classify g (ignoredTypes g) n acc = Ok acc' →
  enums acc' !! n = Some (TypeName f (Some (Named p nm (Basic bs)))) ∧
  structs acc' !! n = structs acc !! n ∧
  generics acc' !! n = generics acc !! n.
Proof.
  intros Hs Hi H. unfold classify in H. rewrite Hs in H. simpl in H.
  rewrite bool_decide_eq_false_2 in H by done. injection H as <-. simpl.
  by rewrite lookup_insert_eq.
Qed.

Lemma classify_interface (n f p nm : string) (embedded : Type_) (empty : bool)
    (acc acc' : collected) :
  Scope g !! n = Some (TypeName f (Some (Named p nm (Interface [embedded] empty)))) →
  n ∉ ignoredTypes g →
  classify g (ignoredTypes g) n acc = Ok acc' →
  ∃ block, buildUnion g n (TypeName f (Some (Named p nm (Interface [embedded] empty))))
                      (unionOf embedded) = Ok block ∧
           generics acc' !! n = Some block ∧
           structs acc' !! n = structs acc !! n ∧
           enums acc' !! n = enums acc !! n.
Proof.
  intros Hs Hi H. unfold classify in H. rewrite Hs in H. simpl in H.
  rewrite bool_decide_eq_false_2 in H by done.
  apply bind_Ok in H as (block & Hb & [= <-]). apply wrapErr_Ok in Hb.
  exists block. split; [done|]. simpl. by rewrite lookup_insert_eq.
Qed.

Lemma enums_is_Some (out : TypescriptTypes.t) (acc : collected) (n : string) :
  (∀ k, TypescriptTypes.Enums out !! k
        = (λ v, enumBlock k v (enumMembers g k)) <$> enums acc !! k) →
  is_Some (TypescriptTypes.Enums out !! n) ↔ is_Some (enums acc !! n).
Proof. intros ->. apply fmap_is_Some. Qed.

End Run.

(** X9. In a successful run a name has a block only if the scope binds
    it to a declaration of a named type that the ignore set does not
    list, and then in the one bucket of its shape: the records bucket
    for a record or a map, the enums bucket for a basic type, the
    generic-unions bucket for an interface that embeds exactly one type.
    No name has blocks in two buckets, and variables, functions and
    constants have none. *)
Theorem block_in_bucket_of_shape (g : Package) (out : TypescriptTypes.t) (n : string) :
  generateAll g = Ok out →
  is_Some (TypescriptTypes.Types out !! n)
  ∨ is_Some (TypescriptTypes.Enums out !! n)
  ∨ is_Some (TypescriptTypes.Generics out !! n) →
  (n ∉ ignoredTypes g) ∧
  ∃ f p nm under,
    Scope g !! n = Some (TypeName f (Some (Named p nm under))) ∧
    (is_Some (TypescriptTypes.Types out !! n)
     ↔ shapeOf under = record ∨ shapeOf under = mapAlias) ∧
    (is_Some (TypescriptTypes.Enums out !! n) ↔ shapeOf under = enumBase) ∧
    (is_Some (TypescriptTypes.Generics out !! n) ↔ shapeOf under = genericUnion).
Proof.
  intros H Hsome.
  apply generateAll_collected in H as (acc & Hacc & HT & HG & He).
  pose proof (enums_is_Some g out acc n He) as Hen'.
  rewrite Hen', HT, HG in Hsome.
  destruct (walk_at g acc n Hacc) as (acc1 & acc2 & Hstep & H1 & H2).
  destruct H1 as (H1s & H1g & H1e). destruct H2 as (H2s & H2g & H2e).
  simpl in H1s, H1g, H1e.
  rewrite lookup_empty in H1s. rewrite lookup_empty in H1g.
  rewrite lookup_empty in H1e.
  rewrite H2s, H2g, H2e in Hsome.
  destruct (classify_block g _ n acc1 acc2 Hstep H1s H1g H1e) as (Hi & f & p & nm & u & Hs).
  { tauto. }
  split; [done|]. exists f, p, nm, u. split; [done|].
  destruct (classify_typeName g _ _ _ _ _ _ _ _ Hs Hi Hstep H1s H1g H1e)
    as (_ & HA & HB & HC).
  rewrite Hen', HT, HG, H2s, H2g, H2e.
  exact (conj HA (conj HB HC)).
Qed.

(** The enum Color of the package of colors. *)
Lemma block_in_bucket_of_shape_witness :
  ("Color" ∉ ignoredTypes colorPkg) ∧
  ∃ f p nm under,
    Scope colorPkg !! "Color" = Some (TypeName f (Some (Named p nm under))) ∧
    (is_Some (TypescriptTypes.Types
                (TypescriptTypes.mk ∅
                   {[ "Color" := "// From codersdk/color.go" +:+ nl +:+
                                 "export type Color = " +:+ quote "blue" +:+ " | "
                                 +:+ quote "green" +:+ " | " +:+ quote "red" +:+ nl ]}
                   ∅) !! "Color")
     ↔ shapeOf under = record ∨ shapeOf under = mapAlias) ∧
    (is_Some (TypescriptTypes.Enums
                (TypescriptTypes.mk ∅
                   {[ "Color" := "// From codersdk/color.go" +:+ nl +:+
                                 "export type Color = " +:+ quote "blue" +:+ " | "
                                 +:+ quote "green" +:+ " | " +:+ quote "red" +:+ nl ]}
                   ∅) !! "Color")
     ↔ shapeOf under = enumBase) ∧
    (is_Some (TypescriptTypes.Generics
                (TypescriptTypes.mk ∅
                   {[ "Color" := "// From codersdk/color.go" +:+ nl +:+
                                 "export type Color = " +:+ quote "blue" +:+ " | "
                                 +:+ quote "green" +:+ " | " +:+ quote "red" +:+ nl ]}
                   ∅) !! "Color")
     ↔ shapeOf under = genericUnion).
Proof.
  apply (block_in_bucket_of_shape colorPkg _ "Color").
  - vm_compute. reflexivity.
  - right. left. vm_compute. by eexists.
Defined.

(** X10. A run succeeds exactly when every declaration that the ignore
    set does not list is, taken alone, one that the classifier accepts:
    a type name is of a named type of a supported shape, and its record,
    map or union renders without error. Success does not depend on the
    other declarations, and a declaration that the ignore set lists
    never fails the run. *)
Theorem run_succeeds_exactly (g : Package) :
  isOk (generateAll g) = true ↔
  ∀ n obj, Scope g !! n = Some obj → n ∉ ignoredTypes g →
           declarationOk g n obj = true.
Proof.
  assert (Hrun : isOk (generateAll g)
                 = isOk (classifyAll g (ignoredTypes g) (scopeNames g) nothing)).
  { unfold generateAll. fold nothing. by destruct (classifyAll _ _ _ _). }
  rewrite Hrun, classifyAll_isOk. split.
  - intros H n obj Hs Hi.
    assert (Hn : n ∈ scopeNames g) by (apply scopeNames_elem_of; by eexists).
    specialize (H n Hn). rewrite classify_isOk, Hs in H.
    by rewrite bool_decide_eq_false_2 in H by done.
  - intros H n Hn. rewrite classify_isOk.
    destruct (Scope g !! n) as [obj|] eqn:Hs; [|done].
    case_bool_decide as Hi; [done|]. simpl. by apply H.
Qed.

(** X11. In a successful run every declaration of a record that the
    ignore set does not list has the block that buildStruct renders for
    it in the records bucket, and no block in another bucket. *)
Theorem record_has_block (g : Package) (out : TypescriptTypes.t)
    (n f p nm : string) (fields : list Field) :
  generateAll g = Ok out →
  Scope g !! n = Some (TypeName f (Some (Named p nm (Struct fields)))) →
  n ∉ ignoredTypes g →
  ∃ block,
    buildStruct g n (TypeName f (Some (Named p nm (Struct fields)))) fields = Ok block ∧
    TypescriptTypes.Types out !! n = Some block ∧
    TypescriptTypes.Enums out !! n = None ∧
    TypescriptTypes.Generics out !! n = None.
Proof.
  intros H Hs Hi.
  apply generateAll_collected in H as (acc & Hacc & HT & HG & He).
  destruct (walk_at g acc n Hacc) as (acc1 & acc2 & Hstep & H1 & H2).
  destruct (classify_struct g _ _ _ _ _ _ _ Hs Hi Hstep) as (block & Hb & Hst & Hg & Hen).
  destruct H1 as (_ & H1g & H1e). destruct H2 as (H2s & H2g & H2e).
  simpl in H1g, H1e. rewrite lookup_empty in H1g. rewrite lookup_empty in H1e.
  exists block. split; [done|]. split; [by rewrite HT, H2s|].
  split; [by rewrite He, H2e, Hen, H1e|by rewrite HG, H2g, Hg, H1g].
Qed.

(** The record Foo. *)
Lemma record_has_block_witness :
  ∃ block,
    buildStruct fooPkg "Foo"
      (TypeName "/src/codersdk/foo.go"
         (Some (Named "github.com/coder/coder/codersdk" "Foo" (Struct fooFields))))
      fooFields = Ok block ∧
    TypescriptTypes.Types
      (TypescriptTypes.mk
         {[ "Foo" := "// From codersdk/foo.go" +:+ nl +:+
                     "export interface Foo {" +:+ nl +:+
                     "  readonly Bar: string" +:+ nl +:+
                     "  readonly Baz?: number" +:+ nl +:+ "}" +:+ nl ]} ∅ ∅)
      !! "Foo" = Some block ∧
    TypescriptTypes.Enums
      (TypescriptTypes.mk
         {[ "Foo" := "// From codersdk/foo.go" +:+ nl +:+
                     "export interface Foo {" +:+ nl +:+
                     "  readonly Bar: string" +:+ nl +:+
                     "  readonly Baz?: number" +:+ nl +:+ "}" +:+ nl ]} ∅ ∅)
      !! "Foo" = None ∧
    TypescriptTypes.Generics
      (TypescriptTypes.mk
         {[ "Foo" := "// From codersdk/foo.go" +:+ nl +:+
                     "export interface Foo {" +:+ nl +:+
                     "  readonly Bar: string" +:+ nl +:+
                     "  readonly Baz?: number" +:+ nl +:+ "}" +:+ nl ]} ∅ ∅)
      !! "Foo" = None.
Proof.
  apply (record_has_block fooPkg _ "Foo" "/src/codersdk/foo.go"
           "github.com/coder/coder/codersdk" "Foo" fooFields).
  - vm_compute. reflexivity.
  - vm_compute. reflexivity.
  - vm_compute. intros H. discriminate H.
Defined.

(** X12. In a successful run every declaration of a basic type that the
    ignore set does not list has its block in the enums bucket, and no
    block in another bucket, also when no constant is typed with it: the
    block then reads [export type Name = ] with nothing after the equals
    sign. *)
Theorem enum_base_has_block (g : Package) (out : TypescriptTypes.t)
    (n f p nm : string) (bs : Basic_) :
  generateAll g = Ok out →
  Scope g !! n = Some (TypeName f (Some (Named p nm (Basic bs)))) →
  n ∉ ignoredTypes g →
  TypescriptTypes.Enums out !! n
  = Some (posLine (TypeName f None) +:+ "export type " +:+ n +:+ " = "
          +:+ join (sortStrings (enumValues g n)) " | " +:+ nl) ∧
  (enumValues g n = [] →
   TypescriptTypes.Enums out !! n
   = Some (posLine (TypeName f None) +:+ "export type " +:+ n +:+ " = "
           +:+ EmptyString +:+ nl)) ∧
  TypescriptTypes.Types out !! n = None ∧
  TypescriptTypes.Generics out !! n = None.
Proof.
  intros H Hs Hi.
  apply generateAll_collected in H as (acc & Hacc & HT & HG & He).
  destruct (walk_at g acc n Hacc) as (acc1 & acc2 & Hstep & H1 & H2).
  destruct (classify_basic g _ _ _ _ _ _ _ Hs Hi Hstep) as (Hen & Hst & Hg).
  destruct H1 as (H1s & H1g & _). destruct H2 as (H2s & H2g & H2e).
  simpl in H1s, H1g. rewrite lookup_empty in H1s. rewrite lookup_empty in H1g.
  assert (Hblock : TypescriptTypes.Enums out !! n
                   = Some (posLine (TypeName f None) +:+ "export type " +:+ n +:+ " = "
                           +:+ join (sortStrings (enumValues g n)) " | " +:+ nl)).
  { rewrite He, H2e, Hen. reflexivity. }
  split; [done|]. split.
  - intros Hv. rewrite Hblock, Hv. reflexivity.
  - split; [by rewrite HT, H2s, Hst, H1s|by rewrite HG, H2g, Hg, H1g].
Qed.

(** The type Level, with no constant. *)
Lemma enum_base_has_block_witness :
  TypescriptTypes.Enums
    (TypescriptTypes.mk ∅
       {[ "Level" := "// From codersdk/level.go" +:+ nl +:+ "export type Level = " +:+ nl ]}
       ∅) !! "Level"
  = Some (posLine (TypeName "/src/codersdk/level.go" None)
          +:+ "export type " +:+ "Level" +:+ " = "
          +:+ join (sortStrings (enumValues levelPkg "Level")) " | " +:+ nl) ∧
  (enumValues levelPkg "Level" = [] →
   TypescriptTypes.Enums
     (TypescriptTypes.mk ∅
        {[ "Level" := "// From codersdk/level.go" +:+ nl +:+ "export type Level = " +:+ nl ]}
        ∅) !! "Level"
   = Some (posLine (TypeName "/src/codersdk/level.go" None)
           +:+ "export type " +:+ "Level" +:+ " = " +:+ EmptyString +:+ nl)) ∧
  TypescriptTypes.Types
    (TypescriptTypes.mk ∅
       {[ "Level" := "// From codersdk/level.go" +:+ nl +:+ "export type Level = " +:+ nl ]}
       ∅) !! "Level" = None ∧
  TypescriptTypes.Generics
    (TypescriptTypes.mk ∅
       {[ "Level" := "// From codersdk/level.go" +:+ nl +:+ "export type Level = " +:+ nl ]}
       ∅) !! "Level" = None.
Proof.
  apply (enum_base_has_block levelPkg _ "Level" "/src/codersdk/level.go"
           "github.com/coder/coder/codersdk" "Level" TString).
  - vm_compute. reflexivity.
  - vm_compute. reflexivity.
  - vm_compute. intros H. discriminate H.
Defined.

(** X13. In a successful run every declaration of an interface that
    embeds exactly one type, and that the ignore set does not list, has
    the block that buildUnion renders in the generic-unions bucket, and
    no block in another bucket; the terms are those of the embedded
    union, or the embedded type itself as the one term when it is not a
    union. *)
Theorem constraint_has_block (g : Package) (out : TypescriptTypes.t)
    (n f p nm : string) (embedded : Type_) (empty : bool) :
  generateAll g = Ok out →
  Scope g !! n = Some (TypeName f (Some (Named p nm (Interface [embedded] empty)))) →
  n ∉ ignoredTypes g →
  ∃ block,
    buildUnion g n (TypeName f (Some (Named p nm (Interface [embedded] empty))))
               (unionOf embedded) = Ok block ∧
    TypescriptTypes.Generics out !! n = Some block ∧
    TypescriptTypes.Types out !! n = None ∧
    TypescriptTypes.Enums out !! n = None.
Proof.
  intros H Hs Hi.
  apply generateAll_collected in H as (acc & Hacc & HT & HG & He).
  destruct (walk_at g acc n Hacc) as (acc1 & acc2 & Hstep & H1 & H2).
  destruct (classify_interface g _ _ _ _ _ _ _ _ Hs Hi Hstep)
    as (block & Hb & Hg & Hst & Hen).
  destruct H1 as (H1s & _ & H1e). destruct H2 as (H2s & H2g & H2e).
  simpl in H1s, H1e. rewrite lookup_empty in H1s. rewrite lookup_empty in H1e.
  exists block. split; [done|]. split; [by rewrite HG, H2g|].
  split; [by rewrite HT, H2s, Hst, H1s|by rewrite He, H2e, Hen, H1e].
Qed.

(** The constraint Number, which embeds the one type int. *)
Lemma constraint_has_block_witness :
  ∃ block,
    buildUnion numberPkg "Number"
      (TypeName sdkFile
         (Some (Named "github.com/coder/coder/codersdk" "Number"
                  (Interface [Basic TInt] false))))
      (unionOf (Basic TInt)) = Ok block ∧
    TypescriptTypes.Generics
      (TypescriptTypes.mk ∅ ∅
         {[ "Number" := "// From codersdk/types.go" +:+ nl +:+
                        "export type Number = number" +:+ nl ]}) !! "Number"
    = Some block ∧
    TypescriptTypes.Types
      (TypescriptTypes.mk ∅ ∅
         {[ "Number" := "// From codersdk/types.go" +:+ nl +:+
                        "export type Number = number" +:+ nl ]}) !! "Number" = None ∧
    TypescriptTypes.Enums
      (TypescriptTypes.mk ∅ ∅
         {[ "Number" := "// From codersdk/types.go" +:+ nl +:+
                        "export type Number = number" +:+ nl ]}) !! "Number" = None.
Proof.
  apply (constraint_has_block numberPkg _ "Number" sdkFile
           "github.com/coder/coder/codersdk" "Number" (Basic TInt) false).
  - vm_compute. reflexivity.
  - vm_compute. reflexivity.
  - vm_compute. intros H. discriminate H.
Defined.

(** ** Ignore set: which identifiers it holds *)

(** Where the ignore expression matches, the comment has a first
    directive, and the capture is what follows it on its line. *)
Lemma findIgnored_Some (text captured : string) :
  findIgnored text = Some captured →
  ∃ pre rest, text = pre +:+ directive +:+ rest ∧
              noDirective pre (directive +:+ rest) ∧
              captured = upToNewline (afterColon rest).
Proof.
  induction text as [|c text IH]; rewrite findIgnored_eq.
  - destruct (String.prefix directive EmptyString) eqn:E; [|discriminate].
    discriminate E.
  - destruct (String.prefix directive (String c text)) eqn:E.
    + intros [= <-]. exists EmptyString.
      exists (String.substring (String.length directive)
                (String.length (String c text) - String.length directive)
                (String c text)).
      assert (Hsplit : String c text
                       = directive +:+
                         String.substring (String.length directive)
                           (String.length (String c text) - String.length directive)
                           (String c text)).
      { clear IH. revert E. generalize (String c text) as s. generalize directive as d.
        induction d as [|x d IHd]; intros s E.
        - simpl. change (EmptyString +:+ ?t) with t.
          rewrite Nat.sub_0_r. by rewrite substring_all.
        - destruct s as [|y s]; [discriminate|]. simpl in E.
          destruct (ascii_dec x y) as [->|]; [|discriminate].
          change (String y d +:+ ?t) with (String y (d +:+ t)).
          simpl. f_equal. by apply IHd. }
      split; [exact Hsplit|]. split; [|reflexivity].
      intros p s Hp Hs. destruct p, s; try discriminate Hp. by destruct Hs.
    + intros H. destruct (IH H) as (pre & rest & -> & Hno & ->).
      exists (String c pre), rest. split; [reflexivity|]. split; [|reflexivity].
      intros p s Hp Hs. destruct p as [|c' p].
      * change (EmptyString +:+ s) with s in Hp. subst s. exact E.
      * change (String c' p +:+ s) with (String c' (p +:+ s)) in Hp.
        injection Hp as _ Hp. by apply (Hno p s).
Qed.

(** X14. The ignore set holds an identifier exactly when the first
    @typescript-ignore directive of some comment of the package lists
    it, the text after the directive on its line not being empty. A
    package whose comments have no directive ignores nothing. *)
Theorem ignore_set_exactly (g : Package) (id : string) :
  id ∈ ignoredTypes g ↔
  ∃ text pre rest,
    text ∈ comments g ∧ text = pre +:+ directive +:+ rest ∧
    noDirective pre (directive +:+ rest) ∧
    upToNewline (afterColon rest) ≠ EmptyString ∧
    id ∈ listed rest.
Proof.
  unfold ignoredTypes. rewrite elem_of_list_to_set, elem_of_concat. split.
  - intros (l & Hid & Hl). apply list_elem_of_fmap in Hl as (text & -> & Ht).
    unfold ignoredInLine in Hid.
    destruct (findIgnored text) as [captured|] eqn:Hf; [|by apply elem_of_nil in Hid].
    destruct (nonEmpty captured) eqn:Hne; [|by apply elem_of_nil in Hid].
    apply findIgnored_Some in Hf as (pre & rest & -> & Hno & ->).
    exists (pre +:+ directive +:+ rest), pre, rest.
    split; [done|]. split; [done|]. split; [done|].
    split; [by apply nonEmpty_true|exact Hid].
  - intros (text & pre & rest & Ht & -> & Hno & Hne & Hid).
    exists (ignoredInLine (pre +:+ directive +:+ rest)). split.
    + unfold ignoredInLine. rewrite findIgnored_first by done.
      apply nonEmpty_true in Hne. by rewrite Hne.
    + apply list_elem_of_fmap. by eexists.
Qed.

(** The directive alone on its line lists nothing. *)
Example empty_directive : ignoredInLine "// @typescript-ignore" = [].
Proof. reflexivity. Qed.

(** ** Entry points *)

Lemma prefix_append_assoc (a b c : string) :
  String.prefix (a +:+ b) (a +:+ b +:+ c) = true.
Proof. rewrite <- append_assoc. apply prefix_append. Qed.

(** X15. For a directory with a printable name, GenerateFromDirectory
    returns the blocks of generateAll exactly when one package was
    loaded and its generation succeeds. Every error it returns, of the
    load, of the count of packages or of the generation, starts with
    [parse package], the quoted directory and a colon; for no package or
    for more than one the error tells the count. *)
Theorem GenerateFromDirectory_outcomes (directory : string)
    (loaded : result (list Package)) :
  printableASCII directory = true →
  (∀ out, GenerateFromDirectory directory loaded = Ok out ↔
          ∃ p, loaded = Ok [p] ∧ generateAll p = Ok out) ∧
  (∀ msg, GenerateFromDirectory directory loaded = Err msg →
          String.prefix (("parse package " +:+ quote directory) +:+ ": ") msg = true) ∧
  (∀ pkgs, loaded = Ok pkgs → length pkgs ≠ 1 →
           GenerateFromDirectory directory loaded
           = Err (("parse package " +:+ quote directory)
                  +:+ ": expected 1 package, found "
                  +:+ decimal (N.of_nat (length pkgs)))).
Proof.
  intros _. unfold GenerateFromDirectory, parsePackage. split; [|split].
  - intros out. split.
    + intros H. apply bind_Ok in H as (p & Hp & H).
      apply wrapErr_Ok in Hp. apply wrapErr_Ok in H.
      apply bind_Ok in Hp as (pkgs & Hl & Hp). apply wrapErr_Ok in Hl.
      destruct pkgs as [|p' [|p'' rest]]; try discriminate.
      injection Hp as ->. by exists p.
    + intros (p & -> & H). simpl. by rewrite H.
  - intros msg.
    destruct loaded as [pkgs|m|m]; simpl; [|intros [= <-]|discriminate].
    + destruct pkgs as [|p [|p' rest]]; simpl.
      * intros [= <-]. apply prefix_append_assoc.
      * destruct (generateAll p) as [out|m|m]; simpl; try discriminate.
        intros [= <-]. apply prefix_append_assoc.
      * intros [= <-]. apply prefix_append_assoc.
    + apply prefix_append_assoc.
  - intros pkgs -> Hlen. simpl.
    destruct pkgs as [|p [|p' rest]]; simpl in *; done.
Qed.

(** The codersdk directory, and a load that found two packages. *)
Lemma GenerateFromDirectory_outcomes_witness :
  (∀ out, GenerateFromDirectory baseDir (Ok [idPkg; fooPkg]) = Ok out ↔
          ∃ p, Ok [idPkg; fooPkg] = Ok [p] ∧ generateAll p = Ok out) ∧
  (∀ msg, GenerateFromDirectory baseDir (Ok [idPkg; fooPkg]) = Err msg →
          String.prefix (("parse package " +:+ quote baseDir) +:+ ": ") msg = true) ∧
  (∀ pkgs, Ok [idPkg; fooPkg] = Ok pkgs → length pkgs ≠ 1 →
           GenerateFromDirectory baseDir (Ok [idPkg; fooPkg])
           = Err (("parse package " +:+ quote baseDir)
                  +:+ ": expected 1 package, found "
                  +:+ decimal (N.of_nat (length pkgs)))).
Proof.
  apply (GenerateFromDirectory_outcomes baseDir (Ok [idPkg; fooPkg])).
  reflexivity.
Defined.

Example no_package :
  GenerateFromDirectory baseDir (Ok [])
  = Err ("parse package " +:+ quote "./codersdk" +:+ ": expected 1 package, found 0").
Proof. vm_compute. reflexivity. Qed.

(** ** The document *)

Lemma trimRight_app (cut : ascii → bool) (a rest : string) :
  (∃ c, lastByte a = Some c ∧ cut c = false) →
  trimRight cut (a +:+ rest) = a +:+ trimRight cut rest.
Proof.
  induction a as [|c a IH]; intros (x & Hl & Hx); [discriminate|].
  change (String c a +:+ ?t) with (String c (a +:+ t)).
  destruct a as [|c' a'].
  - injection Hl as ->.
    change (EmptyString +:+ ?t) with t. simpl.
    destruct (trimRight cut rest); [by rewrite Hx|done].
  - assert (Hrec : trimRight cut (String c' a' +:+ rest)
                   = String c' a' +:+ trimRight cut rest).
    { apply IH. by exists x. }
    change (trimRight cut (String c (String c' a' +:+ rest)))
      with (match trimRight cut (String c' a' +:+ rest) with
            | EmptyString => if cut c then EmptyString else String c EmptyString
            | kept => String c kept
            end).
    rewrite Hrec. reflexivity.
Qed.

Lemma writeBlocks_nil (m : gmap string string) :
  TypescriptTypes.writeBlocks m [] = EmptyString.
Proof. reflexivity. Qed.

Lemma sortedKeys_empty : TypescriptTypes.sortedKeys ∅ = [].
Proof.
  unfold TypescriptTypes.sortedKeys. by rewrite map_to_list_empty.
Qed.

Lemma String_banner (c : TypescriptTypes.t) :
  TypescriptTypes.String c
  = bannerLine +:+
    trimRight isNewline
      (nl +:+ nl
       +:+ TypescriptTypes.writeBlocks (TypescriptTypes.Types c)
             (TypescriptTypes.sortedKeys (TypescriptTypes.Types c))
       +:+ TypescriptTypes.writeBlocks (TypescriptTypes.Enums c)
             (TypescriptTypes.sortedKeys (TypescriptTypes.Enums c))
       +:+ TypescriptTypes.writeBlocks (TypescriptTypes.Generics c)
             (TypescriptTypes.sortedKeys (TypescriptTypes.Generics c))).
Proof.
  unfold TypescriptTypes.String, TypescriptTypes.banner. fold bannerLine.
  rewrite !append_assoc. apply trimRight_app.
  exists "."%char. split; reflexivity.
Qed.

(** X16. The document starts with the line of the banner, whatever the
    buckets hold; when the three buckets are empty the document is the
    line of the banner alone, without a newline after it. *)
Theorem document_banner (c : TypescriptTypes.t) :
  String.prefix bannerLine (TypescriptTypes.String c) = true ∧
  (TypescriptTypes.Types c = ∅ → TypescriptTypes.Enums c = ∅ →
   TypescriptTypes.Generics c = ∅ → TypescriptTypes.String c = bannerLine).
Proof.
  split.
  - rewrite String_banner. apply prefix_append.
  - intros HT HE HG. rewrite String_banner, HT, HE, HG, sortedKeys_empty.
    reflexivity.
Qed.

(** X17. main writes a document exactly when GenerateFromDirectory
    succeeds for the codersdk directory; what it writes is the document
    of the blocks and one newline, so the output starts with the line of
    the banner and ends in exactly one newline. *)
Theorem main_output (loaded : result (list Package)) (written : string) :
  main loaded = Some written ↔
  ∃ out, GenerateFromDirectory baseDir loaded = Ok out ∧
         written = TypescriptTypes.String out +:+ nl ∧
         String.prefix bannerLine (TypescriptTypes.String out) = true ∧
         (∀ ch, lastByte (TypescriptTypes.String out) = Some ch →
                isNewline ch = false).
Proof.
  unfold main. split.
  - destruct (GenerateFromDirectory baseDir loaded) as [out|m|m]; try discriminate.
    intros [= <-]. exists out. split; [done|]. split; [done|].
    split; [rewrite String_banner; apply prefix_append|].
    intros ch. apply trimRight_last.
  - intros (out & -> & -> & _). reflexivity.
Qed.

(** ** What the renderers read of the package *)

Section SameNames.
Variables g g' : Package.
Hypothesis same : ∀ n, declared g n = declared g' n.

Lemma typescriptType_same (ty : Type_) : typescriptType g ty = typescriptType g' ty.
Proof.
  induction ty; simpl; try reflexivity.
  - by rewrite IHty.
  - by rewrite IHty.
  - by rewrite IHty.
  - by rewrite IHty1, IHty2.
  - rewrite same, IHty. reflexivity.
Qed.

Lemma fieldStep_same (field : Field) (st : fieldsState) :
  fieldStep g field st = fieldStep g' field st.
Proof. unfold fieldStep. by rewrite typescriptType_same. Qed.

Lemma fieldsLoop_same (fields : list Field) :
  ∀ i ext st, fieldsLoop g i fields ext st = fieldsLoop g' i fields ext st.
Proof.
  induction fields as [|f rest IH]; intros i ext st; simpl; [done|].
  destruct (default false (ext !! i)); [apply IH|].
  rewrite fieldStep_same. destruct (fieldStep g' f st); simpl; [apply IH|done..].
Qed.

Lemma unionTerms_same (context : string) (terms : list (bool * Type_)) :
  ∀ all opt, unionTerms g context terms all opt = unionTerms g' context terms all opt.
Proof.
  induction terms as [|t rest IH]; intros all opt; simpl; [done|].
  rewrite typescriptType_same.
  destruct (typescriptType g' t.2); simpl; [apply IH|done..].
Qed.

End SameNames.

(** X18. Of the package, the type mapper reads only which names the
    scope binds, and the loop of buildStruct over the fields and the
    loop of buildUnion over the terms read the package through the
    mapper alone: for two packages that bind the same names, whatever
    the declarations behind the names and whatever the comments, every
    type maps alike, and the two loops give the same lines, generic
    parameters, annotation and terms. The position line of a block,
    which the code reads off the file set of the package, is not part of
    the statement. *)
Theorem renderers_read_bound_names (g g' : Package) :
  (∀ n, declared g n = declared g' n) →
  (∀ ty, typescriptType g ty = typescriptType g' ty) ∧
  (∀ i fields ext st,
     fieldsLoop g i fields ext st = fieldsLoop g' i fields ext st) ∧
  (∀ context terms all opt,
     unionTerms g context terms all opt = unionTerms g' context terms all opt).
Proof.
  intros same. split; [|split].
  - intros ty. by apply typescriptType_same.
  - intros i fields ext st. by apply fieldsLoop_same.
  - intros context terms all opt. by apply unionTerms_same.
Qed.

(** The package that declares ID as a slice of bytes and the one that
    declares it as a record. *)
Lemma renderers_read_bound_names_witness :
  (∀ ty, typescriptType idPkg ty = typescriptType idRecordPkg ty) ∧
  (∀ i fields ext st,
     fieldsLoop idPkg i fields ext st = fieldsLoop idRecordPkg i fields ext st) ∧
  (∀ context terms all opt,
     unionTerms idPkg context terms all opt
     = unionTerms idRecordPkg context terms all opt).
Proof.
  apply (renderers_read_bound_names idPkg idRecordPkg).
  intros n. unfold declared, idPkg, idRecordPkg. simpl.
  destruct (decide (n = "ID")) as [->|Hn].
  - reflexivity.
  - rewrite !lookup_singleton_ne; done.
Defined.

(** ** References to names without a block *)

(** X19. A reference to a named type whose name the scope binds, and
    that is not one of the external types with a mapping of its own, is
    printed as the bare name, whatever the package and the underlying
    type of the reference. It is printed so also when a successful run
    has no block for the name: when the ignore set lists it, or when its
    declaration is of a shape that the classifier passes over. *)
Theorem reference_without_block (g : Package) (out : TypescriptTypes.t)
    (p id : string) (u : Type_) :
  generateAll g = Ok out →
  is_Some (Scope g !! id) →
  externalNamed (typeString (Named p id u)) = None →
  id ∈ ignoredTypes g ∨
  (∀ f q nm under, Scope g !! id = Some (TypeName f (Some (Named q nm under))) →
                   shapeOf under = skipped) →
  typescriptType g (Named p id u) = Ok (tsValue id) ∧
  TypescriptTypes.Types out !! id = None ∧
  TypescriptTypes.Enums out !! id = None ∧
  TypescriptTypes.Generics out !! id = None.
Proof.
  intros H [obj Hobj] Hext Hno. split.
  { change (typescriptType g (Named p id u))
      with (match externalNamed (typeString (Named p id u)) with
            | Some ts => Ok ts
            | None =>
                if declared g id then Ok (tsValue id)
                else
                  match u with
                  | Struct _ =>
                      Ok (mkTypescriptType EmptyString "any"
                            (indentedComment ("Named type " +:+ quote (typeString (Named p id u))
                                              +:+ " unknown, using " +:+ dq +:+ "any" +:+ dq)
                             +:+ nl +:+
                             indentedComment "eslint-disable-next-line @typescript-eslint/no-explicit-any")
                            false)
                  | _ =>
                      ts ← wrapErr "named underlying" (typescriptType g u);
                      Ok (mkTypescriptType (GenericMapping ts) (ValueType ts)
                            (indentedComment
                               ("This is likely an enum in an external package ("
                                +:+ quote (typeString (Named p id u)) +:+ ")"))
                            (Optional ts))
                  end
            end).
    rewrite Hext. unfold declared. by rewrite Hobj. }
  apply generateAll_collected in H as (acc & Hacc & HT & HG & He).
  pose proof (enums_is_Some g out acc id He) as Hen'.
  destruct (walk_at g acc id Hacc) as (acc1 & acc2 & Hstep & H1 & H2).
  destruct H1 as (H1s & H1g & H1e). destruct H2 as (H2s & H2g & H2e).
  simpl in H1s, H1g, H1e.
  rewrite lookup_empty in H1s. rewrite lookup_empty in H1g.
  rewrite lookup_empty in H1e.
  assert (Hnone : ¬ (is_Some (structs acc2 !! id) ∨ is_Some (generics acc2 !! id)
                     ∨ is_Some (enums acc2 !! id))).
  { intros Hsome.
    destruct (classify_block g _ id acc1 acc2 Hstep H1s H1g H1e Hsome)
      as (Hi & f & q & nm & under & Hs).
    destruct Hno as [Hno|Hno]; [done|].
    specialize (Hno f q nm under Hs).
    destruct (classify_typeName g _ _ _ _ _ _ _ _ Hs Hi Hstep H1s H1g H1e)
      as (_ & HA & HB & HC).
    rewrite Hno in HA, HB, HC.
    destruct Hsome as [Hx|[Hx|Hx]].
    - apply HA in Hx as [?|?]; discriminate.
    - by apply HC in Hx.
    - by apply HB in Hx. }
  rewrite HT, HG, H2s, H2g.
  assert (Henone : TypescriptTypes.Enums out !! id = None).
  { apply eq_None_not_Some. rewrite Hen', H2e. tauto. }
  split; [|split; [done|]].
  - apply eq_None_not_Some. tauto.
  - apply eq_None_not_Some. tauto.
Qed.

(** The package declares ID as a slice of bytes: a field of type ID is
    printed as ID, and the run has no block for ID. *)
Lemma reference_without_block_witness :
  typescriptType idPkg (sdk "ID" (Slice (Basic TByte))) = Ok (tsValue "ID") ∧
  TypescriptTypes.Types (TypescriptTypes.mk ∅ ∅ ∅) !! "ID" = None ∧
  TypescriptTypes.Enums (TypescriptTypes.mk ∅ ∅ ∅) !! "ID" = None ∧
  TypescriptTypes.Generics (TypescriptTypes.mk ∅ ∅ ∅) !! "ID" = None.
Proof.
  apply (reference_without_block idPkg (TypescriptTypes.mk ∅ ∅ ∅)
           "github.com/coder/coder/codersdk" "ID" (Slice (Basic TByte))).
  - vm_compute. reflexivity.
  - vm_compute. by eexists.
  - reflexivity.
  - right. intros f q nm under. vm_compute. intros [= <- <- <- <-]. reflexivity.
Defined.

Example owner_refers_to_ID :
  buildStruct idPkg "Token" (TypeName sdkFile None) ownerFields
  = Ok ("// From codersdk/types.go" +:+ nl +:+
        "export interface Token {" +:+ nl +:+
        "  readonly owner: ID" +:+ nl +:+ "}" +:+ nl).
Proof. vm_compute. reflexivity. Qed.

(** ** The error of a failed run *)

Section FirstFailure.
Variable g : Package.
Variable ignored : gset string.

(** A walk that returns an error stopped at a name whose step returned
    that error; the steps of the names before it succeed. *)
Lemma classifyAll_first_failure (names : list string) :
  ∀ acc msg,
    classifyAll g ignored names acc = Err msg →
    ∃ pre n post acc1,
      names = pre ++ n :: post ∧
      classify g ignored n acc1 = Err msg ∧
      ∀ k, k ∈ pre → isOk (classify g ignored k nothing) = true.
Proof.
  induction names as [|n rest IH]; intros acc msg; simpl; [discriminate|].
  pose proof (classify_isOk g ignored n acc) as Hn.
  rewrite <- (classify_isOk g ignored n nothing) in Hn.
  destruct (classify g ignored n acc) as [acc1|m|m] eqn:Hstep; simpl.
  - intros H. destruct (IH _ _ H) as (pre & k & post & acc2 & -> & Hk & Hpre).
    exists (n :: pre), k, post, acc2. split; [done|]. split; [done|].
    intros j Hj. apply elem_of_cons in Hj as [->|Hj]; [done|by apply Hpre].
  - intros [= ->]. exists [], n, rest, acc. split; [done|]. split; [done|].
    by intros k ?%elem_of_nil.
  - discriminate.
Qed.

(** The error of a step tells the declaration and what failed in it. *)
Lemma classify_error (n : string) (acc : collected) (msg : string) :
  classify g ignored n acc = Err msg →
  ∃ f p nm under,
    Scope g !! n = Some (TypeName f (Some (Named p nm under))) ∧
    (n ∉ ignored) ∧
    ((shapeOf under = unsupported ∧
      msg = "unsupported named type " +:+ quote (typeString under)) ∨
     (∃ fields m,
        under = Struct fields ∧
        buildStruct g n (TypeName f (Some (Named p nm under))) fields = Err m ∧
        msg = ("generate " +:+ quote n) +:+ ": " +:+ m) ∨
     (∃ m,
        shapeOf under = mapAlias ∧ typescriptType g under = Err m ∧
        msg = ("(map) generate " +:+ quote n) +:+ ": " +:+ m) ∨
     (∃ e empty m,
        under = Interface [e] empty ∧
        buildUnion g n (TypeName f (Some (Named p nm under))) (unionOf e) = Err m ∧
        msg = ("generate union " +:+ quote n) +:+ ": " +:+ m)).
Proof.
  unfold classify. destruct (Scope g !! n) as [obj|]; [|discriminate].
  destruct obj as [f [ty|]|f [ty|]|f [ty|] val|f [ty|]]; simpl; try discriminate;
    case_bool_decide as Hi; try discriminate.
  - destruct ty as [| | | | | | | | | | |p nm under|]; try discriminate.
    intros H. exists f, p, nm, under. split; [done|]. split; [done|].
    remember (typescriptType g under) as mapped eqn:Hmapped in H.
    destruct under as [bs|len e|e|fields|e|vars|ps rs|terms|embeddeds empty
                      |k v|dir e|p' n' u|name c]; simpl in H; try discriminate.
    + destruct (buildStruct g n _ fields) as [b|m|m] eqn:Hb; simpl in H;
        try discriminate.
      injection H as <-. right. left. by exists fields, m.
    + injection H as <-. by left.
    + injection H as <-. by left.
    + injection H as <-. by left.
    + destruct embeddeds as [|e [|e' rest]]; try discriminate.
      fold (unionOf e) in H.
      destruct (buildUnion g n _ (unionOf e)) as [b|m|m] eqn:Hb; simpl in H;
        try discriminate.
      injection H as <-. right. right. right. by exists e, empty, m.
    + destruct mapped as [b|m|m]; simpl in H; try discriminate.
      injection H as <-. right. right. left. by exists m.
    + injection H as <-. by left.
    + injection H as <-. by left.
    + injection H as <-. by left.
  - by destruct ty.
Qed.

End FirstFailure.

Lemma StronglySorted_before (pre post : list string) (n k : string) :
  StronglySorted string_lt (pre ++ n :: post) →
  k ∈ pre ++ n :: post → string_lt k n → k ∈ pre.
Proof.
  intros Hs Hk Hlt. apply elem_of_app in Hk as [Hk|Hk]; [done|].
  apply string_lt_le_ne in Hlt as [Hle Hne].
  apply elem_of_cons in Hk as [->|Hk]; [done|].
  apply StronglySorted_app_1_r in Hs.
  apply StronglySorted_inv in Hs as [_ Hall].
  rewrite Forall_forall in Hall. specialize (Hall k Hk).
  apply string_lt_le_ne in Hall as [Hle' _].
  destruct Hne. by apply (anti_symm string_le).
Qed.

(** X20. The error of a failed run is the error of one declaration: a
    type name of a named type that the ignore set does not list, the
    first in the order of the names that the classifier does not accept.
    The error tells what failed: the shape is unsupported, or the record,
    the map or the union of the declaration does not render, and then
    the message names the declaration before the cause. *)
Theorem run_error_of_first_failure (g : Package) (msg : string) :
  generateAll g = Err msg →
  ∃ n f p nm under,
    Scope g !! n = Some (TypeName f (Some (Named p nm under))) ∧
    (n ∉ ignoredTypes g) ∧
    ((shapeOf under = unsupported ∧
      msg = "unsupported named type " +:+ quote (typeString under)) ∨
     (∃ fields m,
        under = Struct fields ∧
        buildStruct g n (TypeName f (Some (Named p nm under))) fields = Err m ∧
        msg = ("generate " +:+ quote n) +:+ ": " +:+ m) ∨
     (∃ m,
        shapeOf under = mapAlias ∧ typescriptType g under = Err m ∧
        msg = ("(map) generate " +:+ quote n) +:+ ": " +:+ m) ∨
     (∃ e empty m,
        under = Interface [e] empty ∧
        buildUnion g n (TypeName f (Some (Named p nm under))) (unionOf e) = Err m ∧
        msg = ("generate union " +:+ quote n) +:+ ": " +:+ m)) ∧
    ∀ k obj, Scope g !! k = Some obj → string_lt k n → k ∉ ignoredTypes g →
             declarationOk g k obj = true.
Proof.
  intros H. unfold generateAll in H. fold nothing in H.
  destruct (classifyAll g (ignoredTypes g) (scopeNames g) nothing)
    as [acc|m|m] eqn:Hwalk; simpl in H; try discriminate.
  injection H as ->.
  apply classifyAll_first_failure in Hwalk
    as (pre & n & post & acc1 & Hnames & Hstep & Hpre).
  destruct (classify_error g _ n acc1 msg Hstep)
    as (f & p & nm & under & Hs & Hi & Hmsg).
  exists n, f, p, nm, under. split; [done|]. split; [done|]. split; [done|].
  intros k obj Hk Hlt Hki.
  assert (Hin : k ∈ pre).
  { apply (StronglySorted_before pre post n k); [|  |done].
    - rewrite <- Hnames. apply sorted_keys_ascending.
    - rewrite <- Hnames. apply scopeNames_elem_of. by eexists. }
  specialize (Hpre k Hin). rewrite classify_isOk, Hk in Hpre.
  by rewrite bool_decide_eq_false_2 in Hpre by done.
Qed.

(** The package that declares Events as a channel. *)
Lemma run_error_of_first_failure_witness :
  ∃ n f p nm under,
    Scope chanPkg !! n = Some (TypeName f (Some (Named p nm under))) ∧
    (n ∉ ignoredTypes chanPkg) ∧
    ((shapeOf under = unsupported ∧
      "unsupported named type " +:+ quote "chan int"
      = "unsupported named type " +:+ quote (typeString under)) ∨
     (∃ fields m,
        under = Struct fields ∧
        buildStruct chanPkg n (TypeName f (Some (Named p nm under))) fields = Err m ∧
        "unsupported named type " +:+ quote "chan int"
        = ("generate " +:+ quote n) +:+ ": " +:+ m) ∨
     (∃ m,
        shapeOf under = mapAlias ∧ typescriptType chanPkg under = Err m ∧
        "unsupported named type " +:+ quote "chan int"
        = ("(map) generate " +:+ quote n) +:+ ": " +:+ m) ∨
     (∃ e empty m,
        under = Interface [e] empty ∧
        buildUnion chanPkg n (TypeName f (Some (Named p nm under))) (unionOf e) = Err m ∧
        "unsupported named type " +:+ quote "chan int"
        = ("generate union " +:+ quote n) +:+ ": " +:+ m)) ∧
    ∀ k obj, Scope chanPkg !! k = Some obj → string_lt k n →
             k ∉ ignoredTypes chanPkg → declarationOk chanPkg k obj = true.
Proof.
  apply (run_error_of_first_failure chanPkg
           ("unsupported named type " +:+ quote "chan int")).
  vm_compute. reflexivity.
Defined.
